(** * Auto-Mute: the session registry, the focus-event queue and the
      mute/unmute transition

    A shallow embedding of the iterations of the program found in
    [EventHookProcessID.cpp] (the tracker with its registry, queue and
    [SwitchMuteStates]) and in [EventHookProcessID_APC.cpp] (the
    enumerating [AutoMuteRoutine]).

    The program state is passed explicitly.  The process globals
    ([oldProcessId], [sessionsList], [sessionIdSet], [eventQueue]) live in
    [Globals]; what the program can observe or change in the Windows audio
    subsystem (mute flags, COM reference counts, notification
    registrations) lives in [Audio].  What the audio calls answer is given
    by an [AudioEnv], a parameter of the whole development. *)

From Stdlib Require Import ZArith List Lia Bool String.
From stdpp Require Import base tactics decidable numbers strings pretty
  functions list gmap.

Local Open Scope Z_scope.

(** ** Machine types and result codes *)

(** [DWORD] is an unsigned 32-bit value; the program only compares and
    copies process ids, so no arithmetic on it is modelled. *)
Abbreviation DWORD := N.

(** [HRESULT] is a signed 32-bit value ([LONG]). *)
Abbreviation HRESULT := Z.

(** Interface pointers.  [NULL] is 0; two pointers are the same COM object
    exactly when they are equal. *)
Abbreviation ptr := N.
Definition NULL : ptr := 0%N.

(** Reading of a 32-bit pattern as a [LONG]. *)
Definition HRESULT_of_bits (u : Z) : HRESULT :=
  if u <? 2 ^ 31 then u else u - 2 ^ 32.

(** Values of <winerror.h>. *)
Definition S_OK : HRESULT := 0.
Definition S_FALSE : HRESULT := 1.
Definition E_POINTER : HRESULT := HRESULT_of_bits 0x80004003.
Definition E_FAIL : HRESULT := HRESULT_of_bits 0x80004005.
Definition E_UNEXPECTED : HRESULT := HRESULT_of_bits 0x8000FFFF.
Definition E_INVALIDARG : HRESULT := HRESULT_of_bits 0x80070057.

(** [FAILED] of <winerror.h>: the sign of the code. *)
Definition FAILED (hr : HRESULT) : bool := hr <? 0.

(** [MAKE_SCODE(sev, fac, code)] of <winerror.h> and [AUDCLNT_SUCCESS] of
    <audioclient.h>, which the source uses in
    [#define AUDCLNT_S_NO_SINGLE_PROCESS AUDCLNT_SUCCESS (0x00d)]. *)
Definition SEVERITY_SUCCESS : Z := 0.
Definition FACILITY_AUDCLNT : Z := 0x889.
Definition MAKE_SCODE (sev fac code : Z) : HRESULT :=
  HRESULT_of_bits (Z.lor (Z.lor (Z.shiftl sev 31) (Z.shiftl fac 16)) code).
Definition AUDCLNT_SUCCESS (n : Z) : HRESULT :=
  MAKE_SCODE SEVERITY_SUCCESS FACILITY_AUDCLNT n.
Definition AUDCLNT_S_NO_SINGLE_PROCESS : HRESULT := AUDCLNT_SUCCESS 0x00d.

(** Values of <winuser.h> used by the event hook. *)
Definition EVENT_SYSTEM_FOREGROUND : DWORD := 3%N.
Definition OBJID_WINDOW : Z := 0.
Definition CHILDID_SELF : Z := 0.

(** ** The audio capability *)

(** What the methods of one audio session object answer.  The object is
    reached through [IAudioSessionControl], [IAudioSessionControl2] and
    [ISimpleAudioVolume] pointers; one [ptr] stands for the object. *)
Record Session := mkSession {
  hrQueryControl2 : HRESULT;      (* QueryInterface<IAudioSessionControl2> *)
  hrGetDisplayName : HRESULT;
  hrGetSessionIdentifier : HRESULT;
  sessionIdentifier : string;
  hrGetSessionInstanceIdentifier : HRESULT;
  sessionInstanceIdentifier : string;
  hrGetProcessId : HRESULT;
  processId : DWORD;              (* what GetProcessId writes *)
  hrIsSystemSoundsSession : HRESULT;
  hrRegisterAudioSessionNotification : HRESULT;
  hrQueryVolume : HRESULT;        (* QueryInterface<ISimpleAudioVolume> *)
  hrSetMute : HRESULT
}.

(** What the calls made at start-up and by the enumerating routine answer. *)
Record AudioEnv := mkAudioEnv {
  session : ptr -> Session;
  hrCoInitializeEx : HRESULT;
  hrCoCreateInstance : HRESULT;
  hrGetDefaultAudioEndpoint : HRESULT;
  hrActivate : HRESULT;
  hrRegisterSessionNotification : HRESULT;
  hrGetSessionEnumerator : HRESULT;
  hrGetCount : HRESULT;
  numSessions : Z;                (* what GetCount writes *)
  hrGetSession : Z -> HRESULT;    (* GetSession(i, &pCtrl) *)
  enumSession : Z -> ptr          (* the pCtrl it writes *)
}.

(** The part of the audio subsystem the program changes. *)
Record Audio := mkAudio {
  muted : ptr -> bool;
  refCount : ptr -> Z;
  sessionEvents : ptr -> bool;    (* IAudioSessionEvents registered on it *)
  sessionNotification : bool;     (* IAudioSessionNotification registered *)
  comInitCount : Z;             (* CoInitializeEx calls not yet balanced *)
  muteCalls : list (ptr * bool)   (* SetMute calls made, oldest first *)
}.

(** The globals of [EventHookProcessID.cpp]. *)
Record Globals := mkGlobals {
  oldProcessId : DWORD;
  sessionsList : list (DWORD * ptr);   (* unordered_multimap *)
  sessionIdSet : gset string;          (* unordered_set<wstring> *)
  eventQueue : list (DWORD * DWORD)    (* queue<pair<DWORD,DWORD>>, front first *)
}.

Definition set_muted (f : ptr -> bool) (a : Audio) : Audio :=
  mkAudio f (refCount a) (sessionEvents a) (sessionNotification a)
    (comInitCount a) (muteCalls a).
Definition set_refCount (f : ptr -> Z) (a : Audio) : Audio :=
  mkAudio (muted a) f (sessionEvents a) (sessionNotification a)
    (comInitCount a) (muteCalls a).
Definition set_sessionEvents (f : ptr -> bool) (a : Audio) : Audio :=
  mkAudio (muted a) (refCount a) f (sessionNotification a)
    (comInitCount a) (muteCalls a).
Definition set_sessionNotification (b : bool) (a : Audio) : Audio :=
  mkAudio (muted a) (refCount a) (sessionEvents a) b
    (comInitCount a) (muteCalls a).
Definition set_comInitCount (n : Z) (a : Audio) : Audio :=
  mkAudio (muted a) (refCount a) (sessionEvents a) (sessionNotification a)
    n (muteCalls a).
Definition set_muteCalls (l : list (ptr * bool)) (a : Audio) : Audio :=
  mkAudio (muted a) (refCount a) (sessionEvents a) (sessionNotification a)
    (comInitCount a) l.

Definition set_oldProcessId (p : DWORD) (g : Globals) : Globals :=
  mkGlobals p (sessionsList g) (sessionIdSet g) (eventQueue g).
Definition set_sessionsList (l : list (DWORD * ptr)) (g : Globals) : Globals :=
  mkGlobals (oldProcessId g) l (sessionIdSet g) (eventQueue g).
Definition set_sessionIdSet (s : gset string) (g : Globals) : Globals :=
  mkGlobals (oldProcessId g) (sessionsList g) s (eventQueue g).
Definition set_eventQueue (q : list (DWORD * DWORD)) (g : Globals) : Globals :=
  mkGlobals (oldProcessId g) (sessionsList g) (sessionIdSet g) q.

(** The globals as the program image initialises them. *)
Definition initGlobals : Globals := mkGlobals 0%N [] ∅ [].

(** ** COM calls on a session object *)

Definition AddRef (p : ptr) (a : Audio) : Audio :=
  set_refCount (<[p := refCount a p + 1]> (refCount a)) a.

Definition Release (p : ptr) (a : Audio) : Audio :=
  set_refCount (<[p := refCount a p - 1]> (refCount a)) a.

Section Program.

Variable env : AudioEnv.

(** A call into the audio subsystem has its effect exactly when it answers
    [S_OK]; this is also how every call site of the program reads it. *)

(** [pVol -> SetMute(b, NULL)]: the call is recorded; the session takes the
    new mute state when the call answers [S_OK]. *)
Definition SetMute (p : ptr) (b : bool) (a : Audio) : HRESULT * Audio :=
  let hr := hrSetMute (session env p) in
  let a1 := set_muteCalls (muteCalls a ++ [(p, b)]) a in
  (hr, if decide (hr = S_OK) then set_muted (<[p := b]> (muted a1)) a1 else a1).

(** [sessionsList.equal_range(k)]: the handles stored under key [k]. *)
Definition equal_range (k : DWORD) (l : list (DWORD * ptr)) : list ptr :=
  snd <$> filter (fun e => fst e = k) l.

(** [sessionsList.count(k)]. *)
Definition count (k : DWORD) (l : list (DWORD * ptr)) : nat :=
  length (equal_range k l).

(** ** SwitchMuteStates (EventHookProcessID.cpp) *)

(** One iteration of either loop:
<<
      p -> second -> QueryInterface<ISimpleAudioVolume>(&pVol);
      if(pVol) { pVol -> SetMute(b, NULL); pVol -> Release(); }
>>
    [QueryInterface] leaves a non-null [pVol], holding one more reference,
    exactly when it returns [S_OK]. The result of [SetMute] is dropped. *)
Definition setSessionMute (b : bool) (a : Audio) (p : ptr) : Audio :=
  if decide (hrQueryVolume (session env p) = S_OK)
  then Release p (snd (SetMute p b (AddRef p a)))
  else a.

Definition SwitchMuteStates (oldProc newProc : DWORD) (g : Globals) (a : Audio)
  : Audio :=
  let a1 :=
    if decide (count oldProc (sessionsList g) ≠ 0%nat)
    then fold_left (setSessionMute true) (equal_range oldProc (sessionsList g)) a
    else a in
  if decide (count newProc (sessionsList g) ≠ 0%nat)
  then fold_left (setSessionMute false) (equal_range newProc (sessionsList g)) a1
  else a1.

(** A session the mute control works on: it hands out its
    [ISimpleAudioVolume] and [SetMute] answers [S_OK]. *)
Definition controllable (p : ptr) : Prop :=
  hrQueryVolume (session env p) = S_OK ∧ hrSetMute (session env p) = S_OK.

(** Every handle is registered under one process id only. *)
Definition single_owner (l : list (DWORD * ptr)) : Prop :=
  ∀ p q s, (p, s) ∈ l → (q, s) ∈ l → p = q.

(** ** The registry: AddAudioSession (EventHookProcessID.cpp) *)

(** [to_wstring(pid) + L"!" + sessionId + L"!" + sessionInstance]; wide
    strings are read as strings. *)
Definition to_wstring (n : DWORD) : string := pretty n.

Definition fullSessionId (s : Session) : string :=
  to_wstring (processId s) +:+ "!" +:+ sessionIdentifier s
    +:+ "!" +:+ sessionInstanceIdentifier s.

Definition RegisterAudioSessionNotification (p pAudioSessionEvents : ptr)
  (a : Audio) : HRESULT * Audio :=
  let hr := hrRegisterAudioSessionNotification (session env p) in
  (hr, if decide (hr = S_OK)
       then set_sessionEvents (<[p := true]> (sessionEvents a)) a else a).

Definition UnregisterAudioSessionNotification (p pAudioSessionEvents : ptr)
  (a : Audio) : Audio :=
  set_sessionEvents (<[p := false]> (sessionEvents a)) a.

Definition AddAudioSession (pSession pAudioSessionEvents : ptr)
  (g : Globals) (a : Audio) : HRESULT * Globals * Audio :=
  if decide (pSession = NULL) then (E_POINTER, g, a) else
  let s := session env pSession in
  if decide (hrGetDisplayName s ≠ S_OK) then (hrGetDisplayName s, g, a) else
  if decide (hrGetSessionIdentifier s ≠ S_OK)
  then (hrGetSessionIdentifier s, g, a) else
  if decide (hrGetSessionInstanceIdentifier s ≠ S_OK)
  then (hrGetSessionInstanceIdentifier s, g, a) else
  let hr := hrGetProcessId s in
  if decide (hr ≠ S_OK ∧ hr ≠ AUDCLNT_S_NO_SINGLE_PROCESS) then (hr, g, a) else
  let sessionProcessId := processId s in
  let wstrFullSessionId := fullSessionId s in
  if decide (wstrFullSessionId ∈ sessionIdSet g) then (S_OK, g, a) else
  let g1 := set_sessionIdSet ({[wstrFullSessionId]} ∪ sessionIdSet g) g in
  (* if(hr == AUDCLNT_S_NO_SINGLE_PROCESS) { printf(...); }  -- log only *)
  let '(hr, a1) :=
    RegisterAudioSessionNotification pSession pAudioSessionEvents a in
  if decide (hr ≠ S_OK ∧ hr ≠ E_POINTER) then (hr, g1, a1) else
  let a2 := AddRef pSession a1 in
  let g2 :=
    set_sessionsList (sessionsList g1 ++ [(sessionProcessId, pSession)]) g1 in
  (hr, g2, a2).

(** [CSessionNotifier::OnSessionCreated]. *)
Definition OnSessionCreated (pNewSession pAudioSessionEvents : ptr)
  (g : Globals) (a : Audio) : HRESULT * Globals * Audio :=
  if decide (pNewSession = NULL) then (E_POINTER, g, a) else
  let hr := hrQueryControl2 (session env pNewSession) in
  if decide (hr ≠ S_OK) then (hr, g, a) else
  let a := AddRef pNewSession a in
  let '(hr, g, a) := AddAudioSession pNewSession pAudioSessionEvents g a in
  (hr, g, Release pNewSession a).

(** ** The tracker thread: AudioThreadRoutine (EventHookProcessID.cpp) *)

(** The version of [GetIAudioSessionManager2] in this file. The argument
    is [None] for a null [ppSessionManager], else the pointer it points
    at; the result carries what is stored there afterwards. *)
Definition GetIAudioSessionManager2 (manager : ptr)
  (ppSessionManager : option ptr) : HRESULT * option ptr :=
  match ppSessionManager with
  | None => (E_POINTER, None)
  | Some p =>
    if decide (p ≠ NULL) then (E_UNEXPECTED, Some p) else
    if decide (hrCoCreateInstance env ≠ S_OK)
    then (hrCoCreateInstance env, Some p) else
    if decide (hrGetDefaultAudioEndpoint env ≠ S_OK)
    then (hrGetDefaultAudioEndpoint env, Some p) else
    (hrActivate env,
     Some (if decide (hrActivate env = S_OK) then manager else NULL))
  end.

Definition CoInitializeEx (a : Audio) : HRESULT * Audio :=
  let hr := hrCoInitializeEx env in
  (hr, if decide (hr = S_OK ∨ hr = S_FALSE)
       then set_comInitCount (comInitCount a + 1) a else a).

Definition CoUninitialize (a : Audio) : Audio :=
  set_comInitCount (comInitCount a - 1) a.

Definition RegisterSessionNotification (a : Audio) : HRESULT * Audio :=
  let hr := hrRegisterSessionNotification env in
  (hr, if decide (hr = S_OK) then set_sessionNotification true a else a).

Definition UnregisterSessionNotification (a : Audio) : Audio :=
  set_sessionNotification false a.

(** The clean-up loop
<<
    for(auto p : sessionsList)
    {
      p.second -> UnregisterAudioSessionNotification(pAudioEvents);
      p.second -> Release();
      p.second = NULL;            // assigns to the copy [p] only
    }
>>
    The map itself keeps its entries. *)
Definition releaseSessions (pAudioEvents : ptr) (l : list (DWORD * ptr))
  (a : Audio) : Audio :=
  fold_left
    (fun a p => Release (snd p)
                  (UnregisterAudioSessionNotification (snd p) pAudioEvents a))
    l a.

(** One iteration of the enumeration loop; [true] stands for [break]. *)
Definition enumerateSession (pAudioEvents : ptr) (i : Z)
  (g : Globals) (a : Audio) : bool * HRESULT * Globals * Audio :=
  let hr := hrGetSession env i in
  if decide (hr ≠ S_OK) then (true, hr, g, a) else
  let pCtrl := enumSession env i in
  let a := AddRef pCtrl a in
  let hr := hrQueryControl2 (session env pCtrl) in
  let a := if decide (hr = S_OK) then AddRef pCtrl a else a in
  let a := Release pCtrl a in
  if decide (hr ≠ S_OK) then (true, hr, g, a) else
  let '(hr, g, a) := AddAudioSession pCtrl pAudioEvents g a in
  let a := Release pCtrl a in
  if decide (hr ≠ S_OK ∧ hr ≠ AUDCLNT_S_NO_SINGLE_PROCESS)
  then (true, hr, g, a) else (false, hr, g, a).

(** [for(int i = 0; i < numSessions; i++)], started at index [i] with
    [n] iterations to go. *)
Fixpoint enumerateSessions (pAudioEvents : ptr) (n : nat) (i : Z)
  (hr : HRESULT) (g : Globals) (a : Audio) : HRESULT * Globals * Audio :=
  match n with
  | O => (hr, g, a)
  | S n' =>
    match enumerateSession pAudioEvents i g a with
    | (true, hr', g', a') => (hr', g', a')
    | (false, hr', g', a') => enumerateSessions pAudioEvents n' (i + 1) hr' g' a'
    end
  end.

(** The listener [CAudioSessionEvents] with its count [_cRef], a [LONG]. *)
Record CAudioSessionEvents := mkCAudioSessionEvents { _cRef : Z }.

(** The constructor: [_cRef(1)]. *)
Definition CAudioSessionEvents_new : CAudioSessionEvents :=
  mkCAudioSessionEvents 1.

(** A value as a [LONG] holds it, and a [LONG] read as a [ULONG]. *)
Definition LONG_of (z : Z) : Z := (z + 2 ^ 31) mod 2 ^ 32 - 2 ^ 31.
Definition ULONG_of (z : Z) : Z := z mod 2 ^ 32.

(** [CAudioSessionEvents::Release]
<<
    ULONG ulRef = InterlockedDecrement(&_cRef);
    if (0 == ulRef) { delete this; }
    return ulRef;
>>
    The last component says whether [delete this] was run. *)
Definition CAudioSessionEvents_Release (this : CAudioSessionEvents)
  : Z * CAudioSessionEvents * bool :=
  let c := LONG_of (_cRef this - 1) in
  let ulRef := ULONG_of c in
  (ulRef, mkCAudioSessionEvents c, bool_decide (0 = ulRef)).

(** How [AudioThreadRoutine] leaves: with [return code], or inside the
    [delete this] that [Release] runs on [audioSessionEvents]. That object
    is a local variable of the routine, so the [delete] has no defined
    behaviour and nothing is said about what comes after it. *)
Inductive RoutineEnd :=
| ReturnCode (code : DWORD)
| DeleteOfStackObject.

(** The unwinding at the exits with the codes 5, 6 and 7 and at the end of
    the routine
<<
    pMgr -> UnregisterSessionNotification(pCallback);
    pMgr -> Release();
    for(auto p : sessionsList) { ... }
    pAudioEvents -> Release();
    CoUninitialize();
    return code;
>>
    where [pAudioEvents] is the address of [audioSessionEvents]. The
    source makes no other call on that object. The references the audio
    service may hold on it for a registration are given back when the
    registration is undone, which the loop has done for every handle of
    the registry when [Release] is called. Reference counts of the manager
    and the enumerator are not kept. *)
Definition AudioThreadRoutine_cleanup (pAudioEvents : ptr)
  (audioSessionEvents : CAudioSessionEvents) (code : DWORD) (g : Globals)
  (a : Audio) : RoutineEnd * Audio :=
  let a := UnregisterSessionNotification a in
  let a := releaseSessions pAudioEvents (sessionsList g) a in
  let '(_, _, deleted) := CAudioSessionEvents_Release audioSessionEvents in
  if deleted then (DeleteOfStackObject, a)
  else (ReturnCode code, CoUninitialize a).

(** The routine up to [SetEvent(ghEvents[0])]: [inl e] when it left in the
    way [e] before getting there, [inr hr] when the tracker is ready. The
    listener is the local variable [CAudioSessionEvents audioSessionEvents]
    of the routine. *)
Definition AudioThreadRoutine_startup (manager pAudioEvents : ptr)
  (g : Globals) (a : Audio) : (RoutineEnd + HRESULT) * Globals * Audio :=
  let audioSessionEvents := CAudioSessionEvents_new in
  let '(hr, a) := CoInitializeEx a in
  if decide (hr ≠ S_OK) then
    (inl (ReturnCode 2%N), g,
     if decide (hr = S_FALSE) then CoUninitialize a else a)
  else
  let '(hr, pMgr) := GetIAudioSessionManager2 manager (Some NULL) in
  if decide (hr ≠ S_OK) then (inl (ReturnCode 3%N), g, CoUninitialize a) else
  let '(hr, a) := RegisterSessionNotification a in
  if decide (hr ≠ S_OK) then (inl (ReturnCode 4%N), g, CoUninitialize a) else
  let hr := hrGetSessionEnumerator env in
  if decide (hr ≠ S_OK) then
    let '(e, a) :=
      AudioThreadRoutine_cleanup pAudioEvents audioSessionEvents 5%N g a in
    (inl e, g, a)
  else
  let hr := hrGetCount env in
  if decide (hr ≠ S_OK) then
    let '(e, a) :=
      AudioThreadRoutine_cleanup pAudioEvents audioSessionEvents 6%N g a in
    (inl e, g, a)
  else
  let '(hr, g, a) :=
    enumerateSessions pAudioEvents (Z.to_nat (numSessions env)) 0 hr g a in
  if decide (hr ≠ S_OK ∧ hr ≠ AUDCLNT_S_NO_SINGLE_PROCESS) then
    let '(e, a) :=
      AudioThreadRoutine_cleanup pAudioEvents audioSessionEvents 7%N g a in
    (inl e, g, a)
  else (inr hr, g, a).

(** The consumer loop of the tracker thread
<<
    while(!eventQueue.empty())
    {
      processIds = eventQueue.front();
      SwitchMuteStates(processIds.first, processIds.second);
      eventQueue.pop();
    }
>>
    One iteration is [consumeEvent]; it also hands back the pair it
    applied. *)
Definition consumeEvent (g : Globals) (a : Audio)
  : option ((DWORD * DWORD) * Globals * Audio) :=
  match eventQueue g with
  | [] => None
  | processIds :: rest =>
    let a' := SwitchMuteStates (fst processIds) (snd processIds) g a in
    Some (processIds, set_eventQueue rest g, a')
  end.

(** The loop, with at most [n] iterations; the first component lists the
    transitions applied, in the order of application. *)
Fixpoint drainLoop (n : nat) (g : Globals) (a : Audio)
  : list (DWORD * DWORD) * Globals * Audio :=
  match n with
  | O => ([], g, a)
  | S n' =>
    match consumeEvent g a with
    | None => ([], g, a)
    | Some (e, g', a') =>
      let '(es, g'', a'') := drainLoop n' g' a' in (e :: es, g'', a'')
    end
  end.

(** One wake-up of the consumer: the queue holds finitely many events and
    every iteration pops one, so [length (eventQueue g)] iterations finish
    the loop. *)
Definition drainQueue (g : Globals) (a : Audio)
  : list (DWORD * DWORD) * Globals * Audio :=
  drainLoop (length (eventQueue g)) g a.

(** ** The enumerating transition: AutoMuteRoutine (EventHookProcessID_APC.cpp) *)

(** The body of the [for] loop for session [i]; [true] stands for [break],
    [false] for reaching the end of the body or [continue]. *)
Definition autoMuteSession (newProcId prevProcId : DWORD) (i : Z) (a : Audio)
  : bool * HRESULT * Audio :=
  let hr := hrGetSession env i in
  if decide (hr ≠ S_OK) then (true, hr, a) else
  let pCtrl := enumSession env i in
  let s := session env pCtrl in
  let a := AddRef pCtrl a in
  let hr := hrQueryControl2 s in
  let a := if decide (hr = S_OK) then AddRef pCtrl a else a in
  let a := Release pCtrl a in
  if decide (hr ≠ S_OK) then (true, hr, a) else
  let hr := hrIsSystemSoundsSession s in
  if decide (hr = S_OK) then (false, hr, Release pCtrl a) else
  if decide (hr ≠ S_FALSE) then (true, hr, Release pCtrl a) else
  let hr := hrGetProcessId s in
  if decide (hr = AUDCLNT_S_NO_SINGLE_PROCESS)
  then (false, S_OK, Release pCtrl a) else
  if decide (hr ≠ S_OK) then (true, hr, Release pCtrl a) else
  let procId := processId s in
  if decide (procId = newProcId) then
    let hr := hrQueryVolume s in
    let a := if decide (hr = S_OK) then AddRef pCtrl a else a in
    let a := Release pCtrl a in
    if decide (hr ≠ S_OK) then (true, hr, a) else
    let '(hr, a) := SetMute pCtrl false a in
    let a := Release pCtrl a in
    if decide (hr ≠ S_OK) then (true, hr, a) else (false, hr, a)
  else if decide (procId = prevProcId) then
    let hr := hrQueryVolume s in
    let a := if decide (hr = S_OK) then AddRef pCtrl a else a in
    let a := Release pCtrl a in
    if decide (hr ≠ S_OK) then (true, hr, a) else
    let '(hr, a) := SetMute pCtrl true a in
    let a := Release pCtrl a in
    if decide (hr ≠ S_OK) then (true, hr, a) else (false, hr, a)
  else (false, hr, Release pCtrl a).

(** [for(int i = 0; i < numSessions; i++)], started at index [i] with [n]
    iterations to go. *)
Fixpoint autoMuteLoop (newProcId prevProcId : DWORD) (n : nat) (i : Z)
  (hr : HRESULT) (a : Audio) : HRESULT * Audio :=
  match n with
  | O => (hr, a)
  | S n' =>
    match autoMuteSession newProcId prevProcId i a with
    | (true, hr', a') => (hr', a')
    | (false, hr', a') => autoMuteLoop newProcId prevProcId n' (i + 1) hr' a'
    end
  end.

Definition AutoMuteRoutine (pSessionMgr : ptr) (newProcId prevProcId : DWORD)
  (a : Audio) : HRESULT * Audio :=
  if decide (newProcId = 0%N ∨ prevProcId = 0%N) then (E_INVALIDARG, a) else
  if decide (newProcId = prevProcId) then (S_FALSE, a) else
  if decide (pSessionMgr = NULL) then (E_POINTER, a) else
  let hr := hrGetSessionEnumerator env in
  if decide (hr ≠ S_OK) then (hr, a) else
  let hr := hrGetCount env in
  if decide (hr ≠ S_OK) then (hr, a) else
  let '(hr, a) :=
    autoMuteLoop newProcId prevProcId (Z.to_nat (numSessions env)) 0 hr a in
  (if decide (hr = AUDCLNT_S_NO_SINGLE_PROCESS) then S_OK else hr, a).

End Program.

(** ** The focus hook: WinEventProc (EventHookProcessID.cpp) *)

(** One invocation of the hook: its arguments, and the process id that
    [GetWindowThreadProcessId(hwnd, &switchedProcessId)] writes. *)
Record WinEvent := mkWinEvent {
  event : DWORD;
  hwnd : ptr;
  idObject : Z;
  idChild : Z;
  switchedProcessId : DWORD
}.

(** The hook touches the globals only. [SetEvent(ghEvents[0])] wakes the
    consumer; what the consumer then does are the [Consume] steps of a run
    below. *)
Definition WinEventProc (c : WinEvent) (g : Globals) : Globals :=
  if decide (hwnd c ≠ NULL ∧ idObject c = OBJID_WINDOW ∧
             idChild c = CHILDID_SELF ∧ event c = EVENT_SYSTEM_FOREGROUND)
  then
    if decide (switchedProcessId c = oldProcessId g) then g else
    let processIds := (oldProcessId g, switchedProcessId c) in
    let g := set_eventQueue (eventQueue g ++ [processIds]) g in
    set_oldProcessId (switchedProcessId c) g
  else g.

(** A run of hook invocations, oldest first. *)
Definition runHook (cs : list WinEvent) (g : Globals) : Globals :=
  fold_left (fun g c => WinEventProc c g) cs g.

(** A foreground change to a window of process [pid]. *)
Definition foreground (pid : DWORD) : WinEvent :=
  mkWinEvent EVENT_SYSTEM_FOREGROUND 1%N OBJID_WINDOW CHILDID_SELF pid.

(** ** Producer and consumer together *)

(** The two threads interleave as a sequence of steps: the hook runs once,
    or the consumer performs one iteration of its loop. *)
Inductive Step :=
  | Hook (c : WinEvent)
  | Consume.

(** A run from [(g, a)]; the first component collects the transitions the
    consumer applied, oldest first. *)
Fixpoint runSteps (env : AudioEnv) (ss : list Step)
  (applied : list (DWORD * DWORD)) (g : Globals) (a : Audio)
  : list (DWORD * DWORD) * Globals * Audio :=
  match ss with
  | [] => (applied, g, a)
  | Hook c :: ss' => runSteps env ss' applied (WinEventProc c g) a
  | Consume :: ss' =>
    match consumeEvent env g a with
    | None => runSteps env ss' applied g a
    | Some (e, g', a') => runSteps env ss' (applied ++ [e]) g' a'
    end
  end.

(** The hook invocations of a run, in order. *)
Fixpoint hooksOf (ss : list Step) : list WinEvent :=
  match ss with
  | [] => []
  | Hook c :: ss' => c :: hooksOf ss'
  | Consume :: ss' => hooksOf ss'
  end.

(** Sequential composition of transitions. *)
Definition applyTransitions (env : AudioEnv) (es : list (DWORD * DWORD))
  (g : Globals) (a : Audio) : Audio :=
  fold_left (fun a e => SwitchMuteStates env (fst e) (snd e) g a) es a.

(** ** Predicates used in the statements *)

(** The handles the registry holds for process [P]. *)
Definition sessionsFor (P : DWORD) (g : Globals) : list ptr :=
  equal_range P (sessionsList g).

(** A session not attributable to one process: [GetProcessId] answers
    [AUDCLNT_S_NO_SINGLE_PROCESS]. *)
Definition crossProcess (env : AudioEnv) (p : ptr) : Prop :=
  hrGetProcessId (session env p) = AUDCLNT_S_NO_SINGLE_PROCESS.

(** The strings and the process id of a session can be read. *)
Definition identifiable (env : AudioEnv) (p : ptr) : Prop :=
  p ≠ NULL ∧
  hrGetDisplayName (session env p) = S_OK ∧
  hrGetSessionIdentifier (session env p) = S_OK ∧
  hrGetSessionInstanceIdentifier (session env p) = S_OK ∧
  (hrGetProcessId (session env p) = S_OK ∨
   hrGetProcessId (session env p) = AUDCLNT_S_NO_SINGLE_PROCESS).

(** Consecutive events chain: each starts where the previous one ended,
    the first one at [prev]. *)
Fixpoint chained (prev : DWORD) (es : list (DWORD * DWORD)) : Prop :=
  match es with
  | [] => True
  | e :: es' => fst e = prev ∧ chained (snd e) es'
  end.

(** What the data model asks of a focus event. *)
Definition nonzero_distinct (e : DWORD * DWORD) : Prop :=
  fst e ≠ 0%N ∧ snd e ≠ 0%N ∧ fst e ≠ snd e.

(** How often handle [h] occurs in the registry. *)
Definition occurrences (h : ptr) (l : list (DWORD * ptr)) : Z :=
  Z.of_nat (length (filter (fun e => snd e = h) l)).

(** What a call leaves alone, and how it keeps the reference counts in
    step with the registry: a reference is taken exactly when an entry is
    inserted. *)
Definition balanced (g : Globals) (a : Audio) (g' : Globals) (a' : Audio)
  : Prop :=
  sessionNotification a' = sessionNotification a ∧
  comInitCount a' = comInitCount a ∧
  ∀ h, refCount a' h - occurrences h (sessionsList g')
       = refCount a h - occurrences h (sessionsList g).

(** The entries of the registry whose session has identity [id]. *)
Definition handlesWithIdentity (env : AudioEnv) (id : string) (g : Globals)
  : list (DWORD * ptr) :=
  filter (fun e => fullSessionId (session env (snd e)) = id) (sessionsList g).

(** The invariant of the data model: an identity is in the identity set
    if and only if exactly one handle with that identity is in the
    mapping. *)
Definition registry_invariant (env : AudioEnv) (g : Globals) : Prop :=
  ∀ id, id ∈ sessionIdSet g ↔ length (handlesWithIdentity env id g) = 1%nat.

(** The form of it that registrations maintain: one handle for an identity
    of the set, none for any other. *)
Definition registry_exact (env : AudioEnv) (g : Globals) : Prop :=
  ∀ id, length (handlesWithIdentity env id g)
        = if decide (id ∈ sessionIdSet g) then 1%nat else 0%nat.

(** The start-up steps of the tracker and the code each one reports. *)
Inductive StartupStep :=
  | ComInitialization
  | ManagerAcquisition
  | NotificationRegistration
  | EnumeratorAcquisition
  | SessionCount
  | EnumerationLoop.

Definition failureCode (s : StartupStep) : DWORD :=
  match s with
  | ComInitialization => 2
  | ManagerAcquisition => 3
  | NotificationRegistration => 4
  | EnumeratorAcquisition => 5
  | SessionCount => 6
  | EnumerationLoop => 7
  end%N.

(** The three calls of [GetIAudioSessionManager2] answer [S_OK]. *)
Definition managerAnswers (env : AudioEnv) : Prop :=
  hrCoCreateInstance env = S_OK ∧ hrGetDefaultAudioEndpoint env = S_OK ∧
  hrActivate env = S_OK.

(** One of them answers a failure code after the ones before it answered
    [S_OK]. *)
Definition managerFails (env : AudioEnv) : Prop :=
  FAILED (hrCoCreateInstance env) = true ∨
  (hrCoCreateInstance env = S_OK ∧
   (FAILED (hrGetDefaultAudioEndpoint env) = true ∨
    (hrGetDefaultAudioEndpoint env = S_OK ∧
     FAILED (hrActivate env) = true))).

(** The identity of session [i] of the enumerator. *)
Definition sessionIdOf (env : AudioEnv) (i : Z) : string :=
  fullSessionId (session env (enumSession env i)).

(** Every call the enumeration loop makes for session [i] answers with a
    code the loop goes on from. *)
Definition sessionPasses (env : AudioEnv) (i : Z) : Prop :=
  let p := enumSession env i in
  let s := session env p in
  hrGetSession env i = S_OK ∧ hrQueryControl2 s = S_OK ∧
  identifiable env p ∧
  (hrRegisterAudioSessionNotification s = S_OK ∨
   hrRegisterAudioSessionNotification s = AUDCLNT_S_NO_SINGLE_PROCESS).

(** For session [i], one of the calls up to [GetProcessId] answers a
    failure code after the ones before it answered [S_OK]. *)
Definition callFails (env : AudioEnv) (i : Z) : Prop :=
  let p := enumSession env i in
  let s := session env p in
  FAILED (hrGetSession env i) = true ∨
  (hrGetSession env i = S_OK ∧
   (FAILED (hrQueryControl2 s) = true ∨
    (hrQueryControl2 s = S_OK ∧ p ≠ NULL ∧
     (FAILED (hrGetDisplayName s) = true ∨
      (hrGetDisplayName s = S_OK ∧
       (FAILED (hrGetSessionIdentifier s) = true ∨
        (hrGetSessionIdentifier s = S_OK ∧
         (FAILED (hrGetSessionInstanceIdentifier s) = true ∨
          (hrGetSessionInstanceIdentifier s = S_OK ∧
           FAILED (hrGetProcessId s) = true))))))))).

(** For session [i], the calls up to [GetProcessId] answer and
    [RegisterAudioSessionNotification] answers a failure code. *)
Definition registrationFails (env : AudioEnv) (i : Z) : Prop :=
  let p := enumSession env i in
  let s := session env p in
  hrGetSession env i = S_OK ∧ hrQueryControl2 s = S_OK ∧
  identifiable env p ∧
  FAILED (hrRegisterAudioSessionNotification s) = true.

#[global] Instance identifiable_dec env p : Decision (identifiable env p).
Proof. unfold identifiable. apply _. Defined.

#[global] Instance sessionPasses_dec env i : Decision (sessionPasses env i).
Proof. unfold sessionPasses. apply _. Defined.

#[global] Instance registrationFails_dec env i :
  Decision (registrationFails env i).
Proof. unfold registrationFails. apply _. Defined.

(** Step [s] is the first one with a failing call, read off the answers of
    the calls: the calls of the steps before it answered [S_OK], and a
    call of step [s] answered a failure code. In the enumeration loop the
    failing call is one made for some session [i] after the loop has gone
    through the sessions before it; the registration is called only for a
    session whose identity is new, so a failing registration counts when
    the identity of session [i] is neither in the identity set at the
    start nor that of a session before it. *)
Definition startupFailsAt (env : AudioEnv) (g : Globals) (s : StartupStep)
  : Prop :=
  match s with
  | ComInitialization => FAILED (hrCoInitializeEx env) = true
  | ManagerAcquisition =>
    hrCoInitializeEx env = S_OK ∧ managerFails env
  | NotificationRegistration =>
    hrCoInitializeEx env = S_OK ∧ managerAnswers env ∧
    FAILED (hrRegisterSessionNotification env) = true
  | EnumeratorAcquisition =>
    hrCoInitializeEx env = S_OK ∧ managerAnswers env ∧
    hrRegisterSessionNotification env = S_OK ∧
    FAILED (hrGetSessionEnumerator env) = true
  | SessionCount =>
    hrCoInitializeEx env = S_OK ∧ managerAnswers env ∧
    hrRegisterSessionNotification env = S_OK ∧
    hrGetSessionEnumerator env = S_OK ∧ FAILED (hrGetCount env) = true
  | EnumerationLoop =>
    hrCoInitializeEx env = S_OK ∧ managerAnswers env ∧
    hrRegisterSessionNotification env = S_OK ∧
    hrGetSessionEnumerator env = S_OK ∧ hrGetCount env = S_OK ∧
    ∃ i, 0 ≤ i < numSessions env ∧
         (∀ j, 0 ≤ j < i → sessionPasses env j) ∧
         (callFails env i ∨
          (registrationFails env i ∧
           (sessionIdOf env i ∉ sessionIdSet g) ∧
           ∀ j, 0 ≤ j < i → sessionIdOf env j ≠ sessionIdOf env i))
  end.

(** ** A concrete audio subsystem, for running the program

    Nine session objects. Sessions 1-5 belong to process 10, of which
    session 2 refuses [SetMute]; session 6 belongs to process 20 and
    session 7 to process 30; session 8 is a cross-process session for which
    [GetProcessId] writes 42; session 9, of process 50, refuses
    [RegisterAudioSessionNotification]. The enumerator lists the first
    [n] of them in this order. *)
Definition demoProcess (p : ptr) : DWORD :=
  match p with
  | 1 | 2 | 3 | 4 | 5 => 10
  | 6 => 20
  | 7 => 30
  | 8 => 42
  | 9 => 50
  | _ => 0
  end%N.

Definition demoSession (p : ptr) : Session :=
  mkSession S_OK S_OK S_OK "player" S_OK ("instance" +:+ pretty p)
    (if decide (p = 8%N) then AUDCLNT_S_NO_SINGLE_PROCESS else S_OK)
    (demoProcess p)
    S_FALSE
    (if decide (p = 9%N) then E_FAIL else S_OK)
    S_OK
    (if decide (p = 2%N) then E_FAIL else S_OK).

Definition demoEnv (n : Z) : AudioEnv :=
  mkAudioEnv demoSession S_OK S_OK S_OK S_OK S_OK S_OK S_OK n
    (fun _ => S_OK) (fun i => Z.to_N (i + 1)).

(** The same subsystem with a session manager that does not hand out
    its enumerator. *)
Definition demoEnvNoEnumerator : AudioEnv :=
  mkAudioEnv demoSession S_OK S_OK S_OK S_OK S_OK E_FAIL S_OK 8
    (fun _ => S_OK) (fun i => Z.to_N (i + 1)).

(** Nothing muted, one reference held on every object by its creator. *)
Definition demoAudio : Audio :=
  mkAudio (fun _ => false) (fun _ => 1) (fun _ => false) false 0 [].

(** Everything muted. *)
Definition mutedAudio : Audio :=
  mkAudio (fun _ => true) (fun _ => 1) (fun _ => false) false 0 [].

(** A registry holding sessions 1 and 3 of process 10, session 6 of process
    20 and session 7 of process 30. *)
Definition demoGlobals : Globals :=
  mkGlobals 0%N [(10, 1); (10, 3); (20, 6); (30, 7)]%N ∅ [].

(** The same registry with session 2, which refuses [SetMute], and
    sessions 4 and 5 as well: five sessions of process 10. *)
Definition fiveGlobals : Globals :=
  mkGlobals 0%N [(10, 1); (10, 2); (10, 3); (10, 4); (10, 5); (20, 6)]%N ∅ [].

(** The address of the listener object handed to the registrations. *)
Definition demoEvents : ptr := 100%N.

(** The address of the session manager. *)
Definition demoManager : ptr := 200%N.

(** ** The whole tracker thread (EventHookProcessID.cpp) *)

(** The cast [(DWORD) hr]. *)
Definition DWORD_of_HRESULT (hr : HRESULT) : DWORD := Z.to_N (hr mod 2 ^ 32).

(** The wait loop
<<
    while(!WaitForMultipleObjects(2, ghEvents, false, INFINITE))
    {
      while(!eventQueue.empty()) { ... }
    }
>>
    Each element of [ws] is one return of the wait: the hook invocations
    that ran on the main thread before it, and the value returned. [None]
    stands for a thread still blocked in the wait when [ws] is used up. *)
Fixpoint waitLoop (env : AudioEnv) (ws : list (list WinEvent * DWORD))
  (g : Globals) (a : Audio) : option (Globals * Audio) :=
  match ws with
  | [] => None
  | (cs, w) :: ws' =>
    let g := runHook cs g in
    if decide (w = 0%N)
    then let '(_, g, a) := drainQueue env g a in waitLoop env ws' g a
    else Some (g, a)
  end.

(** [AudioThreadRoutine]: the way it leaves with the final state, or
    [None] while the thread is still waiting. The rendezvous with the main
    thread ([SetEvent], [EnterSynchronizationBarrier]) changes nothing
    here. The start-up that gets ready and the wait loop make no call on
    [audioSessionEvents], so at the end of the routine that object is as
    its constructor left it. *)
Definition AudioThreadRoutine (env : AudioEnv) (manager pAudioEvents : ptr)
  (ws : list (list WinEvent * DWORD)) (g : Globals) (a : Audio)
  : option (RoutineEnd * Globals * Audio) :=
  let audioSessionEvents := CAudioSessionEvents_new in
  match AudioThreadRoutine_startup env manager pAudioEvents g a with
  | (inl e, g, a) => Some (e, g, a)
  | (inr hr, g, a) =>
    match waitLoop env ws g a with
    | None => None
    | Some (g, a) =>
      let '(e, a) :=
        AudioThreadRoutine_cleanup pAudioEvents audioSessionEvents
          (DWORD_of_HRESULT hr) g a in
      Some (e, g, a)
    end
  end.

(** ** The APC thread (EventHookProcessID_APC.cpp) *)

(** The globals of the APC variant. *)
Record APCGlobals := mkAPCGlobals {
  gPrevProcessId : DWORD;
  gpSessionMgr : ptr;
  gbEndProgram : bool
}.

(** How the thread ends: the thread routine returns, a routine running on
    it calls [ExitThread], or a method is called through a null
    [gpSessionMgr]. *)
Inductive ThreadEnd :=
| Returned (code : DWORD)
| ExitThread (code : DWORD)
| NullCall.

Module APC.

(** The version of [GetIAudioSessionManager2] in this file: an interface
    found behind [ppSessionManager] is released and replaced. The argument
    is [None] for a null [ppSessionManager], else the pointer it points
    at; the result carries what is stored there afterwards. [Activate]
    hands out the manager with one reference on it. *)
Definition GetIAudioSessionManager2 (env : AudioEnv) (manager : ptr)
  (ppSessionManager : option ptr) (a : Audio)
  : HRESULT * option ptr * Audio :=
  match ppSessionManager with
  | None => (E_POINTER, None, a)
  | Some p =>
    let a := if decide (p ≠ NULL) then Release p a else a in
    if decide (hrCoCreateInstance env ≠ S_OK)
    then (hrCoCreateInstance env, Some NULL, a) else
    if decide (hrGetDefaultAudioEndpoint env ≠ S_OK)
    then (hrGetDefaultAudioEndpoint env, Some NULL, a) else
    let hr := hrActivate env in
    if decide (hr = S_OK) then (hr, Some manager, AddRef manager a)
    else (hr, Some NULL, a)
  end.

End APC.

(** [APCAutoMuteRoutine]; [newProcId] is the value read through [pData].
    [None] in the first component stands for a plain return. *)
Definition APCAutoMuteRoutine (env : AudioEnv) (newProcId : DWORD)
  (st : APCGlobals) (a : Audio) : option ThreadEnd * APCGlobals * Audio :=
  if decide (newProcId = gPrevProcessId st) then (None, st, a) else
  let prevProcId := gPrevProcessId st in
  let st := mkAPCGlobals newProcId (gpSessionMgr st) (gbEndProgram st) in
  let '(hr, a) := AutoMuteRoutine env (gpSessionMgr st) newProcId prevProcId a in
  if decide (hr ≠ S_OK) then
    let st := mkAPCGlobals newProcId (gpSessionMgr st) true in
    if decide (gpSessionMgr st = NULL) then (Some NullCall, st, a) else
    (Some (ExitThread (DWORD_of_HRESULT hr)), st,
     CoUninitialize (Release (gpSessionMgr st) a))
  else (None, st, a).

(** [APCThreadExit]; [pExitCode] is [None] for a null pointer, else the
    value behind it. *)
Definition APCThreadExit (pExitCode : option DWORD) (st : APCGlobals)
  (a : Audio) : option ThreadEnd * APCGlobals * Audio :=
  let exitCode := match pExitCode with Some c => c | None => 0%N end in
  if decide (gpSessionMgr st = NULL) then (Some NullCall, st, a) else
  (Some (ExitThread exitCode),
   mkAPCGlobals (gPrevProcessId st) NULL (gbEndProgram st),
   CoUninitialize (Release (gpSessionMgr st) a)).

(** A call queued to the thread with [QueueUserAPC]. *)
Inductive APCCall :=
| CallAutoMute (newProcId : DWORD)
| CallThreadExit (pExitCode : option DWORD).

Definition runAPC (env : AudioEnv) (c : APCCall) (st : APCGlobals)
  (a : Audio) : option ThreadEnd * APCGlobals * Audio :=
  match c with
  | CallAutoMute newProcId => APCAutoMuteRoutine env newProcId st a
  | CallThreadExit pExitCode => APCThreadExit pExitCode st a
  end.

(** The calls delivered to the thread, oldest first, until one of them
    ends the thread. *)
Fixpoint runAPCs (env : AudioEnv) (cs : list APCCall) (st : APCGlobals)
  (a : Audio) : option ThreadEnd * APCGlobals * Audio :=
  match cs with
  | [] => (None, st, a)
  | c :: cs' =>
    match runAPC env c st a with
    | (Some e, st', a') => (Some e, st', a')
    | (None, st', a') => runAPCs env cs' st' a'
    end
  end.

(** [APCThreadRoutine] up to the wait loop: [Some code] when it returned
    [code] before getting there.
<<
    if(hr != S_OK)
    {
      if(hr = S_FALSE) { CoUninitialize(); hr = E_FAIL; }
      return (DWORD) hr;
    }
>>
    The inner test is an assignment of [S_FALSE], which is not zero, so
    its branch is always taken. *)
Definition APCThreadRoutine_startup (env : AudioEnv) (manager : ptr)
  (st : APCGlobals) (a : Audio) : option DWORD * APCGlobals * Audio :=
  let '(hr, a) := CoInitializeEx env a in
  if decide (hr ≠ S_OK) then
    let hr := S_FALSE in
    if decide (hr ≠ 0) then (Some (DWORD_of_HRESULT E_FAIL), st, CoUninitialize a)
    else (Some (DWORD_of_HRESULT hr), st, a)
  else
  let '(hr, pp, a) :=
    APC.GetIAudioSessionManager2 env manager (Some (gpSessionMgr st)) a in
  let st :=
    mkAPCGlobals (gPrevProcessId st) (default (gpSessionMgr st) pp)
      (gbEndProgram st) in
  if decide (hr ≠ S_OK) then (Some (DWORD_of_HRESULT hr), st, a)
  else (None, st, a).

(** The wait loop [while(!gbEndProgram) { SleepEx(10000, true); }]. Each
    element of [sleeps] is one [SleepEx]: the calls delivered during it,
    and whether the hook set [gbEndProgram] meanwhile. The outer [None]
    says the thread is still in the loop when [sleeps] runs out; the inner
    one that the loop was left. *)
Fixpoint sleepLoop (env : AudioEnv) (sleeps : list (list APCCall * bool))
  (st : APCGlobals) (a : Audio)
  : option (option ThreadEnd * APCGlobals * Audio) :=
  match sleeps with
  | [] => if gbEndProgram st then Some (None, st, a) else None
  | (cs, flag) :: sleeps' =>
    if gbEndProgram st then Some (None, st, a) else
    match runAPCs env cs st a with
    | (Some e, st', a') => Some (Some e, st', a')
    | (None, st', a') =>
      sleepLoop env sleeps'
        (mkAPCGlobals (gPrevProcessId st') (gpSessionMgr st')
           (gbEndProgram st' || flag))
        a'
    end
  end.

(** The whole of [APCThreadRoutine]. *)
Definition APCThreadRoutine (env : AudioEnv) (manager : ptr)
  (sleeps : list (list APCCall * bool)) (st : APCGlobals) (a : Audio)
  : option (ThreadEnd * APCGlobals * Audio) :=
  match APCThreadRoutine_startup env manager st a with
  | (Some code, st, a) => Some (Returned code, st, a)
  | (None, st, a) =>
    match sleepLoop env sleeps st a with
    | None => None
    | Some (Some e, st, a) => Some (e, st, a)
    | Some (None, st, a) =>
      if decide (gpSessionMgr st = NULL) then Some (NullCall, st, a) else
      Some (Returned (if gbEndProgram st then 1%N else 0%N),
            mkAPCGlobals (gPrevProcessId st) NULL (gbEndProgram st),
            CoUninitialize (Release (gpSessionMgr st) a))
    end
  end.

(** ** More predicates *)

(** The test at the head of [WinEventProc]. *)
Definition accepted (c : WinEvent) : Prop :=
  hwnd c ≠ NULL ∧ idObject c = OBJID_WINDOW ∧
  idChild c = CHILDID_SELF ∧ event c = EVENT_SYSTEM_FOREGROUND.

#[global] Instance accepted_dec (c : WinEvent) : Decision (accepted c).
Proof. unfold accepted. apply _. Defined.

(** Process [Q] is the old or the new process of one of the events. *)
Definition involved (Q : DWORD) (es : list (DWORD * DWORD)) : Prop :=
  ∃ e, e ∈ es ∧ (Q = fst e ∨ Q = snd e).

(** From [(g, a)] to [(g', a')] the registry was only extended, and
    neither the queue, the remembered process id nor a mute state was
    touched. *)
Definition grows (g : Globals) (a : Audio) (g' : Globals) (a' : Audio)
  : Prop :=
  sessionsList g `prefix_of` sessionsList g' ∧
  sessionIdSet g ⊆ sessionIdSet g' ∧
  eventQueue g' = eventQueue g ∧
  oldProcessId g' = oldProcessId g ∧
  muted a' = muted a ∧
  muteCalls a' = muteCalls a.

(** What [AutoMuteRoutine] does to session [p] when it meets it: [None]
    for a system-sounds session, a session whose process id cannot be
    read as that of a single process, and a session of a third process. *)
Definition targetMute (env : AudioEnv) (newProcId prevProcId : DWORD) (p : ptr)
  : option bool :=
  let s := session env p in
  if decide (hrIsSystemSoundsSession s = S_FALSE ∧ hrGetProcessId s = S_OK)
  then
    if decide (processId s = newProcId) then Some false
    else if decide (processId s = prevProcId) then Some true
    else None
  else None.

(** State [a'] is state [a] with [k] more references held on [p] and
    nothing else changed but mute states and the record of mute calls. *)
Definition holding (p : ptr) (k : Z) (a a' : Audio) : Prop :=
  (∀ h, refCount a' h = refCount a h + (if decide (p = h) then k else 0)) ∧
  sessionEvents a' = sessionEvents a ∧
  sessionNotification a' = sessionNotification a ∧
  comInitCount a' = comInitCount a.

(** Session [i] of the enumerator answers every call [AutoMuteRoutine]
    makes on it with a code the routine goes on from. *)
Definition enumerable (env : AudioEnv) (newProcId prevProcId : DWORD) (i : Z)
  : Prop :=
  let s := session env (enumSession env i) in
  hrGetSession env i = S_OK ∧
  hrQueryControl2 s = S_OK ∧
  (hrIsSystemSoundsSession s = S_OK ∨
   (hrIsSystemSoundsSession s = S_FALSE ∧
    (hrGetProcessId s = AUDCLNT_S_NO_SINGLE_PROCESS ∨
     (hrGetProcessId s = S_OK ∧
      (processId s = newProcId ∨ processId s = prevProcId →
       controllable env (enumSession env i)))))).

(** What one call of a queued routine leaves behind, by the way it ends. *)
Definition apc_effect (st : APCGlobals) (a : Audio)
  (r : option ThreadEnd * APCGlobals * Audio) : Prop :=
  match r with
  | (None, st', a') =>
    gpSessionMgr st' = gpSessionMgr st ∧
    gbEndProgram st' = gbEndProgram st ∧
    (∀ h, refCount a' h = refCount a h) ∧
    comInitCount a' = comInitCount a
  | (Some (ExitThread code), st', a') =>
    (∀ h, refCount a' h
          = refCount a h - (if decide (gpSessionMgr st = h) then 1 else 0)) ∧
    comInitCount a' = comInitCount a - 1 ∧
    (gbEndProgram st' = true ∨ gpSessionMgr st' = NULL)
  | (Some _, _, _) => False
  end.

(** The code [GetIAudioSessionManager2] ends with once it has got as far
    as [CoCreateInstance]: that of the first of its three calls that does
    not answer [S_OK]. *)
Definition managerCode (env : AudioEnv) : HRESULT :=
  if decide (hrCoCreateInstance env ≠ S_OK) then hrCoCreateInstance env
  else if decide (hrGetDefaultAudioEndpoint env ≠ S_OK)
       then hrGetDefaultAudioEndpoint env
       else hrActivate env.

#[global] Instance enumerable_dec env newProcId prevProcId i :
  Decision (enumerable env newProcId prevProcId i).
Proof. unfold enumerable, controllable. apply _. Defined.

(** * Properties *)

(** Decisions on result codes that are known. *)
Ltac known_codes :=
  repeat first
    [ rewrite (decide_False (P := S_OK ≠ S_OK)) by (intros H; by apply H)
    | rewrite (decide_True (P := S_OK = S_OK ∨ _)) by (by left)
    | rewrite (decide_True (P := S_OK = S_OK)) by done ].


(** ** Reading the audio state through the COM bookkeeping *)

Lemma muted_AddRef p a : muted (AddRef p a) = muted a.
Proof. reflexivity. Qed.

Lemma muted_Release p a : muted (Release p a) = muted a.
Proof. reflexivity. Qed.

Lemma refCount_AddRef p a h :
  refCount (AddRef p a) h = refCount a h + (if decide (p = h) then 1 else 0).
Proof.
  unfold AddRef; simpl. unfold insert, fn_insert.
  destruct (decide (p = h)); subst; lia.
Qed.

Lemma refCount_Release p a h :
  refCount (Release p a) h = refCount a h - (if decide (p = h) then 1 else 0).
Proof.
  unfold Release; simpl. unfold insert, fn_insert.
  destruct (decide (p = h)); subst; lia.
Qed.

Lemma elem_of_equal_range k s (l : list (DWORD * ptr)) :
  s ∈ equal_range k l ↔ (k, s) ∈ l.
Proof.
  unfold equal_range. rewrite list_elem_of_fmap. split.
  - intros [[k' s'] [-> Hin]]. apply list_elem_of_filter in Hin as [Hk Hin].
    simpl in Hk. by subst.
  - intros Hin. exists (k, s). split; [done|].
    apply list_elem_of_filter. by split.
Qed.

Section Transition.

Variable env : AudioEnv.

(** ** SwitchMuteStates *)

Lemma setSessionMute_other b a p q :
  q ≠ p → muted (setSessionMute env b a p) q = muted a q.
Proof.
  intros Hne. unfold setSessionMute, SetMute.
  destruct (decide (hrQueryVolume (session env p) = S_OK)); [|done].
  simpl. destruct (decide (hrSetMute (session env p) = S_OK)); simpl; [|done].
  by apply fn_lookup_insert_ne.
Qed.

Lemma setSessionMute_same b a p :
  controllable env p → muted (setSessionMute env b a p) p = b.
Proof.
  intros [Hq Hs]. unfold setSessionMute, SetMute.
  rewrite decide_True by done. simpl. rewrite decide_True by done. simpl.
  apply fn_lookup_insert.
Qed.

Lemma setSessionMute_calls b a p :
  muteCalls (setSessionMute env b a p) =
  muteCalls a ++
    (if decide (hrQueryVolume (session env p) = S_OK) then [(p, b)] else []).
Proof.
  unfold setSessionMute, SetMute.
  destruct (decide (hrQueryVolume (session env p) = S_OK)); simpl.
  - by destruct (decide (hrSetMute (session env p) = S_OK)).
  - by rewrite app_nil_r.
Qed.

(** A whole loop leaves every session outside its range alone. *)
Lemma setAll_other b ps : ∀ a q,
  q ∉ ps → muted (fold_left (setSessionMute env b) ps a) q = muted a q.
Proof.
  induction ps as [|p ps IH]; intros a q Hq; simpl; [done|].
  apply not_elem_of_cons in Hq as [Hne Hq].
  rewrite IH by done. by apply setSessionMute_other.
Qed.

(** A whole loop sets every session of its range that accepts the call,
    whatever the other sessions of the range answer. *)
Lemma setAll_member b ps : ∀ a q,
  q ∈ ps → controllable env q →
  muted (fold_left (setSessionMute env b) ps a) q = b.
Proof.
  induction ps as [|p ps IH]; intros a q Hq Hc; simpl.
  - by apply elem_of_nil in Hq.
  - destruct (decide (q ∈ ps)) as [Hin|Hnin].
    + by apply IH.
    + apply elem_of_cons in Hq as [->|Hq]; [|done].
      rewrite setAll_other by done. by apply setSessionMute_same.
Qed.

Lemma setAll_calls b ps : ∀ a,
  muteCalls (fold_left (setSessionMute env b) ps a) =
  muteCalls a ++
    ((fun p => (p, b)) <$>
       filter (fun p => hrQueryVolume (session env p) = S_OK) ps).
Proof.
  induction ps as [|p ps IH]; intros a; simpl.
  - by rewrite app_nil_r.
  - rewrite IH, setSessionMute_calls, filter_cons.
    destruct (decide (hrQueryVolume (session env p) = S_OK)); simpl.
    + by rewrite <- app_assoc.
    + by rewrite app_nil_r.
Qed.

(** The two [count] tests only skip empty loops. *)
Lemma SwitchMuteStates_loops oldProc newProc g a :
  SwitchMuteStates env oldProc newProc g a =
  fold_left (setSessionMute env false) (sessionsFor newProc g)
    (fold_left (setSessionMute env true) (sessionsFor oldProc g) a).
Proof.
  unfold SwitchMuteStates, sessionsFor, count.
  assert (Hnil : ∀ (l : list ptr) (f : Audio → ptr → Audio) x,
             (if decide (length l ≠ 0%nat) then fold_left f l x else x)
             = fold_left f l x).
  { intros l f x. destruct l as [|y l]; [done|].
    destruct (decide (length (y :: l) ≠ 0%nat)) as [_|Hz]; [done|].
    by destruct Hz. }
  by rewrite !Hnil.
Qed.

(** Only sessions registered under one of the two ids can change. *)
Lemma SwitchMuteStates_frame oldProc newProc g a s :
  s ∉ sessionsFor oldProc g → s ∉ sessionsFor newProc g →
  muted (SwitchMuteStates env oldProc newProc g a) s = muted a s.
Proof.
  intros Ho Hn. rewrite SwitchMuteStates_loops.
  by rewrite !setAll_other.
Qed.

(** A session of the new process that accepts the call ends unmuted. *)
Lemma SwitchMuteStates_new oldProc newProc g a s :
  s ∈ sessionsFor newProc g → controllable env s →
  muted (SwitchMuteStates env oldProc newProc g a) s = false.
Proof.
  intros Hin Hc. rewrite SwitchMuteStates_loops. by apply setAll_member.
Qed.

(** A session of the old process only that accepts the call ends muted. *)
Lemma SwitchMuteStates_old oldProc newProc g a s :
  s ∈ sessionsFor oldProc g → s ∉ sessionsFor newProc g →
  controllable env s →
  muted (SwitchMuteStates env oldProc newProc g a) s = true.
Proof.
  intros Hin Hnin Hc. rewrite SwitchMuteStates_loops.
  rewrite setAll_other by done. by apply setAll_member.
Qed.

Lemma single_owner_apart g P Q s :
  single_owner (sessionsList g) → P ≠ Q →
  s ∈ sessionsFor P g → s ∉ sessionsFor Q g.
Proof.
  unfold sessionsFor. intros Hso Hne HP HQ.
  apply elem_of_equal_range in HP, HQ. by apply Hne, (Hso P Q s).
Qed.

(** C1. For a registry in which every handle has one owner, and distinct
    process ids A and B whose sessions accept the mute calls,
    SwitchMuteStates(A,B) leaves every session of A muted and every
    session of B unmuted, makes no unmute call when B owns no session
    (the only calls are the mute calls on A's sessions), and leaves the
    mute state of the sessions of every other process as it was. *)
Theorem SwitchMuteStates_transition (g : Globals) (a : Audio) (A B : DWORD) :
  A ≠ B →
  single_owner (sessionsList g) →
  (∀ s, s ∈ sessionsFor A g ∨ s ∈ sessionsFor B g → controllable env s) →
  let a' := SwitchMuteStates env A B g a in
  (∀ s, s ∈ sessionsFor A g → muted a' s = true) ∧
  (∀ t, t ∈ sessionsFor B g → muted a' t = false) ∧
  (sessionsFor B g = [] →
   muteCalls a' = muteCalls a ++ ((fun s => (s, true)) <$> sessionsFor A g)) ∧
  (∀ P u, P ≠ A → P ≠ B → u ∈ sessionsFor P g → muted a' u = muted a u).
Proof.
  intros Hne Hso Hc a'. subst a'. repeat split.
  - intros s Hs. apply SwitchMuteStates_old; auto.
    by apply (single_owner_apart g A B).
  - intros t Ht. apply SwitchMuteStates_new; auto.
  - intros HB. rewrite SwitchMuteStates_loops, HB. simpl.
    rewrite setAll_calls. f_equal. f_equal.
    induction (sessionsFor A g) as [|s l IH]; [done|].
    rewrite filter_cons_True.
    + f_equal. apply IH. intros s' [Hs'|Hs']; apply Hc; [left|right; done].
      by apply elem_of_cons; right.
    + apply Hc. left. by apply elem_of_cons; left.
  - intros P u HPA HPB Hu. apply SwitchMuteStates_frame.
    + by apply (single_owner_apart g P A).
    + by apply (single_owner_apart g P B).
Qed.

End Transition.

(** Handles that occur once in the registry have one owner. *)
Lemma NoDup_single_owner (l : list (DWORD * ptr)) :
  NoDup (snd <$> l) → single_owner l.
Proof.
  induction l as [|[k h] l IH]; intros Hnd p q s Hp Hq.
  - by apply elem_of_nil in Hp.
  - simpl in Hnd. apply NoDup_cons in Hnd as [Hh Hnd].
    apply elem_of_cons in Hp as [Hp|Hp]; apply elem_of_cons in Hq as [Hq|Hq].
    + congruence.
    + inversion Hp; subst. destruct Hh.
      apply list_elem_of_fmap. by exists (q, h).
    + inversion Hq; subst. destruct Hh.
      apply list_elem_of_fmap. by exists (p, h).
    + by apply (IH Hnd p q s).
Qed.

Lemma demoGlobals_single_owner : single_owner (sessionsList demoGlobals).
Proof.
  apply NoDup_single_owner. refine (bool_decide_unpack _ _). by vm_compute.
Qed.

Lemma fiveGlobals_single_owner : single_owner (sessionsList fiveGlobals).
Proof.
  apply NoDup_single_owner. refine (bool_decide_unpack _ _). by vm_compute.
Qed.

Lemma demo_controllable n p : p ≠ 2%N → controllable (demoEnv n) p.
Proof.
  intros Hp. unfold controllable; simpl. split; [done|].
  by rewrite decide_False.
Qed.

Lemma SwitchMuteStates_transition_witness :
  (10 ≠ 20)%N ∧
  single_owner (sessionsList demoGlobals) ∧
  (∀ s, s ∈ sessionsFor 10%N demoGlobals ∨ s ∈ sessionsFor 20%N demoGlobals →
        controllable (demoEnv 9) s) ∧
  muted (SwitchMuteStates (demoEnv 9) 10%N 20%N demoGlobals mutedAudio) 6%N = false.
Proof.
  assert (Hc : ∀ s, s ∈ sessionsFor 10%N demoGlobals ∨ s ∈ sessionsFor 20%N demoGlobals →
        controllable (demoEnv 9) s).
  { intros s Hs. apply demo_controllable. intros ->.
    destruct Hs as [Hs|Hs]; vm_compute in Hs;
      repeat (apply elem_of_cons in Hs as [Hs|Hs]; [discriminate|]);
      by apply elem_of_nil in Hs. }
  split; [done|]. split; [apply demoGlobals_single_owner|]. split; [exact Hc|].
  apply (SwitchMuteStates_transition (demoEnv 9) demoGlobals mutedAudio 10%N 20%N);
    [done|apply demoGlobals_single_owner|exact Hc|].
  apply elem_of_equal_range. vm_compute. do 2 apply list_elem_of_further.
  apply list_elem_of_here.
Defined.

(** ** AddAudioSession *)

Section Registry.

Variable env : AudioEnv.

(** Past the identity test, the call goes on to the registration. *)
Lemma AddAudioSession_fresh pSession pEvents g a :
  identifiable env pSession →
  fullSessionId (session env pSession) ∉ sessionIdSet g →
  AddAudioSession env pSession pEvents g a =
  let s := session env pSession in
  let g1 := set_sessionIdSet ({[fullSessionId s]} ∪ sessionIdSet g) g in
  let '(hr, a1) := RegisterAudioSessionNotification env pSession pEvents a in
  if decide (hr ≠ S_OK ∧ hr ≠ E_POINTER) then (hr, g1, a1) else
  (hr, set_sessionsList (sessionsList g1 ++ [(processId s, pSession)]) g1,
   AddRef pSession a1).
Proof.
  intros (Hnull & Hd & Hi & Hn & Hp) Hfresh. unfold AddAudioSession.
  rewrite decide_False by done.
  rewrite (decide_False (P := hrGetDisplayName _ ≠ S_OK)) by (intros H; by apply H).
  rewrite (decide_False (P := hrGetSessionIdentifier _ ≠ S_OK))
    by (intros H; by apply H).
  rewrite (decide_False (P := hrGetSessionInstanceIdentifier _ ≠ S_OK))
    by (intros H; by apply H).
  rewrite (decide_False (P := _ ∧ _)) by (intros [H1 H2]; by destruct Hp).
  by rewrite (decide_False (P := _ ∈ _)) by done.
Qed.

(** A known identity stops the call before anything is touched. *)
Lemma AddAudioSession_known pSession pEvents g a :
  fullSessionId (session env pSession) ∈ sessionIdSet g →
  ∃ hr, AddAudioSession env pSession pEvents g a = (hr, g, a) ∧
        (identifiable env pSession → hr = S_OK).
Proof.
  intros Hin. unfold AddAudioSession.
  destruct (decide (pSession = NULL)) as [Hnull|Hnull].
  { eexists; split; [done|]. by intros [H _]. }
  destruct (decide (hrGetDisplayName (session env pSession) ≠ S_OK)) as [H1|H1].
  { eexists; split; [done|]. by intros (_ & H & _). }
  destruct (decide (hrGetSessionIdentifier (session env pSession) ≠ S_OK))
    as [H2|H2].
  { eexists; split; [done|]. by intros (_ & _ & H & _). }
  destruct (decide (hrGetSessionInstanceIdentifier (session env pSession) ≠ S_OK))
    as [H3|H3].
  { eexists; split; [done|]. by intros (_ & _ & _ & H & _). }
  destruct (decide (hrGetProcessId (session env pSession) ≠ S_OK ∧
                    hrGetProcessId (session env pSession)
                      ≠ AUDCLNT_S_NO_SINGLE_PROCESS)) as [[H4 H5]|H4].
  { eexists; split; [done|]. by intros (_ & _ & _ & _ & [H|H]). }
  rewrite decide_True by done. by eexists.
Qed.

(** Whatever comes of the registration, the identity of a session that
    could be read is in the set afterwards. *)
Lemma AddAudioSession_records pSession pEvents g a :
  identifiable env pSession →
  fullSessionId (session env pSession)
    ∈ sessionIdSet (snd (fst (AddAudioSession env pSession pEvents g a))).
Proof.
  intros Hid.
  destruct (decide (fullSessionId (session env pSession) ∈ sessionIdSet g))
    as [Hin|Hfresh].
  - destruct (AddAudioSession_known pSession pEvents g a Hin) as (hr & -> & _).
    done.
  - rewrite AddAudioSession_fresh by done.
    unfold RegisterAudioSessionNotification. simpl.
    destruct (decide (_ ∧ _)) as [Hd|Hd]; simpl;
      apply elem_of_union; left; by apply elem_of_singleton.
Qed.

(** C3. When the composite identity of the session is already in the
    identity set, AddAudioSession changes neither the registry nor the
    identity set nor the audio state: no entry is inserted and no
    reference is taken on the handle; when the identity could be read the
    call answers S_OK. *)
Theorem AddAudioSession_duplicate (pSession pEvents : ptr) (g : Globals)
  (a : Audio) :
  fullSessionId (session env pSession) ∈ sessionIdSet g →
  ∃ hr, AddAudioSession env pSession pEvents g a = (hr, g, a) ∧
        sessionsList (snd (fst (AddAudioSession env pSession pEvents g a)))
          = sessionsList g ∧
        refCount (snd (AddAudioSession env pSession pEvents g a)) pSession
          = refCount a pSession ∧
        (identifiable env pSession → hr = S_OK).
Proof.
  intros Hin.
  destruct (AddAudioSession_known pSession pEvents g a Hin) as (hr & Heq & Hok).
  exists hr. by rewrite Heq.
Qed.

(** Registering the same session twice in a row: the second call answers
    S_OK and changes nothing. *)
Lemma AddAudioSession_twice pSession pEvents g a :
  identifiable env pSession →
  let '(_, g1, a1) := AddAudioSession env pSession pEvents g a in
  AddAudioSession env pSession pEvents g1 a1 = (S_OK, g1, a1).
Proof.
  intros Hid.
  pose proof (AddAudioSession_records pSession pEvents g a Hid) as Hrec.
  destruct (AddAudioSession env pSession pEvents g a) as [[hr g1] a1].
  simpl in Hrec.
  destruct (AddAudioSession_known pSession pEvents g1 a1 Hrec)
    as (hr' & -> & Hok).
  by rewrite Hok.
Qed.

Lemma registry_exact_invariant g : registry_exact env g → registry_invariant env g.
Proof.
  intros Hex id. rewrite (Hex id).
  destruct (decide (id ∈ sessionIdSet g)); split; done.
Qed.

(** Every path of AddAudioSession keeps the invariant, except the return
    on a failed notification registration. *)
Lemma AddAudioSession_exact pSession pEvents g a :
  registry_exact env g →
  let '(hr, g', a') := AddAudioSession env pSession pEvents g a in
  hr = S_OK ∨ hr = E_POINTER ∨ g' = g →
  registry_exact env g'.
Proof.
  intros Hex. unfold AddAudioSession.
  destruct (decide (pSession = NULL)); [done|].
  destruct (decide (hrGetDisplayName _ ≠ S_OK)); [done|].
  destruct (decide (hrGetSessionIdentifier _ ≠ S_OK)); [done|].
  destruct (decide (hrGetSessionInstanceIdentifier _ ≠ S_OK)); [done|].
  destruct (decide (_ ∧ _)); [done|].
  destruct (decide (_ ∈ _)) as [|Hfresh]; [done|].
  unfold RegisterAudioSessionNotification. cbv zeta.
  destruct (decide (_ ∧ _)) as [[H1 H2]|_].
  - intros [?|[?|Hg]]; [done|done|].
    exfalso. apply Hfresh. rewrite <- Hg. simpl.
    apply elem_of_union. left. by apply elem_of_singleton.
  - intros _ id. unfold handlesWithIdentity. simpl.
    rewrite filter_app, length_app, filter_cons, filter_nil. simpl.
    specialize (Hex id). unfold handlesWithIdentity in Hex. rewrite Hex.
    destruct (decide (fullSessionId (session env pSession) = id)) as [<-|Hne].
    + rewrite decide_False by done. rewrite decide_True; [done|].
      apply elem_of_union. left. by apply elem_of_singleton.
    + destruct (decide (id ∈ sessionIdSet g)) as [Hin|Hnin].
      * rewrite decide_True; [simpl; lia|]. apply elem_of_union. by right.
      * rewrite decide_False; [done|].
        intros [Hs%elem_of_singleton|?]%elem_of_union; [congruence|done].
Qed.

(** C4. Where the code leaves the invariant: for a session whose identity
    is new and whose RegisterAudioSessionNotification answers a code other
    than S_OK and E_POINTER, AddAudioSession returns that code with the
    identity inserted in the identity set and the process-to-sessions
    mapping unchanged. An invariant that held before the call is broken
    after it: the identity is in the set without exactly one handle in the
    mapping, and a later attempt to register the session is turned away as
    a duplicate. *)
Theorem AddAudioSession_failed_registration (pSession pEvents : ptr)
  (g : Globals) (a : Audio) :
  identifiable env pSession →
  fullSessionId (session env pSession) ∉ sessionIdSet g →
  hrRegisterAudioSessionNotification (session env pSession) ≠ S_OK →
  hrRegisterAudioSessionNotification (session env pSession) ≠ E_POINTER →
  let '(hr, g', a') := AddAudioSession env pSession pEvents g a in
  hr = hrRegisterAudioSessionNotification (session env pSession) ∧
  fullSessionId (session env pSession) ∈ sessionIdSet g' ∧
  sessionsList g' = sessionsList g ∧
  (registry_invariant env g → ¬ registry_invariant env g') ∧
  AddAudioSession env pSession pEvents g' a' = (S_OK, g', a').
Proof.
  intros Hid Hfresh Hne1 Hne2. rewrite AddAudioSession_fresh by done.
  unfold RegisterAudioSessionNotification. simpl.
  rewrite (decide_False (P := _ = S_OK)) by done.
  rewrite decide_True by done. simpl.
  set (g' := set_sessionIdSet _ g).
  assert (Hin : fullSessionId (session env pSession) ∈ sessionIdSet g').
  { subst g'. simpl. apply elem_of_union. left. by apply elem_of_singleton. }
  split; [done|]. split; [exact Hin|]. split; [done|]. split.
  - intros Hinv Hinv'. apply Hfresh. apply Hinv.
    apply (Hinv' (fullSessionId (session env pSession))) in Hin. exact Hin.
  - destruct (AddAudioSession_known pSession pEvents g' a Hin)
      as (hr & -> & Hok).
    by rewrite Hok.
Qed.

(** C2. Where the code leaves the policy for shared sessions: a
    cross-process session whose identity is new and whose notification
    registration answers S_OK is inserted into the registry under the
    process id that GetProcessId wrote, and a later SwitchMuteStates away
    from that process id mutes it. *)
Theorem AddAudioSession_registers_cross_process (pSession pEvents : ptr)
  (g : Globals) (a : Audio) (newProc : DWORD) :
  crossProcess env pSession →
  identifiable env pSession →
  fullSessionId (session env pSession) ∉ sessionIdSet g →
  hrRegisterAudioSessionNotification (session env pSession) = S_OK →
  controllable env pSession →
  pSession ∉ sessionsFor newProc g →
  newProc ≠ processId (session env pSession) →
  let '(hr, g', a') := AddAudioSession env pSession pEvents g a in
  hr = S_OK ∧
  pSession ∈ sessionsFor (processId (session env pSession)) g' ∧
  muted (SwitchMuteStates env (processId (session env pSession)) newProc g' a')
    pSession = true.
Proof.
  intros Hx Hid Hfresh Hreg Hc Hnin Hne. rewrite AddAudioSession_fresh by done.
  unfold RegisterAudioSessionNotification. simpl. rewrite Hreg.
  rewrite (decide_True (P := S_OK = S_OK)) by done.
  rewrite decide_False by (intros [H _]; by apply H).
  assert (Hin : pSession ∈ sessionsFor (processId (session env pSession))
    (set_sessionsList
       (sessionsList g ++ [(processId (session env pSession), pSession)])
       (set_sessionIdSet
          ({[fullSessionId (session env pSession)]} ∪ sessionIdSet g) g))).
  { unfold sessionsFor. apply elem_of_equal_range. simpl.
    apply elem_of_app. right. apply list_elem_of_here. }
  repeat split; [done|].
  apply SwitchMuteStates_old; [done| |done].
  unfold sessionsFor in *. rewrite elem_of_equal_range in *. simpl.
  rewrite elem_of_app. intros [H|H]; [done|].
  apply list_elem_of_singleton in H. congruence.
Qed.

End Registry.

Lemma demo_identifiable n p : p ≠ NULL → identifiable (demoEnv n) p.
Proof.
  intros Hp. unfold identifiable; simpl. repeat split; try done.
  destruct (decide (p = 8%N)); [by right|by left].
Qed.

Example demo_fullSessionId :
  fullSessionId (demoSession 1%N) = "10!player!instance1"%string.
Proof. reflexivity. Qed.

Lemma AddAudioSession_duplicate_witness :
  let g := set_sessionIdSet {[fullSessionId (demoSession 1%N)]} demoGlobals in
  fullSessionId (session (demoEnv 9) 1%N) ∈ sessionIdSet g ∧
  AddAudioSession (demoEnv 9) 1%N demoEvents g demoAudio = (S_OK, g, demoAudio).
Proof.
  intros g.
  assert (Hin : fullSessionId (session (demoEnv 9) 1%N) ∈ sessionIdSet g)
    by (simpl; set_solver).
  split; [exact Hin|].
  destruct (AddAudioSession_duplicate (demoEnv 9) 1%N demoEvents g demoAudio Hin)
    as (hr & Heq & _ & _ & Hok).
  rewrite Heq, Hok; [done|]. by apply demo_identifiable.
Defined.

Lemma AddAudioSession_failed_registration_witness :
  identifiable (demoEnv 9) 9%N ∧
  (fullSessionId (session (demoEnv 9) 9%N) ∉ sessionIdSet initGlobals) ∧
  (hrRegisterAudioSessionNotification (session (demoEnv 9) 9%N) ≠ S_OK) ∧
  (hrRegisterAudioSessionNotification (session (demoEnv 9) 9%N) ≠ E_POINTER) ∧
  (let '(hr, g', a') :=
     AddAudioSession (demoEnv 9) 9%N demoEvents initGlobals demoAudio in
   hr = E_FAIL ∧
   fullSessionId (demoSession 9%N) ∈ sessionIdSet g' ∧
   sessionsList g' = [] ∧
   registry_invariant (demoEnv 9) initGlobals ∧
   ¬ registry_invariant (demoEnv 9) g').
Proof.
  assert (H1 : identifiable (demoEnv 9) 9%N) by (by apply demo_identifiable).
  assert (H2 : fullSessionId (session (demoEnv 9) 9%N) ∉ sessionIdSet initGlobals)
    by (simpl; set_solver).
  assert (H3 : hrRegisterAudioSessionNotification (session (demoEnv 9) 9%N) ≠ S_OK)
    by (by vm_compute).
  assert (H4 : hrRegisterAudioSessionNotification (session (demoEnv 9) 9%N)
               ≠ E_POINTER) by (by vm_compute).
  repeat (split; [assumption|]).
  pose proof (AddAudioSession_failed_registration (demoEnv 9) 9%N demoEvents
                initGlobals demoAudio H1 H2 H3 H4) as H.
  destruct (AddAudioSession (demoEnv 9) 9%N demoEvents initGlobals demoAudio)
    as [[hr g'] a'].
  destruct H as (-> & Hin & Hl & Hinv & _). rewrite Hl.
  assert (H0 : registry_invariant (demoEnv 9) initGlobals).
  { intros id. unfold handlesWithIdentity. simpl. split; [|done].
    by intros ?%not_elem_of_empty. }
  repeat split; try done. by apply Hinv.
Defined.

Lemma AddAudioSession_registers_cross_process_witness :
  crossProcess (demoEnv 9) 8%N ∧
  identifiable (demoEnv 9) 8%N ∧
  (fullSessionId (session (demoEnv 9) 8%N) ∉ sessionIdSet demoGlobals) ∧
  hrRegisterAudioSessionNotification (session (demoEnv 9) 8%N) = S_OK ∧
  controllable (demoEnv 9) 8%N ∧
  (8%N ∉ sessionsFor 20%N demoGlobals) ∧
  (20%N ≠ processId (session (demoEnv 9) 8%N)) ∧
  (let '(hr, g', a') :=
     AddAudioSession (demoEnv 9) 8%N demoEvents demoGlobals demoAudio in
   (42%N, 8%N) ∈ sessionsList g' ∧
   muted a' 8%N = false ∧
   muted (SwitchMuteStates (demoEnv 9) 42%N 20%N g' a') 8%N = true).
Proof.
  assert (H1 : crossProcess (demoEnv 9) 8%N) by reflexivity.
  assert (H2 : identifiable (demoEnv 9) 8%N) by (by apply demo_identifiable).
  assert (H3 : fullSessionId (session (demoEnv 9) 8%N) ∉ sessionIdSet demoGlobals)
    by (simpl; set_solver).
  assert (H4 : hrRegisterAudioSessionNotification (session (demoEnv 9) 8%N) = S_OK)
    by reflexivity.
  assert (H5 : controllable (demoEnv 9) 8%N) by (by apply demo_controllable).
  assert (H6 : 8%N ∉ sessionsFor 20%N demoGlobals).
  { intros H. vm_compute in H.
    repeat (apply elem_of_cons in H as [H|H]; [discriminate|]).
    by apply elem_of_nil in H. }
  assert (H7 : 20%N ≠ processId (session (demoEnv 9) 8%N)) by (by vm_compute).
  repeat (split; [assumption|]).
  pose proof (AddAudioSession_registers_cross_process (demoEnv 9) 8%N demoEvents
                demoGlobals demoAudio 20%N H1 H2 H3 H4 H5 H6 H7) as H.
  destruct (AddAudioSession (demoEnv 9) 8%N demoEvents demoGlobals demoAudio)
    as [[hr g'] a'] eqn:Heq.
  destruct H as (_ & Hin & Hm). repeat split.
  - by apply elem_of_equal_range in Hin.
  - by injection Heq as _ _ <-.
  - exact Hm.
Defined.

(** ** The focus hook and the event queue *)

(** The hook either leaves the globals alone or appends one event, made
    of the remembered id and a different new id, and then remembers the
    new id. *)
Lemma WinEventProc_cases c g :
  WinEventProc c g = g ∨
  (switchedProcessId c ≠ oldProcessId g ∧
   WinEventProc c g =
   set_oldProcessId (switchedProcessId c)
     (set_eventQueue (eventQueue g ++ [(oldProcessId g, switchedProcessId c)]) g)).
Proof.
  unfold WinEventProc.
  destruct (decide (_ ∧ _)) as [Hf|Hf]; [|by left].
  destruct (decide (switchedProcessId c = oldProcessId g)); [by left|by right].
Qed.

Lemma WinEventProc_sessionsList c g :
  sessionsList (WinEventProc c g) = sessionsList g.
Proof. by destruct (WinEventProc_cases c g) as [->|[_ ->]]. Qed.

Lemma runHook_sessionsList cs : ∀ g,
  sessionsList (runHook cs g) = sessionsList g.
Proof.
  induction cs as [|c cs IH]; intros g; simpl; [done|].
  unfold runHook in *. simpl. by rewrite IH, WinEventProc_sessionsList.
Qed.

(** What a run of the hook appends depends on the remembered id only. *)
Lemma runHook_appends cs : ∀ g1 g2,
  oldProcessId g1 = oldProcessId g2 →
  ∃ es, eventQueue (runHook cs g1) = eventQueue g1 ++ es ∧
        eventQueue (runHook cs g2) = eventQueue g2 ++ es ∧
        oldProcessId (runHook cs g1) = oldProcessId (runHook cs g2).
Proof.
  induction cs as [|c cs IH]; intros g1 g2 Hold.
  - exists []. by rewrite !app_nil_r.
  - unfold runHook in *. simpl.
    assert (Hstep : (WinEventProc c g1 = g1 ∧ WinEventProc c g2 = g2) ∨
      (WinEventProc c g1 =
         set_oldProcessId (switchedProcessId c)
           (set_eventQueue
              (eventQueue g1 ++ [(oldProcessId g1, switchedProcessId c)]) g1) ∧
       WinEventProc c g2 =
         set_oldProcessId (switchedProcessId c)
           (set_eventQueue
              (eventQueue g2 ++ [(oldProcessId g1, switchedProcessId c)]) g2))).
    { unfold WinEventProc. rewrite <- Hold.
      destruct (decide (_ ∧ _)); [|by left].
      destruct (decide (switchedProcessId c = oldProcessId g1)); [by left|].
      by right. }
    destruct Hstep as [[-> ->]|[-> ->]].
    + by apply IH.
    + edestruct (IH
        (set_oldProcessId (switchedProcessId c)
           (set_eventQueue
              (eventQueue g1 ++ [(oldProcessId g1, switchedProcessId c)]) g1))
        (set_oldProcessId (switchedProcessId c)
           (set_eventQueue
              (eventQueue g2 ++ [(oldProcessId g1, switchedProcessId c)]) g2)))
        as (es & H1 & H2 & H3); [done|].
      exists ((oldProcessId g1, switchedProcessId c) :: es).
      rewrite H1, H2. simpl. by rewrite <- !app_assoc.
Qed.

Lemma last_cons_default {A} (l : list A) : ∀ x d1 d2,
  List.last (x :: l) d1 = List.last (x :: l) d2.
Proof.
  induction l as [|y l IH]; intros x d1 d2; [done|].
  change (List.last (y :: l) d1 = List.last (y :: l) d2). apply IH.
Qed.

(** The events a run of the hook appends: they chain from the remembered
    id, each joins two different ids, the hook ends up remembering the
    new id of the last one, and a zero new id can only come from a call
    that reported process id zero. *)
Lemma runHook_events cs : ∀ g,
  ∃ es, eventQueue (runHook cs g) = eventQueue g ++ es ∧
        chained (oldProcessId g) es ∧
        oldProcessId (runHook cs g) = List.last (snd <$> es) (oldProcessId g) ∧
        Forall (fun e => fst e ≠ snd e) es ∧
        (Forall (fun c => switchedProcessId c ≠ 0%N) cs →
         Forall (fun e => snd e ≠ 0%N) es).
Proof.
  induction cs as [|c cs IH]; intros g.
  - exists []. rewrite app_nil_r. by repeat split.
  - unfold runHook in *. simpl.
    destruct (WinEventProc_cases c g) as [->|[Hne ->]].
    + destruct (IH g) as (es & H1 & H2 & H3 & H4 & H5).
      exists es. repeat split; try done.
      intros Hall. apply H5. by apply Forall_cons in Hall as [_ Hall].
    + destruct (IH (set_oldProcessId (switchedProcessId c)
           (set_eventQueue
              (eventQueue g ++ [(oldProcessId g, switchedProcessId c)]) g)))
        as (es & H1 & H2 & H3 & H4 & H5).
      exists ((oldProcessId g, switchedProcessId c) :: es).
      simpl in *. rewrite H1, <- app_assoc. repeat split; try done.
      * rewrite H3. destruct es as [|e es]; [done|].
        change (List.last (snd e :: (snd <$> es)) (switchedProcessId c) =
                List.last (snd e :: (snd <$> es)) (oldProcessId g)).
        apply last_cons_default.
      * apply Forall_cons. split; [by simpl|done].
      * intros Hall. apply Forall_cons in Hall as [Hc Hall].
        apply Forall_cons. split; [done|by apply H5].
Qed.

(** In a chain that starts at a non-zero id and never moves to zero, no
    event starts at zero. *)
Lemma chained_nonzero es : ∀ prev,
  chained prev es → prev ≠ 0%N →
  Forall (fun e => snd e ≠ 0%N) es → Forall (fun e => fst e ≠ 0%N) es.
Proof.
  induction es as [|e es IH]; intros prev Hch Hp Hall; [done|].
  destruct Hch as [He Hch]. apply Forall_cons in Hall as [Hn Hall].
  simpl in Hn. apply Forall_cons. simpl. split; [congruence|].
  by apply (IH (snd e)).
Qed.

(** C7, amended. Every event the hook enqueues joins two different
    process ids. The first event after start-up has old id 0, the initial
    value of the remembered id, and a non-zero new id. When the hook is
    never handed process id 0, the events after the first have both ids
    non-zero. *)
Theorem WinEventProc_enqueued_events (cs : list WinEvent) :
  let q := eventQueue (runHook cs initGlobals) in
  Forall (fun e => fst e ≠ snd e) q ∧
  (∀ e rest, q = e :: rest → fst e = 0%N ∧ snd e ≠ 0%N) ∧
  (Forall (fun c => switchedProcessId c ≠ 0%N) cs →
   ∀ e rest, q = e :: rest → Forall nonzero_distinct rest).
Proof.
  intros q. subst q.
  destruct (runHook_events cs initGlobals) as (es & -> & Hch & _ & Hd & Hz).
  simpl in *. split; [done|]. split.
  - intros e rest ->. destruct Hch as [He _].
    apply Forall_cons in Hd as [Hd _]. simpl in Hd. split; congruence.
  - intros Hall e rest ->. specialize (Hz Hall).
    destruct Hch as [He Hch].
    apply Forall_cons in Hd as [_ Hd]. apply Forall_cons in Hz as [Hn Hz].
    pose proof (chained_nonzero rest (snd e) Hch Hn Hz) as Hf.
    apply Forall_forall. intros x Hx. unfold nonzero_distinct.
    rewrite Forall_forall in Hd, Hz, Hf. auto.
Qed.

(** C7, as stated, fails on the first event after start-up: the first
    foreground change, to a window of process 10, enqueues (0, 10). *)
Lemma WinEventProc_first_event_zero :
  eventQueue (WinEventProc (foreground 10%N) initGlobals) = [(0, 10)]%N ∧
  ¬ nonzero_distinct (0, 10)%N.
Proof. split; [reflexivity|]. by intros [H _]. Qed.

Lemma WinEventProc_enqueued_events_witness :
  Forall (fun c => switchedProcessId c ≠ 0%N)
    [foreground 10%N; foreground 10%N; foreground 20%N; foreground 30%N] ∧
  eventQueue (runHook
    [foreground 10%N; foreground 10%N; foreground 20%N; foreground 30%N]
    initGlobals) = [(0, 10); (10, 20); (20, 30)]%N ∧
  Forall nonzero_distinct [(10, 20); (20, 30)]%N.
Proof.
  assert (Hall : Forall (fun c => switchedProcessId c ≠ 0%N)
    [foreground 10%N; foreground 10%N; foreground 20%N; foreground 30%N])
    by (repeat constructor; done).
  split; [exact Hall|]. split; [reflexivity|].
  destruct (WinEventProc_enqueued_events
    [foreground 10%N; foreground 10%N; foreground 20%N; foreground 30%N])
    as (_ & _ & H).
  apply (H Hall (0, 10)%N). reflexivity.
Defined.

(** ** The consumer *)

Section Consumer.

Variable env : AudioEnv.

(** A transition reads the registry only. *)
Lemma SwitchMuteStates_ext oldProc newProc g g' a :
  sessionsList g = sessionsList g' →
  SwitchMuteStates env oldProc newProc g a
  = SwitchMuteStates env oldProc newProc g' a.
Proof. intros H. unfold SwitchMuteStates. by rewrite H. Qed.

Lemma applyTransitions_ext es : ∀ g g' a,
  sessionsList g = sessionsList g' →
  applyTransitions env es g a = applyTransitions env es g' a.
Proof.
  induction es as [|e es IH]; intros g g' a H; [done|].
  unfold applyTransitions in *. simpl.
  rewrite (SwitchMuteStates_ext _ _ g g' a H). by apply IH.
Qed.

Lemma set_eventQueue_same g : set_eventQueue (eventQueue g) g = g.
Proof. by destruct g. Qed.

(** Given enough iterations the loop empties the queue; it applies the
    queued events front to back, one transition for each. *)
Lemma drainLoop_all n : ∀ g a,
  (length (eventQueue g) ≤ n)%nat →
  drainLoop env n g a =
  (eventQueue g, set_eventQueue [] g, applyTransitions env (eventQueue g) g a).
Proof.
  induction n as [|n IH]; intros g a Hlen.
  - destruct (eventQueue g) eqn:Hq; [|simpl in Hlen; lia].
    assert (Hg : set_eventQueue [] g = g)
      by (rewrite <- Hq; apply set_eventQueue_same).
    simpl. by rewrite Hg.
  - simpl. unfold consumeEvent.
    destruct (eventQueue g) as [|e rest] eqn:Hq.
    + assert (Hg : set_eventQueue [] g = g)
        by (rewrite <- Hq; apply set_eventQueue_same).
      by rewrite Hg.
    + rewrite IH by (simpl in *; lia). reflexivity.
Qed.

(** Hooks and consumer iterations in any interleaving: the transitions
    applied, followed by what is still queued, are the events the hooks
    would have queued had nothing been consumed; the audio state is the
    result of the applied transitions in that order. *)
Lemma runSteps_fifo ss : ∀ applied g a,
  ∃ new g' a',
    runSteps env ss applied g a = (applied ++ new, g', a') ∧
    new ++ eventQueue g' =
      eventQueue (runHook (hooksOf ss) g) ∧
    oldProcessId g' =
      oldProcessId (runHook (hooksOf ss) g) ∧
    sessionsList g' = sessionsList g ∧
    a' = applyTransitions env new g a.
Proof.
  induction ss as [|[c|] ss IH]; intros applied g a.
  - exists [], g, a. simpl. by rewrite app_nil_r.
  - simpl. destruct (IH applied (WinEventProc c g) a)
      as (new & g' & a' & H1 & H2 & H3 & H4 & H5).
    exists new, g', a'. repeat split; try done.
    + by rewrite H4, WinEventProc_sessionsList.
    + rewrite H5. apply applyTransitions_ext, WinEventProc_sessionsList.
  - simpl. unfold consumeEvent.
    destruct (eventQueue g) as [|e rest] eqn:Hq.
    + apply IH.
    + destruct (IH (applied ++ [e]) (set_eventQueue rest g)
                  (SwitchMuteStates env (fst e) (snd e) g a))
        as (new & g' & a' & H1 & H2 & H3 & H4 & H5).
      exists (e :: new), g', a'.
      destruct (runHook_appends (hooksOf ss) (set_eventQueue rest g) g eq_refl)
        as (es & Hes1 & Hes2 & Hes3).
      repeat split.
      * by rewrite H1, <- app_assoc.
      * rewrite Hes2, Hq. simpl. f_equal.
        rewrite H2, Hes1. done.
      * by rewrite H3.
      * done.
      * rewrite H5. unfold applyTransitions. simpl.
        apply (applyTransitions_ext new). done.
Qed.

(** C5. One wake-up of the consumer empties the queue and applies the
    queued events front to back, one SwitchMuteStates per event; under any
    interleaving of hook invocations and consumer iterations the
    transitions applied so far followed by the events still queued are
    exactly the events enqueued, in enqueue order; and for the batch
    [(0,P1),(P1,P2),(P2,P3)] with P3 different from P1 and P2, in a
    registry where every handle has one owner and the sessions of the
    three processes accept the mute calls, the three transitions are
    applied in that order and P3's sessions end unmuted, P1's and P2's
    muted. *)
Theorem drainQueue_fifo (g : Globals) (a : Audio) :
  drainQueue env g a =
    (eventQueue g, set_eventQueue [] g,
     applyTransitions env (eventQueue g) g a) ∧
  (∀ ss, ∃ applied g' a',
     runSteps env ss [] g a = (applied, g', a') ∧
     applied ++ eventQueue g' =
       eventQueue (runHook (hooksOf ss) g) ∧
     a' = applyTransitions env applied g a) ∧
  (∀ P1 P2 P3,
     eventQueue g = [(0%N, P1); (P1, P2); (P2, P3)] →
     P1 ≠ P3 → P2 ≠ P3 →
     single_owner (sessionsList g) →
     (∀ s, s ∈ sessionsFor P1 g ∨ s ∈ sessionsFor P2 g ∨ s ∈ sessionsFor P3 g →
           controllable env s) →
     ∃ g' a',
       drainQueue env g a = ([(0%N, P1); (P1, P2); (P2, P3)], g', a') ∧
       eventQueue g' = [] ∧
       (∀ s, s ∈ sessionsFor P3 g → muted a' s = false) ∧
       (∀ s, s ∈ sessionsFor P1 g ∨ s ∈ sessionsFor P2 g → muted a' s = true)).
Proof.
  assert (Hdrain : drainQueue env g a =
    (eventQueue g, set_eventQueue [] g,
     applyTransitions env (eventQueue g) g a))
    by (unfold drainQueue; by apply drainLoop_all).
  split; [exact Hdrain|]. split.
  - intros ss. destruct (runSteps_fifo ss [] g a)
      as (new & g' & a' & H1 & H2 & _ & _ & H5).
    by exists new, g', a'.
  - intros P1 P2 P3 Hq H13 H23 Hso Hc.
    eexists _, _. split; [by rewrite Hdrain, Hq|]. split; [done|].
    unfold applyTransitions. simpl. split.
    + intros s Hs. apply SwitchMuteStates_new; auto.
    + intros s [Hs|Hs].
      * destruct (decide (P1 = P2)) as [->|H12].
        { apply SwitchMuteStates_old; auto.
          by apply (single_owner_apart g P2 P3). }
        rewrite SwitchMuteStates_frame.
        -- apply SwitchMuteStates_old; auto.
           by apply (single_owner_apart g P1 P2).
        -- by apply (single_owner_apart g P1 P2).
        -- by apply (single_owner_apart g P1 P3).
      * apply SwitchMuteStates_old; auto.
        by apply (single_owner_apart g P2 P3).
Qed.

(** C10. In every run of the hook from the initial globals, consumer
    iterations interleaved at will, the events enqueued chain: the old id
    of the first is 0 and the old id of every later one is the new id of
    the event enqueued just before it; the hook remembers the new id of
    the last event it enqueued. *)
Theorem WinEventProc_events_chain (cs : list WinEvent) :
  chained 0%N (eventQueue (runHook cs initGlobals)) ∧
  oldProcessId (runHook cs initGlobals)
    = List.last (snd <$> eventQueue (runHook cs initGlobals)) 0%N ∧
  (∀ ss a applied g' a',
     runSteps env ss [] initGlobals a = (applied, g', a') →
     chained 0%N (applied ++ eventQueue g')).
Proof.
  assert (Hchain : ∀ cs', chained 0%N (eventQueue (runHook cs' initGlobals)) ∧
    oldProcessId (runHook cs' initGlobals)
      = List.last (snd <$> eventQueue (runHook cs' initGlobals)) 0%N).
  { intros cs'.
    destruct (runHook_events cs' initGlobals) as (es & -> & Hch & Hl & _).
    by simpl in *. }
  split; [apply Hchain|]. split; [apply Hchain|].
  intros ss a applied g' a' Hrun.
  destruct (runSteps_fifo ss [] initGlobals a)
    as (new & g1 & a1 & H1 & H2 & _).
  rewrite Hrun in H1. simpl in H1. injection H1 as -> -> ->.
  rewrite H2. apply Hchain.
Qed.

End Consumer.

(** ** Degenerate ids and failing calls *)

Section Degenerate.

Variable env : AudioEnv.

Lemma AutoMuteRoutine_zero pSessionMgr newProcId prevProcId a :
  newProcId = 0%N ∨ prevProcId = 0%N →
  AutoMuteRoutine env pSessionMgr newProcId prevProcId a = (E_INVALIDARG, a).
Proof. intros H. unfold AutoMuteRoutine. by rewrite decide_True. Qed.

Lemma AutoMuteRoutine_same pSessionMgr procId a :
  procId ≠ 0%N →
  AutoMuteRoutine env pSessionMgr procId procId a = (S_FALSE, a).
Proof.
  intros H. unfold AutoMuteRoutine.
  rewrite decide_False by (by intros [?|?]). by rewrite decide_True.
Qed.

(** When the body breaks at session [i], the loop ends there, whatever
    sessions follow. *)
Lemma autoMuteLoop_break newProcId prevProcId n i hr0 a hr a1 :
  autoMuteSession env newProcId prevProcId i a = (true, hr, a1) →
  autoMuteLoop env newProcId prevProcId (S n) i hr0 a = (hr, a1).
Proof. intros H. simpl. by rewrite H. Qed.

(** C6, amended. AutoMuteRoutine called with a zero id in either position
    answers E_INVALIDARG, and with equal non-zero ids S_FALSE, in both
    cases without changing anything. SwitchMuteStates has no such guard
    and reads 0 as a key like any other: SwitchMuteStates(A,A) mutes and
    then unmutes the sessions registered under A, so each of them that
    accepts the calls ends unmuted, and SwitchMuteStates(0,B) leaves B's
    sessions unmuted; whatever the ids, a session registered under neither
    of them keeps its mute state. *)
Theorem degenerate_transitions (pSessionMgr : ptr) (g : Globals) (a : Audio)
  (A B : DWORD) :
  AutoMuteRoutine env pSessionMgr 0%N B a = (E_INVALIDARG, a) ∧
  AutoMuteRoutine env pSessionMgr A 0%N a = (E_INVALIDARG, a) ∧
  (A ≠ 0%N → AutoMuteRoutine env pSessionMgr A A a = (S_FALSE, a)) ∧
  (∀ s, s ∈ sessionsFor A g → controllable env s →
        muted (SwitchMuteStates env A A g a) s = false) ∧
  (∀ s, s ∈ sessionsFor B g → controllable env s →
        muted (SwitchMuteStates env 0%N B g a) s = false) ∧
  (∀ s, s ∉ sessionsFor A g → s ∉ sessionsFor B g →
        muted (SwitchMuteStates env A B g a) s = muted a s).
Proof.
  split; [by apply AutoMuteRoutine_zero; left|].
  split; [by apply AutoMuteRoutine_zero; right|].
  split; [by apply AutoMuteRoutine_same|].
  split; [intros s Hs Hc; by apply SwitchMuteStates_new|].
  split; [intros s Hs Hc; by apply SwitchMuteStates_new|].
  intros s HA HB. by apply SwitchMuteStates_frame.
Qed.

(** C8, amended. In a SwitchMuteStates batch a failing QueryInterface or
    SetMute on one session does not end the batch: every session of A
    that accepts the calls ends muted and every session of B that accepts
    them ends unmuted, whatever the other sessions answer, and SetMute is
    called on every session of A and then of B that hands out its volume
    interface. *)
Theorem SwitchMuteStates_isolates_failures (g : Globals) (a : Audio)
  (A B : DWORD) :
  A ≠ B →
  single_owner (sessionsList g) →
  let a' := SwitchMuteStates env A B g a in
  (∀ s, s ∈ sessionsFor A g → controllable env s → muted a' s = true) ∧
  (∀ t, t ∈ sessionsFor B g → controllable env t → muted a' t = false) ∧
  muteCalls a' =
    muteCalls a ++
    ((fun s => (s, true)) <$>
       filter (fun s => hrQueryVolume (session env s) = S_OK) (sessionsFor A g)) ++
    ((fun t => (t, false)) <$>
       filter (fun t => hrQueryVolume (session env t) = S_OK) (sessionsFor B g)).
Proof.
  intros Hne Hso a'. subst a'. split; [|split].
  - intros s Hs Hc. apply SwitchMuteStates_old; auto.
    by apply (single_owner_apart g A B).
  - intros t Ht Hc. by apply SwitchMuteStates_new.
  - rewrite SwitchMuteStates_loops, !setAll_calls. by rewrite <- app_assoc.
Qed.

End Degenerate.

(** C6, as stated, fails on SwitchMuteStates: with equal ids, or with old
    id 0, the call unmutes a muted session. *)
Lemma SwitchMuteStates_same_id_unmutes :
  muted mutedAudio 1%N = true ∧
  muted (SwitchMuteStates (demoEnv 9) 10%N 10%N demoGlobals mutedAudio) 1%N
    = false ∧
  muted (SwitchMuteStates (demoEnv 9) 0%N 10%N demoGlobals mutedAudio) 1%N
    = false.
Proof. by vm_compute. Qed.

(** C8, as stated, fails on AutoMuteRoutine: of five sessions of the
    process that lost focus, the second refuses SetMute; the routine
    answers that failure and sessions 3, 4 and 5, which would have accepted
    the call, stay unmuted. *)
Lemma AutoMuteRoutine_aborts_batch :
  let '(hr, a') := AutoMuteRoutine (demoEnv 5) demoManager 20%N 10%N demoAudio in
  hr = E_FAIL ∧
  muted a' 1%N = true ∧
  (∀ s, s ∈ [3; 4; 5]%N →
        controllable (demoEnv 5) s ∧
        processId (session (demoEnv 5) s) = 10%N ∧
        muted a' s = false).
Proof.
  vm_compute. split; [done|]. split; [done|].
  intros s Hs.
  repeat (apply elem_of_cons in Hs as [->|Hs]; [by vm_compute|]).
  by apply elem_of_nil in Hs.
Qed.

Lemma degenerate_transitions_witness :
  (10 ≠ 0)%N ∧
  1%N ∈ sessionsFor 10%N demoGlobals ∧
  controllable (demoEnv 9) 1%N ∧
  AutoMuteRoutine (demoEnv 9) demoManager 10%N 10%N mutedAudio
    = (S_FALSE, mutedAudio) ∧
  muted (SwitchMuteStates (demoEnv 9) 10%N 10%N demoGlobals mutedAudio) 1%N
    = false.
Proof.
  assert (Hin : 1%N ∈ sessionsFor 10%N demoGlobals).
  { apply elem_of_equal_range. apply list_elem_of_here. }
  assert (Hc : controllable (demoEnv 9) 1%N) by (by apply demo_controllable).
  split; [done|]. split; [exact Hin|]. split; [exact Hc|].
  destruct (degenerate_transitions (demoEnv 9) demoManager demoGlobals
              mutedAudio 10%N 20%N) as (_ & _ & Hsame & Hself & _).
  split; [by apply Hsame|by apply Hself].
Defined.

Lemma SwitchMuteStates_isolates_failures_witness :
  (10 ≠ 20)%N ∧
  single_owner (sessionsList fiveGlobals) ∧
  ¬ controllable (demoEnv 9) 2%N ∧
  let a' := SwitchMuteStates (demoEnv 9) 10%N 20%N fiveGlobals demoAudio in
  muted a' 2%N = false ∧
  (∀ s, s ∈ [1; 3; 4; 5]%N → muted a' s = true) ∧
  muteCalls a' =
    [(1, true); (2, true); (3, true); (4, true); (5, true); (6, false)]%N.
Proof.
  split; [done|]. split; [apply fiveGlobals_single_owner|].
  split; [by intros [_ H]|].
  destruct (SwitchMuteStates_isolates_failures (demoEnv 9) fiveGlobals demoAudio
              10%N 20%N) as (HA & _ & Hcalls);
    [done|apply fiveGlobals_single_owner|].
  split; [reflexivity|]. split.
  - intros s Hs. apply HA.
    + apply elem_of_equal_range.
      repeat (apply elem_of_cons in Hs as [->|Hs];
              [refine (bool_decide_unpack _ _); by vm_compute|]).
      by apply elem_of_nil in Hs.
    + apply demo_controllable. intros ->.
      repeat (apply elem_of_cons in Hs as [Hs|Hs]; [discriminate|]).
      by apply elem_of_nil in Hs.
  - rewrite Hcalls. reflexivity.
Defined.

(** ** Start-up of the tracker *)

Section Startup.

Variable env : AudioEnv.

Local Arguments occurrences : simpl never.

Lemma occurrences_app h l1 l2 :
  occurrences h (l1 ++ l2) = occurrences h l1 + occurrences h l2.
Proof. unfold occurrences. rewrite filter_app, length_app. lia. Qed.

Lemma occurrences_cons h (e : DWORD * ptr) l :
  occurrences h (e :: l) =
  (if decide (snd e = h) then 1 else 0) + occurrences h l.
Proof.
  unfold occurrences. rewrite filter_cons.
  destruct (decide (snd e = h)); simpl; lia.
Qed.

(** The clean-up loop drops one reference for each registry entry and
    leaves no per-session notification on a registered handle. *)
Lemma releaseSessions_refCount ev l : ∀ a h,
  refCount (releaseSessions ev l a) h = refCount a h - occurrences h l.
Proof.
  induction l as [|e l IH]; intros a h.
  - unfold occurrences. simpl. lia.
  - unfold releaseSessions in *. simpl. rewrite IH, occurrences_cons.
    rewrite refCount_Release. simpl. destruct (decide (snd e = h)); lia.
Qed.

Lemma releaseSessions_other ev l : ∀ a,
  sessionNotification (releaseSessions ev l a) = sessionNotification a ∧
  comInitCount (releaseSessions ev l a) = comInitCount a ∧
  muted (releaseSessions ev l a) = muted a.
Proof.
  induction l as [|e l IH]; intros a; [done|].
  unfold releaseSessions in *. simpl.
  destruct (IH (Release (snd e)
                  (UnregisterAudioSessionNotification (snd e) ev a)))
    as (-> & -> & ->). done.
Qed.

Lemma releaseSessions_sessionEvents ev l : ∀ a h,
  sessionEvents (releaseSessions ev l a) h =
  if decide (h ∈ (snd <$> l)) then false else sessionEvents a h.
Proof.
  induction l as [|e l IH]; intros a h.
  - destruct (decide (h ∈ (snd <$> []))) as [H|H]; [|done].
    by apply elem_of_nil in H.
  - unfold releaseSessions in *. simpl. rewrite IH. simpl.
    destruct (decide (h ∈ (snd <$> l))) as [Hin|Hnin].
    + rewrite decide_True; [done|]. by apply elem_of_cons; right.
    + unfold insert, fn_insert.
      destruct (decide (snd e = h)) as [Heq|Hne].
      * rewrite decide_True; [done|]. apply elem_of_cons; left. done.
      * rewrite decide_False; [done|].
        intros [?|?]%elem_of_cons; [congruence|done].
Qed.

Lemma balanced_refl g a : balanced g a g a.
Proof. by repeat split. Qed.

Lemma balanced_trans g1 a1 g2 a2 g3 a3 :
  balanced g1 a1 g2 a2 → balanced g2 a2 g3 a3 → balanced g1 a1 g3 a3.
Proof.
  intros (H1 & H2 & H3) (H4 & H5 & H6).
  split; [congruence|]. split; [congruence|].
  intros h. rewrite H6. apply H3.
Qed.

Lemma AddAudioSession_balanced p ev g a :
  balanced g a (snd (fst (AddAudioSession env p ev g a)))
               (snd (AddAudioSession env p ev g a)).
Proof.
  unfold AddAudioSession.
  destruct (decide (p = NULL)); [apply balanced_refl|].
  destruct (decide (hrGetDisplayName _ ≠ S_OK)); [apply balanced_refl|].
  destruct (decide (hrGetSessionIdentifier _ ≠ S_OK)); [apply balanced_refl|].
  destruct (decide (hrGetSessionInstanceIdentifier _ ≠ S_OK));
    [apply balanced_refl|].
  destruct (decide (_ ∧ _)); [apply balanced_refl|].
  destruct (decide (_ ∈ _)); [apply balanced_refl|].
  unfold RegisterAudioSessionNotification. cbv zeta.
  destruct (decide (_ ∧ _)); simpl.
  - split; [by destruct (decide (_ = S_OK))|].
    split; [by destruct (decide (_ = S_OK))|].
    intros h. by destruct (decide (_ = S_OK)).
  - split; [by destruct (decide (_ = S_OK))|].
    split; [by destruct (decide (_ = S_OK))|].
    intros h. unfold set_sessionsList, set_sessionIdSet. cbn [sessionsList].
    rewrite occurrences_app, occurrences_cons, refCount_AddRef.
    replace (occurrences h []) with 0 by done. cbn [snd].
    destruct (decide (_ = S_OK)); destruct (decide (p = h)); simpl; lia.
Qed.

End Startup.

Section StartupFailure.

Variable env : AudioEnv.

Local Arguments occurrences : simpl never.

Lemma AUDCLNT_S_NO_SINGLE_PROCESS_value :
  AUDCLNT_S_NO_SINGLE_PROCESS = 0x0889000D.
Proof. reflexivity. Qed.

(** A failure code is none of the codes the program lets pass. *)
Lemma FAILED_not_success hr :
  FAILED hr = true →
  hr ≠ S_OK ∧ hr ≠ S_FALSE ∧ hr ≠ AUDCLNT_S_NO_SINGLE_PROCESS.
Proof.
  unfold FAILED. intros H%Z.ltb_lt.
  rewrite AUDCLNT_S_NO_SINGLE_PROCESS_value. unfold S_OK, S_FALSE. lia.
Qed.

Lemma enumerateSession_balanced ev i g a :
  balanced g a (snd (fst (enumerateSession env ev i g a)))
               (snd (enumerateSession env ev i g a)).
Proof.
  unfold enumerateSession.
  destruct (decide (hrGetSession env i ≠ S_OK)); [apply balanced_refl|].
  destruct (decide (hrQueryControl2 _ = S_OK)) as [Hq|Hq].
  - rewrite decide_False by (intros H; by apply H).
    generalize (enumSession env i). intros p.
    pose proof (AddAudioSession_balanced env p ev g
                  (Release p (AddRef p (AddRef p a)))) as (H1 & H2 & H3).
    destruct (AddAudioSession env p ev g (Release p (AddRef p (AddRef p a))))
      as [[hr g2] a2].
    cbn [fst snd] in H1, H2, H3.
    assert (Hb : balanced g a g2 (Release p a2)).
    { split; [done|]. split; [done|]. intros h.
      rewrite refCount_Release. specialize (H3 h).
      rewrite refCount_Release, !refCount_AddRef in H3.
      destruct (decide (p = h)); lia. }
    by destruct (decide (_ ∧ _)).
  - rewrite decide_True by done. cbn [fst snd].
    split; [done|]. split; [done|]. intros h.
    rewrite refCount_Release, refCount_AddRef.
    destruct (decide (enumSession env i = h)); lia.
Qed.

Lemma enumerateSessions_balanced ev n : ∀ i hr g a,
  balanced g a (snd (fst (enumerateSessions env ev n i hr g a)))
               (snd (enumerateSessions env ev n i hr g a)).
Proof.
  induction n as [|n IH]; intros i hr g a; [apply balanced_refl|].
  simpl. pose proof (enumerateSession_balanced ev i g a) as Hb.
  destruct (enumerateSession env ev i g a) as [[[b hr'] g'] a'].
  simpl in Hb. destruct b; [done|].
  eapply balanced_trans; [exact Hb|apply IH].
Qed.

(** [Release] on the listener as its constructor left it brings the count
    to 0 and runs [delete this]. *)
Lemma CAudioSessionEvents_Release_new :
  CAudioSessionEvents_Release CAudioSessionEvents_new
  = (0, mkCAudioSessionEvents 0, true).
Proof. reflexivity. Qed.

Lemma AudioThreadRoutine_cleanup_new ev code g a :
  AudioThreadRoutine_cleanup ev CAudioSessionEvents_new code g a
  = (DeleteOfStackObject,
     releaseSessions ev (sessionsList g) (UnregisterSessionNotification a)).
Proof.
  unfold AudioThreadRoutine_cleanup. cbv zeta.
  by rewrite CAudioSessionEvents_Release_new.
Qed.

(** The unwinding shared by the exits with codes 5, 6 and 7, up to the
    call of [Release] on the listener. *)
Lemma unwind_released ev g a :
  let a' := releaseSessions ev (sessionsList g)
              (UnregisterSessionNotification a) in
  sessionNotification a' = false ∧
  comInitCount a' = comInitCount a ∧
  (∀ h, refCount a' h = refCount a h - occurrences h (sessionsList g)) ∧
  (∀ k h, (k, h) ∈ sessionsList g → sessionEvents a' h = false).
Proof.
  simpl.
  destruct (releaseSessions_other ev (sessionsList g)
              (UnregisterSessionNotification a)) as (-> & -> & _).
  split; [done|]. split; [done|]. split.
  - intros h. by rewrite releaseSessions_refCount.
  - intros k h Hin. rewrite releaseSessions_sessionEvents.
    rewrite decide_True; [done|].
    apply list_elem_of_fmap. by exists (k, h).
Qed.

Lemma GetIAudioSessionManager2_answers manager :
  managerAnswers env →
  fst (GetIAudioSessionManager2 env manager (Some NULL)) = S_OK.
Proof.
  intros (Hc & Hd & Ha). unfold GetIAudioSessionManager2.
  rewrite (decide_False (P := NULL ≠ NULL)) by (intros H; by apply H).
  rewrite (decide_False (P := hrCoCreateInstance env ≠ S_OK))
    by (intros H; by apply H).
  by rewrite (decide_False (P := hrGetDefaultAudioEndpoint env ≠ S_OK))
    by (intros H; by apply H).
Qed.

Lemma GetIAudioSessionManager2_fails manager :
  managerFails env →
  fst (GetIAudioSessionManager2 env manager (Some NULL)) ≠ S_OK.
Proof.
  unfold GetIAudioSessionManager2.
  rewrite (decide_False (P := NULL ≠ NULL)) by (intros H; by apply H).
  intros [Hf|(Hc & [Hf|(Hd & Hf)])];
    destruct (FAILED_not_success _ Hf) as (H0 & _).
  - by rewrite (decide_True (P := hrCoCreateInstance env ≠ S_OK)) by done.
  - rewrite (decide_False (P := hrCoCreateInstance env ≠ S_OK))
      by (intros H; by apply H).
    by rewrite (decide_True (P := hrGetDefaultAudioEndpoint env ≠ S_OK))
      by done.
  - rewrite (decide_False (P := hrCoCreateInstance env ≠ S_OK))
      by (intros H; by apply H).
    by rewrite (decide_False (P := hrGetDefaultAudioEndpoint env ≠ S_OK))
      by (intros H; by apply H).
Qed.

(** What [AddAudioSession] answers, read off the answers of its calls. *)
Lemma AddAudioSession_callFails p ev g a :
  p ≠ NULL →
  FAILED (hrGetDisplayName (session env p)) = true ∨
  (hrGetDisplayName (session env p) = S_OK ∧
   (FAILED (hrGetSessionIdentifier (session env p)) = true ∨
    (hrGetSessionIdentifier (session env p) = S_OK ∧
     (FAILED (hrGetSessionInstanceIdentifier (session env p)) = true ∨
      (hrGetSessionInstanceIdentifier (session env p) = S_OK ∧
       FAILED (hrGetProcessId (session env p)) = true))))) →
  FAILED (fst (fst (AddAudioSession env p ev g a))) = true.
Proof.
  intros Hp H. unfold AddAudioSession. cbv zeta.
  rewrite (decide_False (P := p = NULL)) by done.
  destruct H as [Hf|(H1 & H)].
  { destruct (FAILED_not_success _ Hf) as (H0 & _).
    by rewrite (decide_True (P := hrGetDisplayName _ ≠ S_OK)) by done. }
  rewrite (decide_False (P := hrGetDisplayName _ ≠ S_OK))
    by (intros Hx; by apply Hx).
  destruct H as [Hf|(H2 & H)].
  { destruct (FAILED_not_success _ Hf) as (H0 & _).
    by rewrite (decide_True (P := hrGetSessionIdentifier _ ≠ S_OK)) by done. }
  rewrite (decide_False (P := hrGetSessionIdentifier _ ≠ S_OK))
    by (intros Hx; by apply Hx).
  destruct H as [Hf|(H3 & Hf)].
  { destruct (FAILED_not_success _ Hf) as (H0 & _).
    by rewrite (decide_True (P := hrGetSessionInstanceIdentifier _ ≠ S_OK))
      by done. }
  rewrite (decide_False (P := hrGetSessionInstanceIdentifier _ ≠ S_OK))
    by (intros Hx; by apply Hx).
  destruct (FAILED_not_success _ Hf) as (H0 & _ & H4).
  by rewrite (decide_True (P := _ ∧ _)) by done.
Qed.

Lemma AddAudioSession_registration p ev g a :
  identifiable env p →
  fullSessionId (session env p) ∉ sessionIdSet g →
  fst (fst (AddAudioSession env p ev g a))
  = hrRegisterAudioSessionNotification (session env p) ∧
  sessionIdSet (snd (fst (AddAudioSession env p ev g a)))
  = {[fullSessionId (session env p)]} ∪ sessionIdSet g.
Proof.
  intros Hid Hfresh. rewrite AddAudioSession_fresh by done.
  unfold RegisterAudioSessionNotification. cbv zeta.
  by destruct (decide (_ ∧ _)).
Qed.

Lemma AddAudioSession_passes p ev g a :
  identifiable env p →
  hrRegisterAudioSessionNotification (session env p) = S_OK ∨
  hrRegisterAudioSessionNotification (session env p)
  = AUDCLNT_S_NO_SINGLE_PROCESS →
  (fst (fst (AddAudioSession env p ev g a)) = S_OK ∨
   fst (fst (AddAudioSession env p ev g a)) = AUDCLNT_S_NO_SINGLE_PROCESS) ∧
  sessionIdSet (snd (fst (AddAudioSession env p ev g a)))
  ⊆ {[fullSessionId (session env p)]} ∪ sessionIdSet g.
Proof.
  intros Hid Hreg.
  destruct (decide (fullSessionId (session env p) ∈ sessionIdSet g))
    as [Hin|Hfresh].
  - destruct (AddAudioSession_known env p ev g a Hin) as (hr & -> & Hhr).
    cbn [fst snd]. split; [left; by apply Hhr|]. apply union_subseteq_r.
  - destruct (AddAudioSession_registration p ev g a Hid Hfresh) as [-> ->].
    done.
Qed.

(** One pass of the enumeration loop, read off the answers of its calls. *)
Lemma enumerateSession_passes ev i g a :
  sessionPasses env i →
  fst (fst (fst (enumerateSession env ev i g a))) = false ∧
  sessionIdSet (snd (fst (enumerateSession env ev i g a)))
  ⊆ {[sessionIdOf env i]} ∪ sessionIdSet g.
Proof.
  unfold sessionPasses, sessionIdOf, enumerateSession. cbv zeta.
  intros (Hg & Hq & Hid & Hreg).
  rewrite (decide_False (P := hrGetSession env i ≠ S_OK))
    by (intros Hx; by apply Hx).
  rewrite (decide_False (P := hrQueryControl2 _ ≠ S_OK))
    by (intros Hx; by apply Hx).
  match goal with
  | |- context [AddAudioSession env ?p ev g ?x] =>
    destruct (AddAudioSession_passes p ev g x Hid Hreg) as [Hhr Hset];
    destruct (AddAudioSession env p ev g x) as [[hr g'] a']
  end.
  cbn [fst snd] in Hhr, Hset.
  rewrite (decide_False (P := _ ∧ _)); [done|].
  intros [H1 H2]. by destruct Hhr.
Qed.

Lemma enumerateSession_fails ev i g a :
  callFails env i ∨
  (registrationFails env i ∧ sessionIdOf env i ∉ sessionIdSet g) →
  fst (fst (fst (enumerateSession env ev i g a))) = true ∧
  FAILED (snd (fst (fst (enumerateSession env ev i g a)))) = true.
Proof.
  unfold callFails, registrationFails, sessionIdOf, enumerateSession.
  cbv zeta. intros H.
  assert (Hadd : hrGetSession env i = S_OK →
    hrQueryControl2 (session env (enumSession env i)) = S_OK →
    (∀ x, FAILED (fst (fst (AddAudioSession env (enumSession env i)
                              ev g x))) = true) →
    fst (fst (fst
      (if decide (hrGetSession env i ≠ S_OK)
       then (true, hrGetSession env i, g, a)
       else
         if decide (hrQueryControl2 (session env (enumSession env i)) ≠ S_OK)
         then (true, hrQueryControl2 (session env (enumSession env i)), g,
               Release (enumSession env i)
                 (if decide
                       (hrQueryControl2 (session env (enumSession env i))
                        = S_OK)
                  then AddRef (enumSession env i)
                         (AddRef (enumSession env i) a)
                  else AddRef (enumSession env i) a))
         else
           let '(hr, g0, a0) :=
             AddAudioSession env (enumSession env i) ev g
               (Release (enumSession env i)
                  (if decide
                        (hrQueryControl2 (session env (enumSession env i))
                         = S_OK)
                   then AddRef (enumSession env i)
                          (AddRef (enumSession env i) a)
                   else AddRef (enumSession env i) a)) in
           if decide (hr ≠ S_OK ∧ hr ≠ AUDCLNT_S_NO_SINGLE_PROCESS)
           then (true, hr, g0, Release (enumSession env i) a0)
           else (false, hr, g0, Release (enumSession env i) a0)))) = true ∧
    FAILED (snd (fst (fst
      (if decide (hrGetSession env i ≠ S_OK)
       then (true, hrGetSession env i, g, a)
       else
         if decide (hrQueryControl2 (session env (enumSession env i)) ≠ S_OK)
         then (true, hrQueryControl2 (session env (enumSession env i)), g,
               Release (enumSession env i)
                 (if decide
                       (hrQueryControl2 (session env (enumSession env i))
                        = S_OK)
                  then AddRef (enumSession env i)
                         (AddRef (enumSession env i) a)
                  else AddRef (enumSession env i) a))
         else
           let '(hr, g0, a0) :=
             AddAudioSession env (enumSession env i) ev g
               (Release (enumSession env i)
                  (if decide
                        (hrQueryControl2 (session env (enumSession env i))
                         = S_OK)
                   then AddRef (enumSession env i)
                          (AddRef (enumSession env i) a)
                   else AddRef (enumSession env i) a)) in
           if decide (hr ≠ S_OK ∧ hr ≠ AUDCLNT_S_NO_SINGLE_PROCESS)
           then (true, hr, g0, Release (enumSession env i) a0)
           else (false, hr, g0, Release (enumSession env i) a0))))) = true).
  { intros Hg Hq Hall.
    rewrite (decide_False (P := hrGetSession env i ≠ S_OK))
      by (intros Hx; by apply Hx).
    rewrite (decide_False (P := hrQueryControl2 _ ≠ S_OK))
      by (intros Hx; by apply Hx).
    match goal with
    | |- context [AddAudioSession env ?p ev g ?x] =>
      pose proof (Hall x) as Hf;
      destruct (AddAudioSession env p ev g x) as [[hr g'] a']
    end.
    cbn [fst snd] in Hf.
    destruct (FAILED_not_success _ Hf) as (H0 & _ & H2).
    by rewrite (decide_True (P := _ ∧ _)) by done. }
  destruct H as [[Hf|(Hg & [Hf|(Hq & Hp & Hrest)])]
                |[(Hg & Hq & Hid & Hf) Hfresh]].
  - destruct (FAILED_not_success _ Hf) as (H0 & _).
    by rewrite (decide_True (P := hrGetSession env i ≠ S_OK)) by done.
  - destruct (FAILED_not_success _ Hf) as (H0 & _).
    rewrite (decide_False (P := hrGetSession env i ≠ S_OK))
      by (intros Hx; by apply Hx).
    by rewrite (decide_True (P := hrQueryControl2 _ ≠ S_OK)) by done.
  - apply Hadd; [done|done|]. intros x.
    by apply AddAudioSession_callFails.
  - apply Hadd; [done|done|]. intros x.
    by destruct (AddAudioSession_registration (enumSession env i) ev g x
                   Hid Hfresh) as [-> _].
Qed.

(** The loop ends on a failure code when, after sessions that pass, the
    calls for one session fail. *)
Lemma enumerateSessions_fails ev n : ∀ k hr g a i,
  k ≤ i < k + Z.of_nat n →
  (∀ j, k ≤ j < i → sessionPasses env j) →
  callFails env i ∨
  (registrationFails env i ∧ (sessionIdOf env i ∉ sessionIdSet g) ∧
   ∀ j, k ≤ j < i → sessionIdOf env j ≠ sessionIdOf env i) →
  FAILED (fst (fst (enumerateSessions env ev n k hr g a))) = true.
Proof.
  induction n as [|n IH]; intros k hr g a i Hi Hpass Hfail; [lia|].
  cbn [enumerateSessions].
  destruct (decide (i = k)) as [->|Hne].
  - destruct (enumerateSession_fails ev k g a) as [Hb Hf].
    { destruct Hfail as [?|(? & ? & _)]; [by left|by right]. }
    destruct (enumerateSession env ev k g a) as [[[b hr'] g'] a'].
    cbn [fst snd] in Hb, Hf. by subst b.
  - destruct (enumerateSession_passes ev k g a) as [Hb Hset];
      [apply Hpass; lia|].
    destruct (enumerateSession env ev k g a) as [[[b hr'] g'] a'].
    cbn [fst snd] in Hb, Hset. subst b.
    apply (IH (k + 1) hr' g' a' i); [lia|intros j Hj; apply Hpass; lia|].
    destruct Hfail as [?|(Hr & Hfresh & Hdiff)]; [by left|right].
    split; [done|]. split; [|intros j Hj; apply Hdiff; lia].
    intros Hin. apply Hset in Hin.
    apply elem_of_union in Hin as [Hin|Hin]; [|done].
    apply elem_of_singleton in Hin. apply (Hdiff k); [lia|done].
Qed.

(** C9. The codes of the six start-up steps are pairwise different, but
    only three of them are ever returned. When no session notification is
    registered at the start and a call of step s is the first to fail:
    for COM initialisation, manager acquisition and notification
    registration the routine returns the code of the step, with the
    registry and every reference count untouched and COM initialisation
    balanced; for enumerator acquisition, session count and the
    enumeration loop it unregisters the session notification, unregisters
    and releases every handle of the registry (those it found and those
    the enumeration added), and then calls Release on its listener, a
    local variable whose count is 1: that runs delete this on an object on
    the stack, so the routine does not get to its return of 5, 6 or 7. *)
Theorem AudioThreadRoutine_startup_failure (manager pAudioEvents : ptr)
  (g : Globals) (a : Audio) (s : StartupStep) :
  (∀ s1 s2, failureCode s1 = failureCode s2 → s1 = s2) ∧
  (sessionNotification a = false →
   startupFailsAt env g s →
   let '(r, g', a') :=
     AudioThreadRoutine_startup env manager pAudioEvents g a in
   sessionNotification a' = false ∧
   match s with
   | ComInitialization | ManagerAcquisition | NotificationRegistration =>
     r = inl (ReturnCode (failureCode s)) ∧ g' = g ∧
     (∀ h, refCount a' h = refCount a h) ∧
     comInitCount a' = comInitCount a
   | EnumeratorAcquisition | SessionCount | EnumerationLoop =>
     r = inl DeleteOfStackObject ∧
     (∀ k h, (k, h) ∈ sessionsList g' → sessionEvents a' h = false) ∧
     (∀ h, refCount a' h = refCount a h - occurrences h (sessionsList g))
   end).
Proof.
  split; [by intros [] []|].
  intros Hnot Hfail. revert Hfail.
  unfold startupFailsAt, AudioThreadRoutine_startup,
    CoInitializeEx, RegisterSessionNotification. cbv zeta.
  rewrite !AudioThreadRoutine_cleanup_new.
  pose proof (GetIAudioSessionManager2_answers manager) as HMok.
  pose proof (GetIAudioSessionManager2_fails manager) as HMbad.
  destruct (GetIAudioSessionManager2 env manager (Some NULL)) as [hrM pMgr].
  cbn [fst snd] in HMok, HMbad |- *.
  destruct s; intros Hfail.
  - apply FAILED_not_success in Hfail as (H0 & H1 & _).
    rewrite decide_True by done.
    rewrite (decide_False (P := _ ∨ _)) by (by intros [?|?]).
    by rewrite decide_False by done.
  - destruct Hfail as (Hc & Hm%HMbad).
    rewrite Hc. known_codes.
    rewrite (decide_True (P := hrM ≠ S_OK)) by done. simpl.
    repeat split; try done. lia.
  - destruct Hfail as (Hc & Hm%HMok & (H0 & _ & _)%FAILED_not_success).
    rewrite Hc, Hm. known_codes.
    rewrite (decide_True (P := _ ≠ S_OK)) by done.
    rewrite (decide_False (P := _ = S_OK)) by done. simpl.
    repeat split; try done. lia.
  - destruct Hfail as (Hc & Hm%HMok & Hr & (H0 & _ & _)%FAILED_not_success).
    rewrite Hc, Hm, Hr. known_codes.
    rewrite (decide_True (P := _ ≠ S_OK)) by done.
    match goal with
    | |- context [releaseSessions ?ev _ (UnregisterSessionNotification ?x)] =>
      destruct (unwind_released ev g x) as (U1 & U2 & U3 & U4)
    end.
    cbn [fst snd] in *. by repeat split.
  - destruct Hfail
      as (Hc & Hm%HMok & Hr & He & (H0 & _ & _)%FAILED_not_success).
    rewrite Hc, Hm, Hr, He. known_codes.
    rewrite (decide_True (P := _ ≠ S_OK)) by done.
    match goal with
    | |- context [releaseSessions ?ev _ (UnregisterSessionNotification ?x)] =>
      destruct (unwind_released ev g x) as (U1 & U2 & U3 & U4)
    end.
    cbn [fst snd] in *. by repeat split.
  - destruct Hfail as (Hc & Hm%HMok & Hr & He & Hn & i & Hi & Hpass & Hbad).
    rewrite Hc, Hm, Hr, He, Hn. known_codes.
    match goal with
    | |- context [enumerateSessions _ _ ?n ?k ?hr ?g0 ?a0] =>
      pose proof (enumerateSessions_fails pAudioEvents n k hr g0 a0 i)
        as Hloop;
      pose proof (enumerateSessions_balanced pAudioEvents n k hr g0 a0)
        as (B1 & B2 & B3);
      destruct (enumerateSessions env pAudioEvents n k hr g0 a0)
        as [[hrL gL] aL]
    end.
    cbn [fst snd] in Hloop, B1, B2, B3.
    apply FAILED_not_success in Hloop as (H0 & _ & H2); [|lia|done|done].
    rewrite decide_True by done.
    destruct (unwind_released pAudioEvents gL aL) as (U1 & U2 & U3 & U4).
    cbn [fst snd] in *. repeat split; try done.
    intros h. rewrite U3. specialize (B3 h). simpl in B3. lia.
Qed.

End StartupFailure.

(** A fresh start on the subsystem whose session manager does not hand
    out its enumerator. *)
Lemma AudioThreadRoutine_startup_failure_witness :
  sessionNotification demoAudio = false ∧
  startupFailsAt demoEnvNoEnumerator initGlobals EnumeratorAcquisition ∧
  (let '(r, g', a') :=
     AudioThreadRoutine_startup demoEnvNoEnumerator demoManager demoEvents
       initGlobals demoAudio in
   r = inl DeleteOfStackObject ∧
   r ≠ inl (ReturnCode 5%N) ∧
   sessionNotification a' = false).
Proof.
  assert (Hf : startupFailsAt demoEnvNoEnumerator initGlobals
                 EnumeratorAcquisition).
  { unfold startupFailsAt, managerAnswers. by repeat split. }
  split; [done|]. split; [exact Hf|].
  destruct (AudioThreadRoutine_startup_failure demoEnvNoEnumerator
              demoManager demoEvents initGlobals demoAudio
              EnumeratorAcquisition) as [_ H].
  specialize (H eq_refl Hf).
  destruct (AudioThreadRoutine_startup demoEnvNoEnumerator demoManager
              demoEvents initGlobals demoAudio) as [[r g'] a'].
  destruct H as (Hn & Hr & _).
  split; [exact Hr|]. split; [by rewrite Hr|exact Hn].
Defined.

(** The queue after the hook has seen the foreground move to processes
    10, 20 and 30. *)
Lemma drainQueue_fifo_witness :
  let g := set_eventQueue [(0, 10); (10, 20); (20, 30)]%N demoGlobals in
  eventQueue g = [(0, 10); (10, 20); (20, 30)]%N ∧
  (10 ≠ 30)%N ∧ (20 ≠ 30)%N ∧
  single_owner (sessionsList g) ∧
  (∀ s, s ∈ sessionsFor 10%N g ∨ s ∈ sessionsFor 20%N g ∨ s ∈ sessionsFor 30%N g →
        controllable (demoEnv 9) s) ∧
  ∃ g' a',
    drainQueue (demoEnv 9) g demoAudio
      = ([(0, 10); (10, 20); (20, 30)]%N, g', a') ∧
    eventQueue g' = [] ∧
    muted a' 7%N = false ∧ muted a' 1%N = true ∧ muted a' 6%N = true.
Proof.
  intros g.
  assert (Hso : single_owner (sessionsList g)) by apply demoGlobals_single_owner.
  assert (Hc : ∀ s, s ∈ sessionsFor 10%N g ∨ s ∈ sessionsFor 20%N g
                    ∨ s ∈ sessionsFor 30%N g → controllable (demoEnv 9) s).
  { intros s Hs. apply demo_controllable. intros ->.
    destruct Hs as [Hs|[Hs|Hs]]; vm_compute in Hs;
      repeat (apply elem_of_cons in Hs as [Hs|Hs]; [discriminate|]);
      by apply elem_of_nil in Hs. }
  split; [reflexivity|]. split; [done|]. split; [done|].
  split; [exact Hso|]. split; [exact Hc|].
  destruct (drainQueue_fifo (demoEnv 9) g demoAudio) as (_ & _ & H).
  destruct (H 10%N 20%N 30%N eq_refl) as (g' & a' & Hd & Hq & H3 & H12);
    [done|done|exact Hso|exact Hc|].
  exists g', a'. split; [exact Hd|]. split; [exact Hq|].
  assert (Hin : ∀ k h, (k, h) ∈ sessionsList demoGlobals → h ∈ sessionsFor k g).
  { intros k h Hkh. by apply elem_of_equal_range. }
  split; [|split].
  - apply H3, Hin. refine (bool_decide_unpack _ _). by vm_compute.
  - apply H12. left. apply Hin. refine (bool_decide_unpack _ _). by vm_compute.
  - apply H12. right. apply Hin. refine (bool_decide_unpack _ _). by vm_compute.
Defined.

(** ** Cross-process sessions and the enumerating routine *)

Section CrossProcess.

Variable env : AudioEnv.

Lemma SetMute_other p b a q :
  q ≠ p → muted (snd (SetMute env p b a)) q = muted a q.
Proof.
  intros Hne. unfold SetMute. cbn [snd].
  destruct (decide (hrSetMute _ = S_OK)); [|done].
  simpl. by apply fn_lookup_insert_ne.
Qed.

(** The body of the loop changes the mute state of the enumerated session
    at most, and only when [GetProcessId] answered [S_OK] for it. *)
Lemma autoMuteSession_muted newProcId prevProcId i a q :
  muted (snd (autoMuteSession env newProcId prevProcId i a)) q = muted a q ∨
  (q = enumSession env i ∧ hrGetProcessId (session env q) = S_OK).
Proof.
  unfold autoMuteSession. cbv zeta.
  destruct (decide (hrGetSession env i ≠ S_OK)); [by left|].
  destruct (decide (hrQueryControl2 _ ≠ S_OK));
    [left; by destruct (decide (hrQueryControl2 _ = S_OK))|].
  destruct (decide (hrIsSystemSoundsSession _ = S_OK));
    [left; by destruct (decide (hrQueryControl2 _ = S_OK))|].
  destruct (decide (hrIsSystemSoundsSession _ ≠ S_FALSE));
    [left; by destruct (decide (hrQueryControl2 _ = S_OK))|].
  destruct (decide (hrGetProcessId _ = AUDCLNT_S_NO_SINGLE_PROCESS));
    [left; by destruct (decide (hrQueryControl2 _ = S_OK))|].
  destruct (decide (hrGetProcessId _ ≠ S_OK)) as [|Hok];
    [left; by destruct (decide (hrQueryControl2 _ = S_OK))|].
  apply dec_stable in Hok.
  destruct (decide (q = enumSession env i)) as [->|Hne]; [by right|left].
  destruct (decide (processId _ = newProcId));
    [|destruct (decide (processId _ = prevProcId));
      [|by destruct (decide (hrQueryControl2 _ = S_OK))]].
  all: destruct (decide (hrQueryVolume _ ≠ S_OK));
    [by repeat destruct (decide (_ = S_OK))|].
  all: match goal with
       | |- context [SetMute env ?p ?b ?x] =>
         pose proof (SetMute_other p b x q Hne) as Hs;
         destruct (SetMute env p b x) as [hr a1]
       end.
  all: cbn [snd] in Hs.
  all: destruct (decide (hr ≠ S_OK)); cbn [snd]; rewrite muted_Release, Hs.
  all: by repeat destruct (decide (_ = S_OK)).
Qed.

(** AutoMuteRoutine never changes the mute state of a cross-process
    session. *)
Lemma autoMuteLoop_cross newProcId prevProcId p n : ∀ i hr a,
  crossProcess env p →
  muted (snd (autoMuteLoop env newProcId prevProcId n i hr a)) p = muted a p.
Proof.
  induction n as [|n IH]; intros i hr a Hx; [done|].
  simpl.
  destruct (autoMuteSession_muted newProcId prevProcId i a p) as [Hm|[_ Hok]].
  - destruct (autoMuteSession env newProcId prevProcId i a) as [[b hr'] a'].
    cbn [snd] in Hm. destruct b; cbn [snd]; [done|].
    by rewrite IH.
  - unfold crossProcess in Hx. rewrite Hx in Hok. discriminate.
Qed.

Lemma AutoMuteRoutine_cross pSessionMgr newProcId prevProcId a p :
  crossProcess env p →
  muted (snd (AutoMuteRoutine env pSessionMgr newProcId prevProcId a)) p
  = muted a p.
Proof.
  intros Hx. unfold AutoMuteRoutine.
  repeat (destruct (decide _); [done|]).
  pose proof (autoMuteLoop_cross newProcId prevProcId p
                (Z.to_nat (numSessions env)) 0 (hrGetCount env) a Hx) as H.
  by destruct (autoMuteLoop _ _ _ _ _ _ _) as [hr a'].
Qed.

End CrossProcess.

Lemma WinEventProc_events_chain_witness :
  runSteps (demoEnv 9)
    [Hook (foreground 10%N); Consume; Hook (foreground 20%N);
     Hook (foreground 30%N); Consume]
    [] initGlobals demoAudio
  = ([(0, 10); (10, 20)]%N,
     mkGlobals 30%N [] ∅ [(20, 30)]%N, demoAudio) ∧
  chained 0%N ([(0, 10); (10, 20)]%N ++ [(20, 30)]%N).
Proof.
  assert (Hrun : runSteps (demoEnv 9)
    [Hook (foreground 10%N); Consume; Hook (foreground 20%N);
     Hook (foreground 30%N); Consume]
    [] initGlobals demoAudio
  = ([(0, 10); (10, 20)]%N,
     mkGlobals 30%N [] ∅ [(20, 30)]%N, demoAudio)) by reflexivity.
  split; [exact Hrun|].
  destruct (WinEventProc_events_chain (demoEnv 9) []) as (_ & _ & H).
  exact (H _ _ _ _ _ Hrun).
Defined.

(** ** The program on the concrete audio subsystem *)

(** With the first eight sessions enumerated the tracker gets ready: all
    eight are registered, the cross-process session 8 under key 42, and
    the registry holds one reference on each. *)
Example demo_startup_ready :
  let '(r, g, a) :=
    AudioThreadRoutine_startup (demoEnv 8) demoManager demoEvents
      initGlobals demoAudio in
  r = inr S_OK ∧
  sessionsList g =
    [(10, 1); (10, 2); (10, 3); (10, 4); (10, 5); (20, 6); (30, 7); (42, 8)]%N ∧
  refCount a 8%N = 2 ∧
  sessionNotification a = true.
Proof. by vm_compute. Qed.

(** From there, the foreground moving to process 10, then 20, then 42:
    the hook queues three events, and one wake-up of the consumer leaves
    the sessions of process 10 that accept the call and session 6 muted,
    session 2 as it was, and the cross-process session 8 unmuted after
    having taken part in the transition as a session of process 42. *)
Example demo_run :
  let '(_, g, a) :=
    AudioThreadRoutine_startup (demoEnv 8) demoManager demoEvents
      initGlobals demoAudio in
  let g := runHook [foreground 10%N; foreground 20%N; foreground 42%N] g in
  eventQueue g = [(0, 10); (10, 20); (20, 42)]%N ∧
  let '(applied, g', a') := drainQueue (demoEnv 8) g a in
  applied = [(0, 10); (10, 20); (20, 42)]%N ∧
  eventQueue g' = [] ∧
  (muted a' <$> [1; 2; 3; 4; 5; 6; 7; 8]%N)
    = [true; false; true; true; true; true; false; false].
Proof. by vm_compute. Qed.

(** With all nine sessions enumerated the registration of session 9
    fails after the eight before it have passed: the enumeration loop is
    the first step with a failing call. The start-up unregisters and
    releases the eight handles it has registered and ends in the delete
    of its listener. *)
Example demo_startup_loop_failure :
  startupFailsAt (demoEnv 9) initGlobals EnumerationLoop ∧
  let '(r, g, a) :=
    AudioThreadRoutine_startup (demoEnv 9) demoManager demoEvents
      initGlobals demoAudio in
  r = inl DeleteOfStackObject ∧
  length (sessionsList g) = 8%nat ∧
  (refCount a <$> [1; 2; 3; 4; 5; 6; 7; 8; 9]%N) = [1; 1; 1; 1; 1; 1; 1; 1; 1] ∧
  (sessionEvents a <$> [1; 2; 3; 4; 5; 6; 7; 8; 9]%N)
    = [false; false; false; false; false; false; false; false; false] ∧
  sessionNotification a = false.
Proof.
  split; [|by vm_compute].
  unfold startupFailsAt, managerAnswers.
  do 5 (split; [done|]).
  exists 8. split; [done|].
  assert (Hcases : ∀ j, 0 ≤ j < 8 →
            j = 0 ∨ j = 1 ∨ j = 2 ∨ j = 3 ∨ j = 4 ∨ j = 5 ∨ j = 6 ∨ j = 7)
    by (intros j Hj; lia).
  split.
  - intros j Hj.
    destruct (Hcases j Hj) as [->|[->|[->|[->|[->|[->|[->| ->]]]]]]];
      refine (bool_decide_unpack _ _); by vm_compute.
  - right. split; [refine (bool_decide_unpack _ _); by vm_compute|].
    split; [unfold initGlobals; cbn [sessionIdSet]; apply not_elem_of_empty|].
    intros j Hj.
    destruct (Hcases j Hj) as [->|[->|[->|[->|[->|[->|[->| ->]]]]]]];
      refine (bool_decide_unpack _ _); by vm_compute.
Qed.

(** * Further properties of the program *)

(** ** What a transition leaves alone *)

Section Resources.

Variable env : AudioEnv.

Lemma SetMute_keeps p b a :
  refCount (snd (SetMute env p b a)) = refCount a ∧
  sessionEvents (snd (SetMute env p b a)) = sessionEvents a ∧
  sessionNotification (snd (SetMute env p b a)) = sessionNotification a ∧
  comInitCount (snd (SetMute env p b a)) = comInitCount a.
Proof. unfold SetMute. cbn [snd]. by destruct (decide (_ = S_OK)). Qed.

Lemma setSessionMute_keeps b a p :
  (∀ h, refCount (setSessionMute env b a p) h = refCount a h) ∧
  sessionEvents (setSessionMute env b a p) = sessionEvents a ∧
  sessionNotification (setSessionMute env b a p) = sessionNotification a ∧
  comInitCount (setSessionMute env b a p) = comInitCount a.
Proof.
  unfold setSessionMute.
  destruct (decide (hrQueryVolume _ = S_OK)); [|done].
  destruct (SetMute_keeps p b (AddRef p a)) as (H1 & H2 & H3 & H4).
  split.
  - intros h. rewrite refCount_Release, H1, refCount_AddRef.
    destruct (decide (p = h)); lia.
  - unfold Release, set_refCount.
    cbn [sessionEvents sessionNotification comInitCount].
    by rewrite H2, H3, H4.
Qed.

Lemma setAll_keeps b ps : ∀ a,
  (∀ h, refCount (fold_left (setSessionMute env b) ps a) h = refCount a h) ∧
  sessionEvents (fold_left (setSessionMute env b) ps a) = sessionEvents a ∧
  sessionNotification (fold_left (setSessionMute env b) ps a)
    = sessionNotification a ∧
  comInitCount (fold_left (setSessionMute env b) ps a) = comInitCount a.
Proof.
  induction ps as [|p ps IH]; intros a; [done|]. simpl.
  destruct (IH (setSessionMute env b a p)) as (H1 & -> & -> & ->).
  destruct (setSessionMute_keeps b a p) as (K1 & -> & -> & ->).
  split; [|done]. intros h. by rewrite H1, K1.
Qed.

(** X1. SwitchMuteStates gives back every reference it takes: whatever the
    ids, the registry and the answers of the calls, it leaves the
    reference count of every object, the notification registrations and
    the COM initialisation as they were. It changes mute states and
    nothing else. *)
Theorem SwitchMuteStates_keeps_resources (oldProc newProc : DWORD)
  (g : Globals) (a : Audio) :
  let a' := SwitchMuteStates env oldProc newProc g a in
  (∀ h, refCount a' h = refCount a h) ∧
  sessionEvents a' = sessionEvents a ∧
  sessionNotification a' = sessionNotification a ∧
  comInitCount a' = comInitCount a.
Proof.
  intros a'. subst a'. rewrite SwitchMuteStates_loops.
  destruct (setAll_keeps false (sessionsFor newProc g)
              (fold_left (setSessionMute env true) (sessionsFor oldProc g) a))
    as (H1 & -> & -> & ->).
  destruct (setAll_keeps true (sessionsFor oldProc g) a) as (K1 & -> & -> & ->).
  split; [|done]. intros h. by rewrite H1, K1.
Qed.

End Resources.

(** ** From focus changes to mute states *)

Section Focus.

Variable env : AudioEnv.

Lemma chained_app es : ∀ prev e,
  chained prev (es ++ [e]) ↔
  chained prev es ∧ fst e = List.last (snd <$> es) prev.
Proof.
  induction es as [|x es IH]; intros prev e.
  - simpl. tauto.
  - change (chained prev ((x :: es) ++ [e]))
      with (fst x = prev ∧ chained (snd x) (es ++ [e])).
    rewrite IH.
    change (chained prev (x :: es)) with (fst x = prev ∧ chained (snd x) es).
    assert (Hl : List.last (snd <$> (x :: es)) prev
                 = List.last (snd <$> es) (snd x)).
    { destruct es as [|y es]; [done|].
      change (List.last (snd y :: (snd <$> es)) prev =
              List.last (snd y :: (snd <$> es)) (snd x)).
      apply last_cons_default. }
    rewrite Hl. tauto.
Qed.

Lemma last_snoc_snd (es : list (DWORD * DWORD)) e prev :
  List.last (snd <$> (es ++ [e])) prev = snd e.
Proof. rewrite fmap_app. simpl. apply last_last. Qed.

Lemma applyTransitions_snoc es e g a :
  applyTransitions env (es ++ [e]) g a =
  SwitchMuteStates env (fst e) (snd e) g (applyTransitions env es g a).
Proof. unfold applyTransitions. by rewrite fold_left_app. Qed.

(** After a chain of transitions, the process the chain ends at is the one
    whose sessions are unmuted; every other process the chain went
    through has its sessions muted. *)
Lemma applyTransitions_focus g a es : ∀ prev,
  chained prev es →
  Forall (fun e => fst e ≠ snd e) es →
  single_owner (sessionsList g) →
  ∀ Q s, involved Q es → s ∈ sessionsFor Q g → controllable env s →
         muted (applyTransitions env es g a) s
         = bool_decide (Q ≠ List.last (snd <$> es) prev).
Proof.
  induction es as [|e es IH] using rev_ind; intros prev Hch Hd Hso Q s Hinv Hs Hc.
  - destruct Hinv as (e & He & _). by apply elem_of_nil in He.
  - apply chained_app in Hch as [Hch Hfst].
    apply Forall_app in Hd as [Hd He]. apply Forall_cons in He as [He _].
    simpl in He.
    rewrite last_snoc_snd, applyTransitions_snoc.
    destruct (decide (Q = snd e)) as [->|Hn].
    { rewrite bool_decide_eq_false_2 by (intros H; by apply H).
      by apply SwitchMuteStates_new. }
    rewrite bool_decide_eq_true_2 by done.
    destruct (decide (Q = fst e)) as [->|Ho].
    { apply SwitchMuteStates_old; [done| |done].
      by apply (single_owner_apart g (fst e) (snd e)). }
    rewrite SwitchMuteStates_frame.
    + rewrite (IH prev Hch Hd Hso Q s); try done.
      * apply bool_decide_eq_true_2. by rewrite <- Hfst.
      * destruct Hinv as (x & Hx & HQ).
        apply elem_of_app in Hx as [Hx|Hx]; [by exists x|].
        apply list_elem_of_singleton in Hx as ->. by destruct HQ.
    + by apply (single_owner_apart g Q (fst e)).
    + by apply (single_owner_apart g Q (snd e)).
Qed.

(** A chain of transitions touches the sessions of the processes it goes
    through only. *)
Lemma applyTransitions_frame g a es : ∀ s,
  (∀ Q, involved Q es → s ∉ sessionsFor Q g) →
  muted (applyTransitions env es g a) s = muted a s.
Proof.
  induction es as [|e es IH] using rev_ind; intros s Hs; [done|].
  rewrite applyTransitions_snoc, SwitchMuteStates_frame.
  - apply IH. intros Q (x & Hx & HQ). apply Hs. exists x.
    split; [|done]. apply elem_of_app. by left.
  - apply Hs. exists e. split; [|by left]. apply elem_of_app. right.
    apply list_elem_of_here.
  - apply Hs. exists e. split; [|by right]. apply elem_of_app. right.
    apply list_elem_of_here.
Qed.

(** X2. The hook followed by one wake-up of the consumer does what the
    program is for. Starting with an empty queue and a registry in which
    every handle has one owner, after any run of hook invocations and one
    drain: the queue is empty; the sessions of the process the hook now
    remembers are unmuted and the sessions of every other process that
    occurs in an enqueued event are muted (for sessions that accept the
    mute calls); a session registered under no process of an enqueued
    event keeps its mute state. *)
Theorem focus_follows_foreground (cs : list WinEvent) (g : Globals) (a : Audio) :
  eventQueue g = [] →
  single_owner (sessionsList g) →
  let g1 := runHook cs g in
  ∃ g2 a',
    drainQueue env g1 a = (eventQueue g1, g2, a') ∧
    eventQueue g2 = [] ∧
    oldProcessId g2 = oldProcessId g1 ∧
    (∀ Q s, involved Q (eventQueue g1) → s ∈ sessionsFor Q g →
            controllable env s →
            muted a' s = bool_decide (Q ≠ oldProcessId g1)) ∧
    (∀ s, (∀ Q, involved Q (eventQueue g1) → s ∉ sessionsFor Q g) →
          muted a' s = muted a s).
Proof.
  intros Hq Hso g1.
  destruct (runHook_events cs g) as (es & Hes & Hch & Hold & Hd & _).
  rewrite Hq in Hes. simpl in Hes.
  assert (Hl : sessionsList g1 = sessionsList g) by apply runHook_sessionsList.
  exists (set_eventQueue [] g1), (applyTransitions env (eventQueue g1) g1 a).
  split; [unfold drainQueue; by apply drainLoop_all|].
  split; [done|]. split; [done|].
  fold g1 in Hes, Hold. rewrite Hes, Hold.
  rewrite (applyTransitions_ext env es g1 g a Hl). split.
  - intros Q s Hinv Hs Hc.
    by apply (applyTransitions_focus g a es (oldProcessId g)).
  - intros s Hs. by apply applyTransitions_frame.
Qed.

(** X3. A wake-up with nothing queued does nothing, so a second drain
    right after a drain applies no transition and changes nothing. *)
Theorem drainQueue_twice (g : Globals) (a : Audio) :
  (eventQueue g = [] → drainQueue env g a = ([], g, a)) ∧
  let '(_, g1, a1) := drainQueue env g a in
  drainQueue env g1 a1 = ([], g1, a1).
Proof.
  assert (Hempty : ∀ g0 a0, eventQueue g0 = [] →
                            drainQueue env g0 a0 = ([], g0, a0)).
  { intros g0 a0 H0. unfold drainQueue. rewrite H0. done. }
  split; [apply Hempty|].
  unfold drainQueue at 1. rewrite drainLoop_all by done.
  by apply Hempty.
Qed.

End Focus.

(** X4. Hook invocations that are not foreground changes of a window leave
    no trace: a run of the hook equals the run over the accepted
    invocations alone. The hook never touches the registry, never removes
    or reorders queued events, and enqueues at most one event for each
    accepted invocation. *)
Theorem runHook_accepted (cs : list WinEvent) (g : Globals) :
  runHook cs g = runHook (filter accepted cs) g ∧
  sessionsList (runHook cs g) = sessionsList g ∧
  sessionIdSet (runHook cs g) = sessionIdSet g ∧
  ∃ es, eventQueue (runHook cs g) = eventQueue g ++ es ∧
        (length es ≤ length (filter accepted cs))%nat.
Proof.
  revert g. induction cs as [|c cs IH]; intros g.
  - repeat split; try done. exists []. by rewrite app_nil_r.
  - unfold runHook in *. simpl. rewrite filter_cons.
    destruct (decide (accepted c)) as [Hacc|Hrej].
    + simpl. destruct (IH (WinEventProc c g)) as (H1 & H2 & H3 & es & H4 & H5).
      split; [exact H1|]. rewrite H2, H3, H4.
      destruct (WinEventProc_cases c g) as [->|[_ ->]].
      * repeat split; try done. exists es. split; [done|]. simpl. lia.
      * repeat split; try done. simpl.
        exists ((oldProcessId g, switchedProcessId c) :: es).
        split; [by rewrite <- app_assoc|]. simpl. lia.
    + assert (Hid : WinEventProc c g = g).
      { unfold WinEventProc. by rewrite decide_False. }
      rewrite Hid. apply IH.
Qed.

Lemma focus_follows_foreground_witness :
  let cs := [foreground 10%N; foreground 20%N; mkWinEvent 5%N 1%N 0 0 30%N;
             foreground 20%N; foreground 10%N] in
  eventQueue demoGlobals = [] ∧
  single_owner (sessionsList demoGlobals) ∧
  eventQueue (runHook cs demoGlobals) = [(0, 10); (10, 20); (20, 10)]%N ∧
  ∃ g2 a',
    drainQueue (demoEnv 9) (runHook cs demoGlobals) mutedAudio
      = ([(0, 10); (10, 20); (20, 10)]%N, g2, a') ∧
    muted a' 1%N = false ∧ muted a' 3%N = false ∧ muted a' 6%N = true ∧
    muted a' 7%N = true.
Proof.
  intros cs.
  split; [reflexivity|]. split; [apply demoGlobals_single_owner|].
  split; [reflexivity|].
  destruct (focus_follows_foreground (demoEnv 9) cs demoGlobals mutedAudio
              eq_refl demoGlobals_single_owner)
    as (g2 & a' & Hd & _ & _ & Hf & Hframe).
  exists g2, a'. split; [exact Hd|].
  assert (Hin : ∀ k h, (k, h) ∈ sessionsList demoGlobals →
                       h ∈ sessionsFor k demoGlobals).
  { intros k h Hkh. by apply elem_of_equal_range. }
  assert (H10 : involved 10%N (eventQueue (runHook cs demoGlobals))).
  { exists (0, 10)%N. split; [apply list_elem_of_here|by right]. }
  assert (H20 : involved 20%N (eventQueue (runHook cs demoGlobals))).
  { exists (10, 20)%N. split; [|by right].
    apply list_elem_of_further, list_elem_of_here. }
  split; [|split; [|split]].
  - apply (Hf 10%N 1%N H10); [|by apply demo_controllable].
    apply Hin. apply list_elem_of_here.
  - apply (Hf 10%N 3%N H10); [|by apply demo_controllable].
    apply Hin. apply list_elem_of_further, list_elem_of_here.
  - apply (Hf 20%N 6%N H20); [|by apply demo_controllable].
    apply Hin. do 2 apply list_elem_of_further. apply list_elem_of_here.
  - rewrite (Hframe 7%N); [done|].
    intros Q (e & He & HQ) Hs.
    apply elem_of_equal_range in Hs.
    assert (HQ30 : Q = 30%N).
    { vm_compute in Hs.
      repeat (apply elem_of_cons in Hs as [Hs|Hs];
              [by inversion Hs|]).
      by apply elem_of_nil in Hs. }
    subst Q. vm_compute in He.
    repeat (apply elem_of_cons in He as [->|He];
            [by destruct HQ|]).
    by apply elem_of_nil in He.
Defined.

(** ** More on the registry *)

Section RegistryMore.

Variable env : AudioEnv.

(** The ways AddAudioSession can end. *)
Lemma AddAudioSession_cases pSession pEvents g a :
  let s := session env pSession in
  let r := AddAudioSession env pSession pEvents g a in
  (r = (fst (fst r), g, a)) ∨
  ((fullSessionId s ∉ sessionIdSet g) ∧
   fst (fst r) = hrRegisterAudioSessionNotification s ∧
   fst (fst r) ≠ S_OK ∧ fst (fst r) ≠ E_POINTER ∧
   snd (fst r) = set_sessionIdSet ({[fullSessionId s]} ∪ sessionIdSet g) g ∧
   snd r = a) ∨
  ((fullSessionId s ∉ sessionIdSet g) ∧
   fst (fst r) = hrRegisterAudioSessionNotification s ∧
   (fst (fst r) = S_OK ∨ fst (fst r) = E_POINTER) ∧
   snd (fst r) =
     set_sessionsList (sessionsList g ++ [(processId s, pSession)])
       (set_sessionIdSet ({[fullSessionId s]} ∪ sessionIdSet g) g) ∧
   snd r = AddRef pSession
             (snd (RegisterAudioSessionNotification env pSession pEvents a))).
Proof.
  intros s r. subst s r. unfold AddAudioSession.
  destruct (decide (pSession = NULL)); [by left|].
  destruct (decide (hrGetDisplayName _ ≠ S_OK)); [by left|].
  destruct (decide (hrGetSessionIdentifier _ ≠ S_OK)); [by left|].
  destruct (decide (hrGetSessionInstanceIdentifier _ ≠ S_OK)); [by left|].
  destruct (decide (_ ∧ _)); [by left|].
  destruct (decide (_ ∈ _)) as [|Hfresh]; [by left|].
  unfold RegisterAudioSessionNotification. cbv zeta.
  destruct (decide (_ ∧ _)) as [[H1 H2]|Hn]; right.
  - left. cbn [fst snd]. rewrite (decide_False (P := _ = S_OK)) by done.
    done.
  - right. cbn [fst snd]. repeat split; try done.
    destruct (decide (hrRegisterAudioSessionNotification
                        (session env pSession) = S_OK)); [by left|].
    right. apply dec_stable. intros H. apply Hn. by split.
Qed.

(** X5. Registration followed by lookup. For a readable session with a new
    identity whose notification registration answers S_OK or E_POINTER,
    AddAudioSession answers that code, appends the one entry (process id,
    handle), adds the identity to the set and takes one reference on the
    handle and on nothing else; afterwards the handle is found under its
    process id, and what is found under every other id is as before. *)
Theorem AddAudioSession_registers (pSession pEvents : ptr) (g : Globals)
  (a : Audio) :
  identifiable env pSession →
  fullSessionId (session env pSession) ∉ sessionIdSet g →
  hrRegisterAudioSessionNotification (session env pSession) = S_OK ∨
  hrRegisterAudioSessionNotification (session env pSession) = E_POINTER →
  let s := session env pSession in
  let '(hr, g', a') := AddAudioSession env pSession pEvents g a in
  hr = hrRegisterAudioSessionNotification s ∧
  sessionsList g' = sessionsList g ++ [(processId s, pSession)] ∧
  sessionIdSet g' = {[fullSessionId s]} ∪ sessionIdSet g ∧
  pSession ∈ sessionsFor (processId s) g' ∧
  (∀ k, k ≠ processId s → sessionsFor k g' = sessionsFor k g) ∧
  (∀ h, refCount a' h = refCount a h + (if decide (pSession = h) then 1 else 0)) ∧
  sessionEvents a' pSession
    = (if decide (hr = S_OK) then true else sessionEvents a pSession).
Proof.
  intros Hid Hfresh Hreg s. subst s. rewrite AddAudioSession_fresh by done.
  unfold RegisterAudioSessionNotification. cbv zeta.
  rewrite (decide_False (P := _ ∧ _)) by (intros [H1 H2]; by destruct Hreg).
  split; [done|]. split; [done|]. split; [done|]. split; [|split; [|split]].
  - unfold sessionsFor. apply elem_of_equal_range. simpl.
    apply elem_of_app. right. apply list_elem_of_here.
  - intros k Hk. unfold sessionsFor, equal_range. simpl.
    rewrite filter_app, filter_cons, filter_nil. simpl.
    rewrite decide_False by done. by rewrite app_nil_r.
  - intros h. rewrite refCount_AddRef.
    by destruct (decide (_ = S_OK)).
  - destruct (decide (_ = S_OK)); [|done]. simpl.
    unfold insert, fn_insert. by rewrite decide_True.
Qed.

(** X6. AddAudioSession only ever adds. On every path the old registry is
    kept as it is or extended at its end by one entry for this handle, and
    the entry is added only when the call answers S_OK or E_POINTER; the
    identity set keeps its elements and gains at most this session's
    identity; the event queue and the remembered process id are not
    touched, no mute state changes and SetMute is not called. *)
Theorem AddAudioSession_only_adds (pSession pEvents : ptr) (g : Globals)
  (a : Audio) :
  let s := session env pSession in
  let '(hr, g', a') := AddAudioSession env pSession pEvents g a in
  (sessionsList g' = sessionsList g ∨
   (sessionsList g' = sessionsList g ++ [(processId s, pSession)] ∧
    (hr = S_OK ∨ hr = E_POINTER))) ∧
  sessionIdSet g ⊆ sessionIdSet g' ∧
  sessionIdSet g' ⊆ {[fullSessionId s]} ∪ sessionIdSet g ∧
  eventQueue g' = eventQueue g ∧
  oldProcessId g' = oldProcessId g ∧
  muted a' = muted a ∧
  muteCalls a' = muteCalls a.
Proof.
  intros s. subst s.
  pose proof (AddAudioSession_cases pSession pEvents g a) as H.
  cbv zeta in H.
  destruct (AddAudioSession env pSession pEvents g a) as [[hr g'] a'].
  cbn [fst snd] in H.
  destruct H as [H|[(_ & _ & _ & _ & -> & ->)|(_ & Hhr & Hok & -> & ->)]].
  - injection H as -> ->. repeat split; try done; [by left|set_solver].
  - simpl. repeat split; try done; [by left|set_solver].
  - simpl. unfold RegisterAudioSessionNotification. cbn [snd].
    split; [by right|]. clear Hhr Hok.
    repeat split; try done; try set_solver.
    + by destruct (decide (_ = S_OK)).
    + by destruct (decide (_ = S_OK)).
Qed.

Lemma OnSessionCreated_unfold pNewSession pEvents g a :
  pNewSession ≠ NULL →
  hrQueryControl2 (session env pNewSession) = S_OK →
  OnSessionCreated env pNewSession pEvents g a =
  let r := AddAudioSession env pNewSession pEvents g (AddRef pNewSession a) in
  (fst (fst r), snd (fst r), Release pNewSession (snd r)).
Proof.
  intros Hn Hq. unfold OnSessionCreated.
  rewrite decide_False by done. rewrite Hq.
  rewrite decide_False by (intros H; by apply H).
  by destruct (AddAudioSession _ _ _ _ _) as [[hr g'] a'].
Qed.

(** X7. The race between the enumeration and the creation notification,
    taken in either order. When a readable session has been handed to
    AddAudioSession by the enumeration, a creation notification for the
    same session answers S_OK, leaves the globals as they are and leaves
    every reference count as it is; and the other way round, when the
    notification came first, the enumeration's AddAudioSession answers
    S_OK and changes nothing. The callback gives back the reference it
    took for itself also when it is turned away (null pointer, failing
    QueryInterface): then it changes nothing at all. *)
Theorem OnSessionCreated_race (p pEvents : ptr) (g : Globals) (a : Audio) :
  (identifiable env p →
   hrQueryControl2 (session env p) = S_OK →
   (let '(_, g1, a1) := AddAudioSession env p pEvents g a in
    let '(hr, g2, a2) := OnSessionCreated env p pEvents g1 a1 in
    hr = S_OK ∧ g2 = g1 ∧ (∀ h, refCount a2 h = refCount a1 h) ∧
    sessionEvents a2 = sessionEvents a1) ∧
   (let '(_, g1, a1) := OnSessionCreated env p pEvents g a in
    AddAudioSession env p pEvents g1 a1 = (S_OK, g1, a1))) ∧
  (p = NULL ∨ hrQueryControl2 (session env p) ≠ S_OK →
   ∃ hr, OnSessionCreated env p pEvents g a = (hr, g, a) ∧ hr ≠ S_OK).
Proof.
  split.
  - intros Hid Hq. split.
    + pose proof (AddAudioSession_records env p pEvents g a Hid) as Hrec.
      destruct (AddAudioSession env p pEvents g a) as [[hr1 g1] a1].
      cbn [fst snd] in Hrec.
      rewrite OnSessionCreated_unfold by (done || by destruct Hid).
      destruct (AddAudioSession_known env p pEvents g1 (AddRef p a1) Hrec)
        as (hr & -> & Hok).
      cbn [fst snd]. split; [by apply Hok|]. split; [done|]. split; [|done].
      intros h. rewrite refCount_Release, refCount_AddRef.
      destruct (decide (p = h)); lia.
    + rewrite OnSessionCreated_unfold by (done || by destruct Hid).
      pose proof (AddAudioSession_records env p pEvents g (AddRef p a) Hid)
        as Hrec.
      destruct (AddAudioSession env p pEvents g (AddRef p a)) as [[hr1 g1] a1].
      cbn [fst snd] in *.
      destruct (AddAudioSession_known env p pEvents g1 (Release p a1) Hrec)
        as (hr & -> & Hok).
      by rewrite Hok.
  - intros Hbad. unfold OnSessionCreated.
    destruct (decide (p = NULL)); [by exists E_POINTER|].
    destruct Hbad as [?|Hq]; [done|].
    rewrite decide_True by done. by eexists.
Qed.

(** X8. GetIAudioSessionManager2 answers S_OK exactly when it is handed
    the address of a null pointer and CoCreateInstance,
    GetDefaultAudioEndpoint and Activate all answer S_OK, and it then
    stores the manager there. In every other case the pointer is left as
    it was, so the caller has nothing to release: E_POINTER for a null
    address, E_UNEXPECTED for a pointer that is not null, else the code of
    the first call that did not answer S_OK. *)
Theorem GetIAudioSessionManager2_result (manager : ptr)
  (ppSessionManager : option ptr) :
  let '(hr, pp') := GetIAudioSessionManager2 env manager ppSessionManager in
  (hr = S_OK ↔
   ppSessionManager = Some NULL ∧ hrCoCreateInstance env = S_OK ∧
   hrGetDefaultAudioEndpoint env = S_OK ∧ hrActivate env = S_OK) ∧
  (hr = S_OK → pp' = Some manager) ∧
  (hr ≠ S_OK → pp' = ppSessionManager) ∧
  (ppSessionManager = None → hr = E_POINTER) ∧
  (∀ p, ppSessionManager = Some p → p ≠ NULL → hr = E_UNEXPECTED) ∧
  (ppSessionManager = Some NULL →
   hr = (if decide (hrCoCreateInstance env ≠ S_OK)
         then hrCoCreateInstance env
         else if decide (hrGetDefaultAudioEndpoint env ≠ S_OK)
              then hrGetDefaultAudioEndpoint env
              else hrActivate env)).
Proof.
  unfold GetIAudioSessionManager2.
  destruct ppSessionManager as [p|].
  - destruct (decide (p ≠ NULL)) as [Hp|Hp].
    + split; [split; [done|]|].
      { intros (Heq & _). by injection Heq. }
      split; [done|]. split; [done|]. split; [done|].
      split; [by intros q [= <-] _|].
      intros Heq. by injection Heq.
    + apply dec_stable in Hp. subst p.
      destruct (decide (hrCoCreateInstance env ≠ S_OK)) as [H1|H1].
      { split; [split; [done|by intros (_ & ? & _)]|].
        split; [done|]. split; [done|]. split; [done|].
        split; [by intros q [= <-] ?|done]. }
      destruct (decide (hrGetDefaultAudioEndpoint env ≠ S_OK)) as [H2|H2].
      { split; [split; [done|by intros (_ & _ & ? & _)]|].
        split; [done|]. split; [done|]. split; [done|].
        split; [by intros q [= <-] ?|done]. }
      apply dec_stable in H1, H2.
      destruct (decide (hrActivate env = S_OK)) as [H3|H3].
      * split; [split; [done|by intros _]|].
        split; [done|]. split; [done|]. split; [done|].
        split; [by intros q [= <-] ?|done].
      * split; [split; [done|by intros (_ & _ & _ & ?)]|].
        split; [done|]. split; [done|]. split; [done|].
        split; [by intros q [= <-] ?|done].
  - split; [split; [done|by intros (? & _)]|].
    split; [done|]. split; [done|]. split; [done|]. split; [done|done].
Qed.

End RegistryMore.

Lemma AddAudioSession_registers_witness :
  identifiable (demoEnv 9) 6%N ∧
  (fullSessionId (session (demoEnv 9) 6%N) ∉ sessionIdSet initGlobals) ∧
  (hrRegisterAudioSessionNotification (session (demoEnv 9) 6%N) = S_OK ∨
   hrRegisterAudioSessionNotification (session (demoEnv 9) 6%N) = E_POINTER) ∧
  (let '(hr, g', a') :=
     AddAudioSession (demoEnv 9) 6%N demoEvents initGlobals demoAudio in
   hr = S_OK ∧ sessionsFor 20%N g' = [6%N] ∧ sessionsFor 10%N g' = [] ∧
   refCount a' 6%N = 2 ∧ sessionEvents a' 6%N = true).
Proof.
  assert (H1 : identifiable (demoEnv 9) 6%N) by (by apply demo_identifiable).
  assert (H2 : fullSessionId (session (demoEnv 9) 6%N) ∉ sessionIdSet initGlobals)
    by (simpl; set_solver).
  assert (H3 : hrRegisterAudioSessionNotification (session (demoEnv 9) 6%N) = S_OK ∨
               hrRegisterAudioSessionNotification (session (demoEnv 9) 6%N)
               = E_POINTER) by (by left).
  split; [exact H1|]. split; [exact H2|]. split; [exact H3|].
  pose proof (AddAudioSession_registers (demoEnv 9) 6%N demoEvents initGlobals
                demoAudio H1 H2 H3) as H.
  cbv zeta in H.
  destruct (AddAudioSession (demoEnv 9) 6%N demoEvents initGlobals demoAudio)
    as [[hr g'] a'].
  destruct H as (Hhr & Hl & _ & _ & Hk & Hrc & Hse).
  split; [by rewrite Hhr|]. split; [unfold sessionsFor; by rewrite Hl|].
  split; [by rewrite (Hk 10%N)|]. split; [by rewrite Hrc|].
  rewrite Hse, Hhr. done.
Defined.

Lemma OnSessionCreated_race_witness :
  identifiable (demoEnv 9) 6%N ∧
  hrQueryControl2 (session (demoEnv 9) 6%N) = S_OK ∧
  (let '(_, g1, a1) :=
     AddAudioSession (demoEnv 9) 6%N demoEvents initGlobals demoAudio in
   let '(hr, g2, a2) := OnSessionCreated (demoEnv 9) 6%N demoEvents g1 a1 in
   hr = S_OK ∧ sessionsList g2 = [(20, 6)]%N ∧ refCount a2 6%N = 2).
Proof.
  assert (H1 : identifiable (demoEnv 9) 6%N) by (by apply demo_identifiable).
  split; [exact H1|]. split; [reflexivity|].
  destruct (OnSessionCreated_race (demoEnv 9) 6%N demoEvents initGlobals
              demoAudio) as [H _].
  destruct (H H1 eq_refl) as [Hrace _].
  destruct (AddAudioSession (demoEnv 9) 6%N demoEvents initGlobals demoAudio)
    as [[hr1 g1] a1] eqn:Hadd.
  destruct (OnSessionCreated (demoEnv 9) 6%N demoEvents g1 a1)
    as [[hr g2] a2].
  destruct Hrace as (-> & -> & Hrc & _).
  split; [done|]. rewrite Hrc.
  assert (Hg : g1 = snd (fst (AddAudioSession (demoEnv 9) 6%N demoEvents
                                initGlobals demoAudio))) by (by rewrite Hadd).
  assert (Ha : a1 = snd (AddAudioSession (demoEnv 9) 6%N demoEvents
                           initGlobals demoAudio)) by (by rewrite Hadd).
  rewrite Hg, Ha. split; reflexivity.
Defined.

(** ** The tracker thread from start to end *)

Section Lifecycle.

Variable env : AudioEnv.

Local Arguments occurrences : simpl never.

Lemma grows_refl g a : grows g a g a.
Proof. by repeat split. Qed.

Lemma grows_trans g1 a1 g2 a2 g3 a3 :
  grows g1 a1 g2 a2 → grows g2 a2 g3 a3 → grows g1 a1 g3 a3.
Proof.
  intros (H1 & H2 & H3 & H4 & H5 & H6) (K1 & K2 & K3 & K4 & K5 & K6).
  split; [by etrans|]. split; [by etrans|].
  repeat split; congruence.
Qed.

Lemma AddAudioSession_grows p ev g a :
  grows g a (snd (fst (AddAudioSession env p ev g a)))
            (snd (AddAudioSession env p ev g a)).
Proof.
  pose proof (AddAudioSession_cases env p ev g a) as H. cbv zeta in H.
  destruct (AddAudioSession env p ev g a) as [[hr g'] a'].
  cbn [fst snd] in *.
  destruct H as [H|[(_ & _ & _ & _ & -> & ->)|(_ & _ & _ & -> & ->)]].
  - injection H as -> ->. apply grows_refl.
  - repeat split; try done. simpl. set_solver.
  - unfold RegisterAudioSessionNotification. cbn [snd].
    split; [simpl; by apply prefix_app_r|].
    split; [simpl; set_solver|].
    repeat split; try done; by destruct (decide (_ = S_OK)).
Qed.

Lemma enumerateSession_grows ev i g a :
  grows g a (snd (fst (enumerateSession env ev i g a)))
            (snd (enumerateSession env ev i g a)).
Proof.
  unfold enumerateSession. cbv zeta.
  destruct (decide (hrGetSession env i ≠ S_OK)); [apply grows_refl|].
  destruct (decide (hrQueryControl2 _ ≠ S_OK)).
  { cbn [fst snd]. repeat split; try done;
      by destruct (decide (hrQueryControl2 _ = S_OK)). }
  match goal with
  | |- context [AddAudioSession env ?p ev g ?x] =>
    pose proof (AddAudioSession_grows p ev g x) as H;
    destruct (AddAudioSession env p ev g x) as [[hr g'] a']
  end.
  cbn [fst snd] in H.
  assert (Hg : grows g a g' (Release (enumSession env i) a')).
  { destruct H as (H1 & H2 & H3 & H4 & H5 & H6).
    repeat split; try done.
    - rewrite muted_Release, H5. by destruct (decide (_ = S_OK)).
    - change (muteCalls a' = muteCalls a). rewrite H6.
      by destruct (decide (_ = S_OK)). }
  by destruct (decide (_ ∧ _)).
Qed.

Lemma enumerateSessions_grows ev n : ∀ i hr g a,
  grows g a (snd (fst (enumerateSessions env ev n i hr g a)))
            (snd (enumerateSessions env ev n i hr g a)).
Proof.
  induction n as [|n IH]; intros i hr g a; [apply grows_refl|].
  simpl. pose proof (enumerateSession_grows ev i g a) as Hb.
  destruct (enumerateSession env ev i g a) as [[[b hr'] g'] a'].
  cbn [fst snd] in Hb. destruct b; [done|].
  eapply grows_trans; [exact Hb|apply IH].
Qed.

Lemma releaseSessions_muteCalls ev l : ∀ a,
  muteCalls (releaseSessions ev l a) = muteCalls a.
Proof.
  induction l as [|e l IH]; intros a; [done|].
  unfold releaseSessions in *. simpl. by rewrite IH.
Qed.

Lemma unwind_grows ev g a a0 gL :
  grows g a gL a0 →
  grows g a gL
    (releaseSessions ev (sessionsList gL) (UnregisterSessionNotification a0)).
Proof.
  intros (H1 & H2 & H3 & H4 & H5 & H6). repeat split; try done.
  - destruct (releaseSessions_other ev (sessionsList gL)
                (UnregisterSessionNotification a0)) as (_ & _ & ->). done.
  - by rewrite releaseSessions_muteCalls.
Qed.

(** The enumeration loop ends with the code it started with, the code of
    a call that stopped it, or the code of the last registration. It can
    go on past an iteration only on S_OK or AUDCLNT_S_NO_SINGLE_PROCESS. *)
Lemma enumerateSession_continues ev i g a :
  fst (fst (fst (enumerateSession env ev i g a))) = false →
  snd (fst (fst (enumerateSession env ev i g a))) = S_OK ∨
  snd (fst (fst (enumerateSession env ev i g a))) = AUDCLNT_S_NO_SINGLE_PROCESS.
Proof.
  unfold enumerateSession. cbv zeta.
  destruct (decide (hrGetSession env i ≠ S_OK)); [done|].
  destruct (decide (hrQueryControl2 _ ≠ S_OK)); [done|].
  destruct (AddAudioSession _ _ _ _ _) as [[hr g'] a'].
  destruct (decide (_ ∧ _)) as [|Hn]; [done|]. cbn [fst snd]. intros _.
  destruct (decide (hr = S_OK)); [by left|]. right.
  apply dec_stable. intros H. apply Hn. by split.
Qed.

(** The three ways the start-up can end: with a return before the session
    notification was registered (codes 2 to 4), in the delete of the
    listener after the unwinding (the exits with codes 5 to 7), or
    ready. *)
Lemma startup_cases manager ev g a :
  let r := AudioThreadRoutine_startup env manager ev g a in
  (∃ c, fst (fst r) = inl (ReturnCode c) ∧ (2 ≤ c ≤ 4)%N ∧ snd (fst r) = g ∧
        sessionNotification (snd r) = sessionNotification a ∧
        refCount (snd r) = refCount a ∧
        sessionEvents (snd r) = sessionEvents a ∧
        comInitCount (snd r) = comInitCount a ∧
        muted (snd r) = muted a ∧ muteCalls (snd r) = muteCalls a) ∨
  (∃ aL, fst (fst r) = inl DeleteOfStackObject ∧
        (hrCoInitializeEx env = S_OK ∧
         fst (GetIAudioSessionManager2 env manager (Some NULL)) = S_OK ∧
         hrRegisterSessionNotification env = S_OK) ∧
        snd r = releaseSessions ev (sessionsList (snd (fst r)))
                  (UnregisterSessionNotification aL) ∧
        comInitCount aL = comInitCount a + 1 ∧
        (∀ h, refCount aL h - occurrences h (sessionsList (snd (fst r)))
              = refCount a h - occurrences h (sessionsList g)) ∧
        grows g a (snd (fst r)) aL) ∨
  (∃ hr, fst (fst r) = inr hr ∧
        (hr = S_OK ∨ hr = AUDCLNT_S_NO_SINGLE_PROCESS) ∧
        (hrCoInitializeEx env = S_OK ∧
         fst (GetIAudioSessionManager2 env manager (Some NULL)) = S_OK ∧
         hrRegisterSessionNotification env = S_OK ∧
         hrGetSessionEnumerator env = S_OK ∧ hrGetCount env = S_OK) ∧
        sessionNotification (snd r) = true ∧
        comInitCount (snd r) = comInitCount a + 1 ∧
        (∀ h, refCount (snd r) h - occurrences h (sessionsList (snd (fst r)))
              = refCount a h - occurrences h (sessionsList g)) ∧
        grows g a (snd (fst r)) (snd r)).
Proof.
  intros r. subst r.
  unfold AudioThreadRoutine_startup, CoInitializeEx,
    RegisterSessionNotification. cbv zeta.
  rewrite !AudioThreadRoutine_cleanup_new.
  destruct (GetIAudioSessionManager2 env manager (Some NULL)) as [hrM pMgr].
  cbn [fst snd].
  destruct (decide (hrCoInitializeEx env ≠ S_OK)) as [H1|H1].
  { left. exists 2%N. cbn [fst snd]. split; [done|]. split; [lia|].
    split; [done|].
    destruct (decide (hrCoInitializeEx env = S_FALSE)) as [Hf|Hf].
    - rewrite (decide_True (P := _ ∨ _)) by (by right).
      repeat split; try done. simpl. lia.
    - rewrite (decide_False (P := _ ∨ _)) by (by intros [?|?]). done. }
  apply dec_stable in H1. rewrite H1. known_codes.
  destruct (decide (hrM ≠ S_OK)) as [H2|H2].
  { left. exists 3%N. cbn [fst snd]. split; [done|]. split; [lia|].
    repeat split; try done. simpl. lia. }
  apply dec_stable in H2. subst hrM.
  destruct (decide (hrRegisterSessionNotification env ≠ S_OK)) as [H3|H3].
  { left. exists 4%N. cbn [fst snd]. split; [done|]. split; [lia|].
    rewrite (decide_False (P := _ = S_OK)) by done.
    repeat split; try done. simpl. lia. }
  apply dec_stable in H3. rewrite H3. known_codes.
  set (a3 := set_sessionNotification true
               (set_comInitCount (comInitCount a + 1) a)).
  assert (Hg3 : grows g a g a3) by (by repeat split).
  destruct (decide (hrGetSessionEnumerator env ≠ S_OK)) as [H4|H4].
  { right. left. exists a3. cbn [fst snd]. by repeat split. }
  apply dec_stable in H4.
  destruct (decide (hrGetCount env ≠ S_OK)) as [H5|H5].
  { right. left. exists a3. cbn [fst snd]. by repeat split. }
  apply dec_stable in H5.
  pose proof (enumerateSessions_balanced env ev (Z.to_nat (numSessions env)) 0
                (hrGetCount env) g a3) as (B1 & B2 & B3).
  pose proof (enumerateSessions_grows ev (Z.to_nat (numSessions env)) 0
                (hrGetCount env) g a3) as HgL.
  destruct (enumerateSessions env ev (Z.to_nat (numSessions env)) 0
              (hrGetCount env) g a3) as [[hrL gL] aL].
  cbn [fst snd] in B1, B2, B3, HgL.
  destruct (decide (hrL ≠ S_OK ∧ hrL ≠ AUDCLNT_S_NO_SINGLE_PROCESS))
    as [H6|H6].
  { right. left. exists aL. cbn [fst snd]. split; [done|]. split; [done|].
    split; [done|]. split; [exact B2|]. split; [exact B3|].
    by eapply grows_trans. }
  right. right. exists hrL. cbn [fst snd]. split; [done|]. split.
  { destruct (decide (hrL = S_OK)); [by left|]. right.
    apply dec_stable. intros H. apply H6. by split. }
  split; [done|]. split; [exact B1|]. split; [exact B2|]. split; [exact B3|].
  by eapply grows_trans.
Qed.

End Lifecycle.

Section LifecycleTheorems.

Variable env : AudioEnv.

Local Arguments occurrences : simpl never.

(** X9. How the start-up of the tracker can end. It returns 2, 3 or 4
    with the registry as it was and COM initialisation balanced; or it
    gets ready; or, having registered the session notification, it goes
    through one of the exits with the codes 5, 6 and 7, where it
    unregisters the notification again and then deletes its listener, an
    object on its own stack, with COM still initialised: it never returns
    5, 6 or 7. It gets ready only when CoInitializeEx, the manager
    acquisition, RegisterSessionNotification, GetSessionEnumerator and
    GetCount all answered S_OK, and then the session notification is
    registered and COM is initialised once more than before. In every case
    the registry was only extended, the event queue and the remembered
    process id were not touched, and no mute state was changed nor SetMute
    called. *)
Theorem AudioThreadRoutine_startup_outcome (manager pAudioEvents : ptr)
  (g : Globals) (a : Audio) :
  let '(r, g', a') := AudioThreadRoutine_startup env manager pAudioEvents g a in
  grows g a g' a' ∧
  match r with
  | inl (ReturnCode code) =>
    (2 ≤ code ≤ 4)%N ∧ g' = g ∧ comInitCount a' = comInitCount a
  | inl DeleteOfStackObject =>
    hrCoInitializeEx env = S_OK ∧
    fst (GetIAudioSessionManager2 env manager (Some NULL)) = S_OK ∧
    hrRegisterSessionNotification env = S_OK ∧
    sessionNotification a' = false ∧
    comInitCount a' = comInitCount a + 1
  | inr hr =>
    (hr = S_OK ∨ hr = AUDCLNT_S_NO_SINGLE_PROCESS) ∧
    hrCoInitializeEx env = S_OK ∧
    fst (GetIAudioSessionManager2 env manager (Some NULL)) = S_OK ∧
    hrRegisterSessionNotification env = S_OK ∧
    hrGetSessionEnumerator env = S_OK ∧
    hrGetCount env = S_OK ∧
    sessionNotification a' = true ∧
    comInitCount a' = comInitCount a + 1
  end.
Proof.
  pose proof (startup_cases env manager pAudioEvents g a) as H. cbv zeta in H.
  destruct (AudioThreadRoutine_startup env manager pAudioEvents g a)
    as [[r g'] a'].
  cbn [fst snd] in H.
  destruct H as [(c & -> & Hc & -> & _ & _ & _ & Hci & Hm & Hmc)
                |[(aL & -> & (H1 & H2 & H3) & -> & Hci & _ & Hg)
                 |(hr & -> & Hhr & (H1 & H2 & H3 & H4 & H5) & Hn & Hci & _ & Hg)]].
  - split; [by repeat split|]. split; [lia|by split].
  - destruct (unwind_released pAudioEvents g' aL) as (U1 & U2 & _).
    cbv zeta in U1, U2.
    split; [by apply unwind_grows|]. repeat split; try done. lia.
  - split; [done|]. by repeat split.
Qed.

Lemma AddAudioSession_exact_continues p ev g a :
  registry_exact env g →
  (∀ q, hrRegisterAudioSessionNotification (session env q)
        ≠ AUDCLNT_S_NO_SINGLE_PROCESS) →
  fst (fst (AddAudioSession env p ev g a)) = S_OK ∨
  fst (fst (AddAudioSession env p ev g a)) = AUDCLNT_S_NO_SINGLE_PROCESS →
  registry_exact env (snd (fst (AddAudioSession env p ev g a))).
Proof.
  intros Hex Hreg Hhr.
  pose proof (AddAudioSession_exact env p ev g a Hex) as Hkeep.
  pose proof (AddAudioSession_cases env p ev g a) as Hc. cbv zeta in Hc.
  destruct (AddAudioSession env p ev g a) as [[hr g'] a'].
  cbn [fst snd] in *.
  destruct Hhr as [-> | ->]; [apply Hkeep; by left|].
  destruct Hc as [H|[(_ & Hr & _)|(_ & _ & [Hr|Hr] & _)]].
  - injection H as -> _. done.
  - by destruct (Hreg p).
  - by rewrite AUDCLNT_S_NO_SINGLE_PROCESS_value in Hr.
  - by rewrite AUDCLNT_S_NO_SINGLE_PROCESS_value in Hr.
Qed.

Lemma enumerateSession_exact ev i g a :
  registry_exact env g →
  (∀ q, hrRegisterAudioSessionNotification (session env q)
        ≠ AUDCLNT_S_NO_SINGLE_PROCESS) →
  let r := enumerateSession env ev i g a in
  fst (fst (fst r)) = false ∨ snd (fst (fst r)) = S_OK ∨
  snd (fst (fst r)) = AUDCLNT_S_NO_SINGLE_PROCESS →
  registry_exact env (snd (fst r)).
Proof.
  intros Hex Hreg r. subst r. unfold enumerateSession. cbv zeta.
  destruct (decide (hrGetSession env i ≠ S_OK)); [done|].
  destruct (decide (hrQueryControl2 _ ≠ S_OK)); [done|].
  match goal with
  | |- context [AddAudioSession env ?p ev g ?x] =>
    pose proof (AddAudioSession_exact_continues p ev g x Hex Hreg) as H;
    destruct (AddAudioSession env p ev g x) as [[hr g'] a']
  end.
  cbn [fst snd] in H.
  destruct (decide (_ ∧ _)) as [[H1 H2]|Hn]; cbn [fst snd].
  - intros [?|[?|?]]; done.
  - intros _. apply H.
    destruct (decide (hr = S_OK)); [by left|]. right.
    apply dec_stable. intros Hx. apply Hn. by split.
Qed.

Lemma enumerateSessions_exact ev n : ∀ i hr g a,
  registry_exact env g →
  (∀ q, hrRegisterAudioSessionNotification (session env q)
        ≠ AUDCLNT_S_NO_SINGLE_PROCESS) →
  fst (fst (enumerateSessions env ev n i hr g a)) = S_OK ∨
  fst (fst (enumerateSessions env ev n i hr g a)) = AUDCLNT_S_NO_SINGLE_PROCESS →
  registry_exact env (snd (fst (enumerateSessions env ev n i hr g a))).
Proof.
  induction n as [|n IH]; intros i hr g a Hex Hreg; [done|].
  simpl. pose proof (enumerateSession_exact ev i g a Hex Hreg) as Hb.
  cbv zeta in Hb.
  destruct (enumerateSession env ev i g a) as [[[b hr'] g'] a'].
  cbn [fst snd] in Hb. destruct b; cbn [fst snd].
  - intros Hhr. apply Hb. by right.
  - apply IH; [|done]. apply Hb. by left.
Qed.

(** X10. A tracker that gets ready has a consistent registry. When the
    identity set and the mapping agree at the start (one handle in the
    mapping for each identity of the set, none for any other) and no
    RegisterAudioSessionNotification answers AUDCLNT_S_NO_SINGLE_PROCESS,
    then, if the start-up gets ready, they agree afterwards: an identity
    is in the set if and only if exactly one handle with that identity is
    in the mapping. *)
Theorem AudioThreadRoutine_ready_consistent (manager pAudioEvents : ptr)
  (g : Globals) (a : Audio) :
  registry_exact env g →
  (∀ q, hrRegisterAudioSessionNotification (session env q)
        ≠ AUDCLNT_S_NO_SINGLE_PROCESS) →
  ∀ hr g' a',
    AudioThreadRoutine_startup env manager pAudioEvents g a = (inr hr, g', a') →
    registry_exact env g' ∧ registry_invariant env g'.
Proof.
  intros Hex Hreg hr g' a'.
  unfold AudioThreadRoutine_startup, CoInitializeEx,
    RegisterSessionNotification. cbv zeta.
  destruct (GetIAudioSessionManager2 env manager (Some NULL)) as [hrM pMgr].
  cbn [fst snd].
  destruct (decide (hrCoInitializeEx env ≠ S_OK)); [done|].
  destruct (decide (hrM ≠ S_OK)); [done|].
  destruct (decide (hrRegisterSessionNotification env ≠ S_OK)); [done|].
  rewrite !AudioThreadRoutine_cleanup_new.
  destruct (decide (hrGetSessionEnumerator env ≠ S_OK)); [done|].
  destruct (decide (hrGetCount env ≠ S_OK)); [done|].
  match goal with
  | |- context [enumerateSessions env ?ev ?n ?i ?h ?g0 ?a0] =>
    pose proof (enumerateSessions_exact ev n i h g0 a0 Hex Hreg) as HL;
    destruct (enumerateSessions env ev n i h g0 a0) as [[hrL gL] aL]
  end.
  cbn [fst snd] in HL.
  destruct (decide (hrL ≠ S_OK ∧ hrL ≠ AUDCLNT_S_NO_SINGLE_PROCESS))
    as [|Hn]; [done|].
  intros [= <- <- <-].
  assert (Hex' : registry_exact env gL).
  { apply HL. destruct (decide (hrL = S_OK)); [by left|]. right.
    apply dec_stable. intros Hx. apply Hn. by split. }
  split; [exact Hex'|by apply registry_exact_invariant].
Qed.

Lemma SwitchMuteStates_keeps oldProc newProc g a :
  (∀ h, refCount (SwitchMuteStates env oldProc newProc g a) h = refCount a h) ∧
  sessionEvents (SwitchMuteStates env oldProc newProc g a) = sessionEvents a ∧
  sessionNotification (SwitchMuteStates env oldProc newProc g a)
    = sessionNotification a ∧
  comInitCount (SwitchMuteStates env oldProc newProc g a) = comInitCount a.
Proof.
  rewrite SwitchMuteStates_loops.
  destruct (setAll_keeps env false (sessionsFor newProc g)
              (fold_left (setSessionMute env true) (sessionsFor oldProc g) a))
    as (H1 & -> & -> & ->).
  destruct (setAll_keeps env true (sessionsFor oldProc g) a)
    as (K1 & -> & -> & ->).
  split; [|done]. intros h. by rewrite H1, K1.
Qed.

Lemma applyTransitions_keeps es g : ∀ a,
  (∀ h, refCount (applyTransitions env es g a) h = refCount a h) ∧
  sessionEvents (applyTransitions env es g a) = sessionEvents a ∧
  sessionNotification (applyTransitions env es g a) = sessionNotification a ∧
  comInitCount (applyTransitions env es g a) = comInitCount a.
Proof.
  induction es as [|e es IH]; intros a; [done|].
  unfold applyTransitions in *. simpl.
  destruct (IH (SwitchMuteStates env (fst e) (snd e) g a))
    as (H1 & -> & -> & ->).
  destruct (SwitchMuteStates_keeps (fst e) (snd e) g a) as (K1 & -> & -> & ->).
  split; [|done]. intros h. by rewrite H1, K1.
Qed.

Lemma waitLoop_keeps ws : ∀ g a g' a',
  waitLoop env ws g a = Some (g', a') →
  sessionsList g' = sessionsList g ∧
  (∀ h, refCount a' h = refCount a h) ∧
  sessionEvents a' = sessionEvents a ∧
  sessionNotification a' = sessionNotification a ∧
  comInitCount a' = comInitCount a.
Proof.
  induction ws as [|[cs w] ws IH]; intros g a g' a'; [done|].
  simpl. destruct (decide (w = 0%N)).
  - unfold drainQueue. rewrite drainLoop_all by done. intros Hw.
    apply IH in Hw as (H1 & H2 & H3 & H4 & H5).
    destruct (applyTransitions_keeps (eventQueue (runHook cs g)) (runHook cs g) a)
      as (K1 & K2 & K3 & K4).
    simpl in H1. rewrite runHook_sessionsList in H1.
    split; [done|]. split; [intros h; by rewrite H2, K1|].
    split; [congruence|]. split; congruence.
  - intros [= <- <-]. by rewrite runHook_sessionsList.
Qed.

Lemma waitLoop_returns ws : ∀ g a,
  Exists (fun x => snd x ≠ 0%N) ws → is_Some (waitLoop env ws g a).
Proof.
  induction ws as [|[cs w] ws IH]; intros g a Hex.
  - by apply Exists_nil in Hex.
  - simpl. destruct (decide (w = 0%N)) as [->|Hw]; [|by eexists].
    destruct (drainQueue env (runHook cs g) a) as [[es g1] a1].
    apply IH. apply Exists_cons in Hex as [Hex|Hex]; [done|exact Hex].
Qed.

(** X11. Whatever way the tracker thread ends, it has let go of every
    session it took, but it only returns when its start-up fails early.
    Started with an empty registry and no notification registered, the
    thread comes to its end as soon as a wait answers a value other than 0
    (or earlier, when the start-up fails). At that end the session
    notification is unregistered, no handle of the registry has a
    per-session notification left and the reference count of every session
    object is what it was at the start. The end is a return only with the
    codes 2, 3 and 4, with COM initialisation balanced. Every other end,
    after a start-up that failed later as well as after any number of
    drained batches, is the delete of the listener, an object on the
    routine's own stack, in the call of Release that comes before
    CoUninitialize and the return. *)
Theorem AudioThreadRoutine_releases_everything (manager pAudioEvents : ptr)
  (ws : list (list WinEvent * DWORD)) (g : Globals) (a : Audio) :
  sessionsList g = [] →
  sessionNotification a = false →
  (Exists (fun x => snd x ≠ 0%N) ws →
   is_Some (AudioThreadRoutine env manager pAudioEvents ws g a)) ∧
  ∀ e g' a',
    AudioThreadRoutine env manager pAudioEvents ws g a = Some (e, g', a') →
    sessionNotification a' = false ∧
    (∀ k h, (k, h) ∈ sessionsList g' → sessionEvents a' h = false) ∧
    (∀ h, refCount a' h = refCount a h) ∧
    match e with
    | ReturnCode code =>
      (2 ≤ code ≤ 4)%N ∧ comInitCount a' = comInitCount a ∧
      fst (fst (AudioThreadRoutine_startup env manager pAudioEvents g a))
      = inl (ReturnCode code)
    | DeleteOfStackObject =>
      comInitCount a' = comInitCount a + 1 ∧
      hrRegisterSessionNotification env = S_OK
    end.
Proof.
  intros Hnil Hnot. unfold AudioThreadRoutine. cbv zeta.
  pose proof (startup_cases env manager pAudioEvents g a) as H. cbv zeta in H.
  destruct (AudioThreadRoutine_startup env manager pAudioEvents g a)
    as [[r g0] a0].
  cbn [fst snd] in H.
  destruct H as [(c & -> & Hc & -> & Hn & Hrc & Hse & Hci & _ & _)
                |[(aL & -> & (_ & _ & H3) & -> & Hci & Hrc & _)
                 |(hr & -> & Hhr & (_ & _ & H3 & _) & Hn & Hci & Hrc & _)]].
  - split; [by eexists|]. intros e g' a' [= <- <- <-].
    rewrite Hnil. split; [congruence|].
    split; [by intros k h ?%elem_of_nil|].
    split; [by rewrite Hrc|]. split; [lia|by split].
  - split; [by eexists|]. intros e g' a' [= <- <- <-].
    destruct (unwind_released pAudioEvents g0 aL) as (U1 & U2 & U3 & U4).
    cbv zeta in U1, U2, U3, U4.
    split; [done|]. split; [done|]. split.
    + intros h. rewrite U3. specialize (Hrc h). rewrite Hnil in Hrc.
      unfold occurrences in Hrc at 2. simpl in Hrc. lia.
    + split; [lia|done].
  - split.
    + intros Hex. destruct (waitLoop_returns ws g0 a0 Hex) as [[g1 a1] ->].
      rewrite AudioThreadRoutine_cleanup_new. by eexists.
    + intros e g' a'.
      destruct (waitLoop env ws g0 a0) as [[g1 a1]|] eqn:Hw; [|done].
      rewrite AudioThreadRoutine_cleanup_new.
      intros [= <- <- <-].
      apply waitLoop_keeps in Hw as (W1 & W2 & W3 & W4 & W5).
      destruct (unwind_released pAudioEvents g1 a1) as (U1 & U2 & U3 & U4).
      cbv zeta in U1, U2, U3, U4.
      split; [done|]. split; [done|]. split.
      * intros h. rewrite U3, W1, W2. specialize (Hrc h). rewrite Hnil in Hrc.
        unfold occurrences in Hrc at 2. simpl in Hrc. lia.
      * split; [lia|done].
Qed.

End LifecycleTheorems.

Lemma demo_register_codes n q :
  hrRegisterAudioSessionNotification (session (demoEnv n) q)
  ≠ AUDCLNT_S_NO_SINGLE_PROCESS.
Proof. simpl. by destruct (decide (q = 9%N)). Qed.

Lemma initGlobals_exact env : registry_exact env initGlobals.
Proof.
  intros id. unfold handlesWithIdentity. simpl.
  rewrite decide_False; [done|]. apply not_elem_of_empty.
Qed.

Lemma AudioThreadRoutine_ready_consistent_witness :
  registry_exact (demoEnv 8) initGlobals ∧
  (∀ q, hrRegisterAudioSessionNotification (session (demoEnv 8) q)
        ≠ AUDCLNT_S_NO_SINGLE_PROCESS) ∧
  ∃ g' a',
    AudioThreadRoutine_startup (demoEnv 8) demoManager demoEvents
      initGlobals demoAudio = (inr S_OK, g', a') ∧
    length (sessionsList g') = 8%nat ∧
    registry_invariant (demoEnv 8) g'.
Proof.
  split; [apply initGlobals_exact|]. split; [apply demo_register_codes|].
  destruct (AudioThreadRoutine_startup (demoEnv 8) demoManager demoEvents
              initGlobals demoAudio) as [[r g'] a'] eqn:Heq.
  assert (Hr : r = inr S_OK).
  { replace r with (fst (fst (AudioThreadRoutine_startup (demoEnv 8)
       demoManager demoEvents initGlobals demoAudio))) by (by rewrite Heq).
    by vm_compute. }
  subst r. exists g', a'. split; [done|]. split.
  - replace g' with (snd (fst (AudioThreadRoutine_startup (demoEnv 8)
       demoManager demoEvents initGlobals demoAudio))) by (by rewrite Heq).
    by vm_compute.
  - apply (AudioThreadRoutine_ready_consistent (demoEnv 8) demoManager
             demoEvents initGlobals demoAudio (initGlobals_exact _)
             (demo_register_codes 8) S_OK g' a' Heq).
Defined.

Lemma AudioThreadRoutine_releases_everything_witness :
  let ws := [([foreground 10%N; foreground 20%N], 0%N); ([], 1%N)] in
  sessionsList initGlobals = [] ∧
  sessionNotification demoAudio = false ∧
  Exists (fun x => snd x ≠ 0%N) ws ∧
  ∃ g' a',
    AudioThreadRoutine (demoEnv 8) demoManager demoEvents ws
      initGlobals demoAudio = Some (DeleteOfStackObject, g', a') ∧
    muted a' 1%N = true ∧ muted a' 6%N = false ∧
    sessionNotification a' = false ∧ refCount a' 6%N = 1 ∧
    comInitCount a' = 1.
Proof.
  intros ws.
  assert (Hex : Exists (fun x => snd x ≠ 0%N) ws).
  { apply Exists_cons. right. apply Exists_cons. by left. }
  split; [done|]. split; [done|]. split; [exact Hex|].
  destruct (AudioThreadRoutine_releases_everything (demoEnv 8) demoManager
              demoEvents ws initGlobals demoAudio eq_refl eq_refl)
    as [Hret Hend].
  destruct (Hret Hex) as [[[e g'] a'] Heq].
  destruct (Hend e g' a' Heq) as (Hn & _ & Hrc & He).
  assert (Hc : Some e = Some DeleteOfStackObject).
  { replace (Some e) with
      ((fun x => fst (fst x)) <$> AudioThreadRoutine (demoEnv 8) demoManager
                                    demoEvents ws initGlobals demoAudio)
      by (by rewrite Heq).
    by vm_compute. }
  injection Hc as ->. destruct He as [Hci _].
  exists g', a'. split; [exact Heq|].
  assert (Hm : Some (muted a' 1%N, muted a' 6%N) = Some (true, false)).
  { replace (Some (muted a' 1%N, muted a' 6%N)) with
      ((fun x => (muted (snd x) 1%N, muted (snd x) 6%N))
         <$> AudioThreadRoutine (demoEnv 8) demoManager demoEvents ws
               initGlobals demoAudio)
      by (by rewrite Heq).
    by vm_compute. }
  injection Hm as -> ->.
  split; [done|]. split; [done|]. split; [exact Hn|].
  split; [by rewrite Hrc|exact Hci].
Defined.

(** ** The enumerating routine *)

Section Enumerating.

Variable env : AudioEnv.

Lemma holding_refl p a : holding p 0 a a.
Proof.
  split; [|done]. intros h. destruct (decide (p = h)); lia.
Qed.

Lemma holding_AddRef p k a x :
  holding p k a x → holding p (k + 1) a (AddRef p x).
Proof.
  intros (H1 & H2 & H3 & H4). split; [|done].
  intros h. rewrite refCount_AddRef, H1. destruct (decide (p = h)); lia.
Qed.

Lemma holding_Release p k a x :
  holding p k a x → holding p (k - 1) a (Release p x).
Proof.
  intros (H1 & H2 & H3 & H4). split; [|done].
  intros h. rewrite refCount_Release, H1. destruct (decide (p = h)); lia.
Qed.

Lemma holding_set_muted p k a f x :
  holding p k a x → holding p k a (set_muted f x).
Proof. by intros (H1 & H2 & H3 & H4). Qed.

Lemma holding_set_muteCalls p k a l x :
  holding p k a x → holding p k a (set_muteCalls l x).
Proof. by intros (H1 & H2 & H3 & H4). Qed.

Lemma holding_done p k a a' :
  holding p k a a' → k = 0 →
  (∀ h, refCount a' h = refCount a h) ∧
  sessionEvents a' = sessionEvents a ∧
  sessionNotification a' = sessionNotification a ∧
  comInitCount a' = comInitCount a.
Proof.
  intros (H1 & H2 & H3 & H4) ->. split; [|done].
  intros h. rewrite H1. destruct (decide (p = h)); lia.
Qed.

Ltac holding_chain :=
  first [ apply holding_refl
        | eapply holding_Release; holding_chain
        | eapply holding_AddRef; holding_chain
        | eapply holding_set_muted; holding_chain
        | eapply holding_set_muteCalls; holding_chain ].

Ltac holding_leaf p :=
  cbn [snd]; eapply (holding_done p); [holding_chain | reflexivity].

(** The two tests the routine makes on one result code. *)
Ltac by_code c :=
  destruct (decide (c = S_OK)) as [?Hc|?Hc];
  [destruct (decide (c ≠ S_OK)) as [?Hn|_]; [by destruct Hn|]
  |destruct (decide (c ≠ S_OK)) as [_|?Hn]; [|by destruct Hn]].

(** One pass of the loop body gives back the references it takes and
    touches nothing but a mute state, however it ends. *)
Lemma autoMuteSession_keeps newProcId prevProcId i a :
  let a' := snd (autoMuteSession env newProcId prevProcId i a) in
  (∀ h, refCount a' h = refCount a h) ∧
  sessionEvents a' = sessionEvents a ∧
  sessionNotification a' = sessionNotification a ∧
  comInitCount a' = comInitCount a.
Proof.
  unfold autoMuteSession, SetMute. cbv beta iota zeta.
  set (p := enumSession env i). set (s := session env p).
  destruct (decide (hrGetSession env i ≠ S_OK)); [holding_leaf p|].
  by_code (hrQueryControl2 s); [|holding_leaf p].
  destruct (decide (hrIsSystemSoundsSession s = S_OK)); [holding_leaf p|].
  destruct (decide (hrIsSystemSoundsSession s ≠ S_FALSE)); [holding_leaf p|].
  destruct (decide (hrGetProcessId s = AUDCLNT_S_NO_SINGLE_PROCESS));
    [holding_leaf p|].
  destruct (decide (hrGetProcessId s ≠ S_OK)); [holding_leaf p|].
  by_code (hrQueryVolume s); by_code (hrSetMute s);
    destruct (decide (processId s = newProcId));
    try destruct (decide (processId s = prevProcId));
    holding_leaf p.
Qed.

Lemma autoMuteLoop_keeps newProcId prevProcId n : ∀ i hr a,
  let a' := snd (autoMuteLoop env newProcId prevProcId n i hr a) in
  (∀ h, refCount a' h = refCount a h) ∧
  sessionEvents a' = sessionEvents a ∧
  sessionNotification a' = sessionNotification a ∧
  comInitCount a' = comInitCount a.
Proof.
  induction n as [|n IH]; intros i hr a; [done|].
  cbn [autoMuteLoop].
  pose proof (autoMuteSession_keeps newProcId prevProcId i a) as K.
  destruct (autoMuteSession env newProcId prevProcId i a) as [[[] hr1] a1];
    cbn [snd] in K; cbv zeta in K; [exact K|].
  destruct K as (K1 & K2 & K3 & K4).
  destruct (IH (i + 1) hr1 a1) as (J1 & J2 & J3 & J4).
  split; [intros h; by rewrite J1, K1|].
  split; [congruence|]. split; congruence.
Qed.

Lemma muted_set_muted f (a : Audio) : muted (set_muted f a) = f.
Proof. reflexivity. Qed.

Lemma muted_set_muteCalls l (a : Audio) : muted (set_muteCalls l a) = muted a.
Proof. reflexivity. Qed.

(** One pass of the loop body changes the mute state of at most the
    session it looks at, and only to the state that session is meant to
    get. *)
Lemma autoMuteSession_touches newProcId prevProcId i a q :
  let a' := snd (autoMuteSession env newProcId prevProcId i a) in
  muted a' q = muted a q ∨
  (enumSession env i = q ∧ hrGetSession env i = S_OK ∧
   targetMute env newProcId prevProcId q = Some (muted a' q)).
Proof.
  unfold autoMuteSession, SetMute. cbv beta iota zeta.
  destruct (decide (hrGetSession env i ≠ S_OK)) as [|Hg]; [by left|].
  apply dec_stable in Hg.
  set (p := enumSession env i). set (s := session env p).
  by_code (hrQueryControl2 s); [|by left].
  destruct (decide (hrIsSystemSoundsSession s = S_OK)); [by left|].
  destruct (decide (hrIsSystemSoundsSession s ≠ S_FALSE)) as [|Hs];
    [by left|].
  apply dec_stable in Hs.
  destruct (decide (hrGetProcessId s = AUDCLNT_S_NO_SINGLE_PROCESS));
    [by left|].
  destruct (decide (hrGetProcessId s ≠ S_OK)) as [|Hp]; [by left|].
  apply dec_stable in Hp.
  assert (Ht : ∀ b,
    targetMute env newProcId prevProcId p = Some b →
    (<[p:=b]> (muted a)) q = muted a q ∨
    (p = q ∧ hrGetSession env i = S_OK ∧
     targetMute env newProcId prevProcId q = Some ((<[p:=b]> (muted a)) q))).
  { intros b Hb.
    unfold insert, fn_insert. destruct (decide (p = q)) as [<-|]; [|by left].
    right. by rewrite Hb. }
  assert (Hnew : processId s = newProcId →
                 targetMute env newProcId prevProcId p = Some false).
  { intros E. unfold targetMute. cbv zeta. fold s.
    rewrite decide_True by done. by rewrite decide_True. }
  assert (Hold : processId s ≠ newProcId → processId s = prevProcId →
                 targetMute env newProcId prevProcId p = Some true).
  { intros E1 E2. unfold targetMute. cbv zeta. fold s.
    rewrite decide_True by done. rewrite decide_False by done.
    by rewrite decide_True. }
  by_code (hrQueryVolume s); by_code (hrSetMute s);
    destruct (decide (processId s = newProcId));
    try destruct (decide (processId s = prevProcId));
    cbn [snd];
    repeat first [ rewrite muted_Release | rewrite muted_AddRef
                 | rewrite muted_set_muted | rewrite muted_set_muteCalls ];
    lazymatch goal with
    | |- context [insert] => apply Ht; auto
    | |- _ => left; reflexivity
    end.
Qed.

Lemma autoMuteLoop_touches newProcId prevProcId n : ∀ i hr a q,
  let a' := snd (autoMuteLoop env newProcId prevProcId n i hr a) in
  muted a' q = muted a q ∨
  ∃ j, i ≤ j < i + Z.of_nat n ∧ enumSession env j = q ∧
       hrGetSession env j = S_OK ∧
       targetMute env newProcId prevProcId q = Some (muted a' q).
Proof.
  induction n as [|n IH]; intros i hr a q; [by left|].
  cbn [autoMuteLoop].
  pose proof (autoMuteSession_touches newProcId prevProcId i a q) as K.
  destruct (autoMuteSession env newProcId prevProcId i a) as [[[] hr1] a1];
    cbn [snd] in K; cbv zeta in K.
  - destruct K as [K|(K1 & K2 & K3)]; [by left|].
    right. exists i. split; [lia|done].
  - cbv zeta. destruct (IH (i + 1) hr1 a1 q) as [J|(j & Hj & J1 & J2 & J3)].
    + rewrite J. destruct K as [K|(K1 & K2 & K3)]; [by left|].
      right. exists i. split; [lia|done].
    + right. exists j. split; [lia|done].
Qed.

Lemma AutoMuteRoutine_keeps pSessionMgr newProcId prevProcId a :
  (∀ h, refCount (snd (AutoMuteRoutine env pSessionMgr newProcId prevProcId a)) h
        = refCount a h) ∧
  sessionEvents (snd (AutoMuteRoutine env pSessionMgr newProcId prevProcId a))
  = sessionEvents a ∧
  sessionNotification (snd (AutoMuteRoutine env pSessionMgr newProcId prevProcId a))
  = sessionNotification a ∧
  comInitCount (snd (AutoMuteRoutine env pSessionMgr newProcId prevProcId a))
  = comInitCount a.
Proof.
  unfold AutoMuteRoutine. cbv zeta.
  destruct (decide (newProcId = 0%N ∨ prevProcId = 0%N)); [done|].
  destruct (decide (newProcId = prevProcId)); [done|].
  destruct (decide (pSessionMgr = NULL)); [done|].
  destruct (decide (hrGetSessionEnumerator env ≠ S_OK)); [done|].
  destruct (decide (hrGetCount env ≠ S_OK)); [done|].
  pose proof (autoMuteLoop_keeps newProcId prevProcId
                (Z.to_nat (numSessions env)) 0 (hrGetCount env) a) as K.
  by destruct (autoMuteLoop env newProcId prevProcId
                 (Z.to_nat (numSessions env)) 0 (hrGetCount env) a).
Qed.

(** When session [i] is enumerable, the pass over it goes on to the next
    one with [S_OK] and leaves the session in the state meant for it. *)
Lemma autoMuteSession_enumerable newProcId prevProcId i a :
  enumerable env newProcId prevProcId i →
  fst (autoMuteSession env newProcId prevProcId i a) = (false, S_OK) ∧
  ∀ b, targetMute env newProcId prevProcId (enumSession env i) = Some b →
       muted (snd (autoMuteSession env newProcId prevProcId i a))
         (enumSession env i) = b.
Proof.
  unfold enumerable, controllable, targetMute, autoMuteSession, SetMute.
  cbv beta iota zeta.
  set (p := enumSession env i). set (s := session env p).
  intros (Hg & Hq & Hrest).
  rewrite (decide_False (P := hrGetSession env i ≠ S_OK)) by (by intros ?).
  rewrite (decide_True (P := hrQueryControl2 s = S_OK)) by done.
  rewrite (decide_False (P := hrQueryControl2 s ≠ S_OK)) by (by intros ?).
  destruct Hrest as [Hsys|(Hsys & Hrest)].
  { rewrite (decide_True (P := hrIsSystemSoundsSession s = S_OK)) by done.
    split; [by rewrite Hsys|].
    rewrite decide_False; [done|]. rewrite Hsys. by intros [? _]. }
  rewrite (decide_False (P := hrIsSystemSoundsSession s = S_OK))
    by (by rewrite Hsys).
  rewrite (decide_False (P := hrIsSystemSoundsSession s ≠ S_FALSE))
    by (by intros ?).
  destruct Hrest as [Hpid|(Hpid & Hctl)].
  { rewrite (decide_True (P := hrGetProcessId s = AUDCLNT_S_NO_SINGLE_PROCESS))
      by done.
    split; [done|].
    rewrite decide_False; [done|]. rewrite Hpid. by intros [_ ?]. }
  rewrite (decide_False (P := hrGetProcessId s = AUDCLNT_S_NO_SINGLE_PROCESS))
    by (by rewrite Hpid).
  rewrite (decide_False (P := hrGetProcessId s ≠ S_OK)) by (by intros ?).
  rewrite (decide_True (P := _ ∧ _)) by done.
  destruct (decide (processId s = newProcId)) as [En|En].
  { destruct Hctl as [Hv Hm]; [by left|].
    rewrite (decide_True (P := hrQueryVolume s = S_OK)) by done.
    rewrite (decide_False (P := hrQueryVolume s ≠ S_OK)) by (by intros ?).
    rewrite (decide_True (P := hrSetMute s = S_OK)) by done.
    rewrite (decide_False (P := hrSetMute s ≠ S_OK)) by (by intros ?).
    cbn [fst snd]. split; [by rewrite Hm|].
    intros b [= <-]. rewrite muted_Release, muted_set_muted.
    unfold insert, fn_insert. by rewrite decide_True. }
  destruct (decide (processId s = prevProcId)) as [Ep|Ep].
  { destruct Hctl as [Hv Hm]; [by right|].
    rewrite (decide_True (P := hrQueryVolume s = S_OK)) by done.
    rewrite (decide_False (P := hrQueryVolume s ≠ S_OK)) by (by intros ?).
    rewrite (decide_True (P := hrSetMute s = S_OK)) by done.
    rewrite (decide_False (P := hrSetMute s ≠ S_OK)) by (by intros ?).
    cbn [fst snd]. split; [by rewrite Hm|].
    intros b [= <-]. rewrite muted_Release, muted_set_muted.
    unfold insert, fn_insert. by rewrite decide_True. }
  cbn [fst snd]. split; [by rewrite Hpid|done].
Qed.

Lemma autoMuteLoop_enumerable newProcId prevProcId n : ∀ i a,
  (∀ j, i ≤ j < i + Z.of_nat n → enumerable env newProcId prevProcId j) →
  fst (autoMuteLoop env newProcId prevProcId n i S_OK a) = S_OK ∧
  ∀ q b, targetMute env newProcId prevProcId q = Some b →
         (muted a q = b ∨ ∃ j, i ≤ j < i + Z.of_nat n ∧ enumSession env j = q) →
         muted (snd (autoMuteLoop env newProcId prevProcId n i S_OK a)) q = b.
Proof.
  induction n as [|n IH]; intros i a He.
  { split; [done|]. intros q b _ [H|(j & Hj & _)]; [done|lia]. }
  cbn [autoMuteLoop].
  destruct (autoMuteSession_enumerable newProcId prevProcId i a) as [K1 K2];
    [apply He; lia|].
  pose proof (λ q, autoMuteSession_touches newProcId prevProcId i a q) as K3.
  destruct (autoMuteSession env newProcId prevProcId i a) as [[brk hr1] a1].
  cbn [fst snd] in K1, K2, K3. cbv zeta in K3. injection K1 as -> ->.
  destruct (IH (i + 1) a1) as [J1 J2]; [intros j Hj; apply He; lia|].
  split; [done|].
  intros q b Hq Hpre. apply J2; [done|].
  destruct Hpre as [Hm|(j & Hj & Hjq)].
  - left. destruct (K3 q) as [->|(_ & _ & Ht)]; [done|]. congruence.
  - destruct (decide (j = i)) as [->|Hne].
    + left. rewrite <- Hjq. apply K2. by rewrite Hjq.
    + right. exists j. split; [lia|done].
Qed.

(** X12. AutoMuteRoutine gives back every reference it takes: on every
    path, also when it breaks off in the middle of the enumeration, each
    session object has the reference count it had before, and no
    notification registration and no COM initialisation was touched. *)
Theorem AutoMuteRoutine_keeps_resources (pSessionMgr : ptr)
  (newProcId prevProcId : DWORD) (a : Audio) :
  (∀ h, refCount (snd (AutoMuteRoutine env pSessionMgr newProcId prevProcId a)) h
        = refCount a h) ∧
  sessionEvents (snd (AutoMuteRoutine env pSessionMgr newProcId prevProcId a))
  = sessionEvents a ∧
  sessionNotification (snd (AutoMuteRoutine env pSessionMgr newProcId prevProcId a))
  = sessionNotification a ∧
  comInitCount (snd (AutoMuteRoutine env pSessionMgr newProcId prevProcId a))
  = comInitCount a.
Proof. apply AutoMuteRoutine_keeps. Qed.

(** X13. Whatever AutoMuteRoutine returns, a session whose mute state it
    changed is one of the sessions of the enumerator, is not a
    system-sounds session, has a process id that could be read as that of
    a single process, belongs to the new or the old process, and is now
    unmuted in the first case and muted in the second. Every other session
    keeps its mute state. *)
Theorem AutoMuteRoutine_touches_only (pSessionMgr : ptr)
  (newProcId prevProcId : DWORD) (a : Audio) (q : ptr) :
  muted (snd (AutoMuteRoutine env pSessionMgr newProcId prevProcId a)) q
  = muted a q ∨
  ((∃ j, 0 ≤ j < numSessions env ∧ enumSession env j = q) ∧
   hrIsSystemSoundsSession (session env q) = S_FALSE ∧
   hrGetProcessId (session env q) = S_OK ∧
   ((processId (session env q) = newProcId ∧
     muted (snd (AutoMuteRoutine env pSessionMgr newProcId prevProcId a)) q
     = false) ∨
    (processId (session env q) = prevProcId ∧
     muted (snd (AutoMuteRoutine env pSessionMgr newProcId prevProcId a)) q
     = true))).
Proof.
  unfold AutoMuteRoutine. cbv zeta.
  destruct (decide (newProcId = 0%N ∨ prevProcId = 0%N)); [by left|].
  destruct (decide (newProcId = prevProcId)); [by left|].
  destruct (decide (pSessionMgr = NULL)); [by left|].
  destruct (decide (hrGetSessionEnumerator env ≠ S_OK)); [by left|].
  destruct (decide (hrGetCount env ≠ S_OK)); [by left|].
  pose proof (autoMuteLoop_touches newProcId prevProcId
                (Z.to_nat (numSessions env)) 0 (hrGetCount env) a q) as K.
  destruct (autoMuteLoop env newProcId prevProcId
              (Z.to_nat (numSessions env)) 0 (hrGetCount env) a) as [hr a'].
  cbn [snd] in K |- *. cbv zeta in K.
  destruct K as [K|(j & Hj & Hjq & _ & Ht)]; [by left|].
  right. split; [exists j; split; [lia|done]|].
  revert Ht. unfold targetMute. cbv zeta.
  destruct (decide (_ ∧ _)) as [[Hs Hp]|]; [|done].
  destruct (decide (processId (session env q) = newProcId)).
  - intros [= <-]. split; [done|]. split; [done|]. by left.
  - destruct (decide (processId (session env q) = prevProcId)); [|done].
    intros [= <-]. split; [done|]. split; [done|]. by right.
Qed.

(** X14. Called with a session manager and two different process ids that
    are not zero, and when the enumerator and every session in it answer
    the calls made on them (the volume control and SetMute only for the
    sessions of the two processes), AutoMuteRoutine returns S_OK, and of
    the enumerated sessions that are not system-sounds sessions and whose
    process id reads as that of a single process, those of the new process
    are unmuted and those of the old process are muted, even if the last
    session looked at was a cross-process one. *)
Theorem AutoMuteRoutine_switches (pSessionMgr : ptr)
  (newProcId prevProcId : DWORD) (a : Audio) :
  newProcId ≠ 0%N → prevProcId ≠ 0%N → newProcId ≠ prevProcId →
  pSessionMgr ≠ NULL →
  hrGetSessionEnumerator env = S_OK → hrGetCount env = S_OK →
  (∀ i, 0 ≤ i < numSessions env → enumerable env newProcId prevProcId i) →
  fst (AutoMuteRoutine env pSessionMgr newProcId prevProcId a) = S_OK ∧
  ∀ i, 0 ≤ i < numSessions env →
    let s := session env (enumSession env i) in
    hrIsSystemSoundsSession s = S_FALSE → hrGetProcessId s = S_OK →
    (processId s = newProcId →
     muted (snd (AutoMuteRoutine env pSessionMgr newProcId prevProcId a))
       (enumSession env i) = false) ∧
    (processId s = prevProcId →
     muted (snd (AutoMuteRoutine env pSessionMgr newProcId prevProcId a))
       (enumSession env i) = true).
Proof.
  intros Hn Hp Hne Hm He Hc Hall.
  unfold AutoMuteRoutine. cbv zeta.
  rewrite decide_False by (by intros [?|?]).
  rewrite decide_False by done. rewrite decide_False by done.
  rewrite (decide_False (P := hrGetSessionEnumerator env ≠ S_OK))
    by (by intros ?).
  rewrite (decide_False (P := hrGetCount env ≠ S_OK)) by (by intros ?).
  rewrite Hc.
  destruct (autoMuteLoop_enumerable newProcId prevProcId
              (Z.to_nat (numSessions env)) 0 a) as [K1 K2].
  { intros j Hj. apply Hall. lia. }
  destruct (autoMuteLoop env newProcId prevProcId
              (Z.to_nat (numSessions env)) 0 S_OK a) as [hr a'].
  cbn [fst snd] in K1, K2 |- *. subst hr.
  split; [by rewrite decide_False|].
  intros i Hi. cbv zeta. intros Hs Hpid.
  split; intros Hproc.
  - apply K2.
    + unfold targetMute. cbv zeta.
      rewrite decide_True by done. by rewrite decide_True.
    + right. exists i. split; [lia|done].
  - apply K2.
    + unfold targetMute. cbv zeta.
      rewrite decide_True by done.
      rewrite decide_False by congruence. by rewrite decide_True.
    + right. exists i. split; [lia|done].
Qed.

End Enumerating.

Lemma demo_enumerable i :
  0 ≤ i < numSessions (demoEnv 8) → enumerable (demoEnv 8) 20%N 30%N i.
Proof.
  cbn [numSessions demoEnv]. intros Hi.
  assert (Hc : i = 0 ∨ i = 1 ∨ i = 2 ∨ i = 3 ∨ i = 4 ∨ i = 5 ∨ i = 6 ∨ i = 7)
    by lia.
  destruct Hc as [->|[->|[->|[->|[->|[->|[->| ->]]]]]]];
    refine (bool_decide_unpack _ _); by vm_compute.
Qed.

Lemma AutoMuteRoutine_switches_witness :
  (20 ≠ 0)%N ∧ (30 ≠ 0)%N ∧ (20 ≠ 30)%N ∧ demoManager ≠ NULL ∧
  hrGetSessionEnumerator (demoEnv 8) = S_OK ∧ hrGetCount (demoEnv 8) = S_OK ∧
  (∀ i, 0 ≤ i < numSessions (demoEnv 8) →
        enumerable (demoEnv 8) 20%N 30%N i) ∧
  fst (AutoMuteRoutine (demoEnv 8) demoManager 20%N 30%N demoAudio) = S_OK ∧
  muted (snd (AutoMuteRoutine (demoEnv 8) demoManager 20%N 30%N demoAudio)) 6%N
  = false ∧
  muted (snd (AutoMuteRoutine (demoEnv 8) demoManager 20%N 30%N demoAudio)) 7%N
  = true.
Proof.
  assert (H20 : (20 ≠ 0)%N) by done.
  assert (H30 : (30 ≠ 0)%N) by done.
  assert (Hne : (20 ≠ 30)%N) by done.
  assert (Hm : demoManager ≠ NULL) by done.
  destruct (AutoMuteRoutine_switches (demoEnv 8) demoManager 20%N 30%N
              demoAudio H20 H30 Hne Hm eq_refl eq_refl demo_enumerable)
    as [H1 H2].
  do 6 (split; [done|]). split; [exact demo_enumerable|].
  split; [exact H1|]. split.
  - assert (Hi : 0 ≤ 5 < numSessions (demoEnv 8)) by (cbn; lia).
    destruct (H2 5 Hi eq_refl eq_refl) as [Hn _]. exact (Hn eq_refl).
  - assert (Hi : 0 ≤ 6 < numSessions (demoEnv 8)) by (cbn; lia).
    destruct (H2 6 Hi eq_refl eq_refl) as [_ Hp]. exact (Hp eq_refl).
Defined.

(** ** The APC thread *)

Section APCThread.

Variable env : AudioEnv.

Lemma refCount_CoUninitialize a h :
  refCount (CoUninitialize a) h = refCount a h.
Proof. reflexivity. Qed.

Lemma comInitCount_Release p a : comInitCount (Release p a) = comInitCount a.
Proof. reflexivity. Qed.

Lemma comInitCount_AddRef p a : comInitCount (AddRef p a) = comInitCount a.
Proof. reflexivity. Qed.

Lemma comInitCount_CoUninitialize a :
  comInitCount (CoUninitialize a) = comInitCount a - 1.
Proof. reflexivity. Qed.

Lemma APCAutoMuteRoutine_effect newProcId st a :
  gpSessionMgr st ≠ NULL →
  apc_effect st a (APCAutoMuteRoutine env newProcId st a) ∧
  ∀ st' a', APCAutoMuteRoutine env newProcId st a = (None, st', a') →
            gPrevProcessId st' = newProcId.
Proof.
  intros Hm. unfold APCAutoMuteRoutine.
  destruct (decide (newProcId = gPrevProcessId st)) as [->|Hne].
  { split; [done|]. by intros st' a' [= <- _]. }
  cbv zeta. cbn [gpSessionMgr].
  destruct (AutoMuteRoutine_keeps env (gpSessionMgr st) newProcId
              (gPrevProcessId st) a) as (K1 & _ & _ & K4).
  destruct (AutoMuteRoutine env (gpSessionMgr st) newProcId
              (gPrevProcessId st) a) as [hr a1].
  cbn [snd] in K1, K4.
  destruct (decide (hr ≠ S_OK)).
  - rewrite decide_False by done. split; [|done].
    split; [|split; [|by left]].
    + intros h. by rewrite refCount_CoUninitialize, refCount_Release, K1.
    + by rewrite comInitCount_CoUninitialize, comInitCount_Release, K4.
  - split; [done|]. by intros st' a' [= <- _].
Qed.

Lemma runAPC_effect c st a :
  gpSessionMgr st ≠ NULL → apc_effect st a (runAPC env c st a).
Proof.
  intros Hm. destruct c as [newProcId|pExitCode]; cbn [runAPC].
  - by apply APCAutoMuteRoutine_effect.
  - unfold APCThreadExit. cbv zeta. rewrite decide_False by done.
    split; [|split; [|by right]].
    + intros h. by rewrite refCount_CoUninitialize, refCount_Release.
    + by rewrite comInitCount_CoUninitialize, comInitCount_Release.
Qed.

Lemma runAPCs_effect cs : ∀ st a,
  gpSessionMgr st ≠ NULL → apc_effect st a (runAPCs env cs st a).
Proof.
  induction cs as [|c cs IH]; intros st a Hm; [done|].
  cbn [runAPCs].
  pose proof (runAPC_effect c st a Hm) as K.
  destruct (runAPC env c st a) as [[[e|] st1] a1]; [exact K|].
  destruct K as (K1 & K2 & K3 & K4).
  assert (Hm1 : gpSessionMgr st1 ≠ NULL) by (by rewrite K1).
  pose proof (IH st1 a1 Hm1) as J.
  destruct (runAPCs env cs st1 a1) as [[[[code|code|]|] st2] a2]; cbn in J |- *;
    try done.
  - destruct J as (J1 & J2 & J3). split; [|split; [lia|done]].
    intros h. by rewrite J1, K3, K1.
  - destruct J as (J1 & J2 & J3 & J4).
    split; [congruence|]. split; [congruence|].
    split; [intros h; by rewrite J3, K3|lia].
Qed.

Lemma APCAutoMuteRoutine_remembers newProcId st a st' a' :
  APCAutoMuteRoutine env newProcId st a = (None, st', a') →
  gPrevProcessId st' = newProcId.
Proof.
  unfold APCAutoMuteRoutine.
  destruct (decide (newProcId = gPrevProcessId st)) as [->|Hne];
    [by intros [= <- _]|].
  cbv zeta. cbn [gpSessionMgr].
  destruct (AutoMuteRoutine env (gpSessionMgr st) newProcId
              (gPrevProcessId st) a) as [hr a1].
  destruct (decide (hr ≠ S_OK)); [|by intros [= <- _]].
  by destruct (decide (gpSessionMgr st = NULL)).
Qed.

Lemma runAPCs_last cs : ∀ st a st' a',
  runAPCs env cs st a = (None, st', a') →
  match last cs with
  | None => gPrevProcessId st' = gPrevProcessId st
  | Some (CallAutoMute newProcId) => gPrevProcessId st' = newProcId
  | Some (CallThreadExit _) => False
  end.
Proof.
  induction cs as [|c cs IH]; intros st a st' a'; [by intros [= <- _]|].
  cbn [runAPCs].
  destruct (runAPC env c st a) as [[[e|] st1] a1] eqn:Hc; [done|].
  intros Hrest. specialize (IH _ _ _ _ Hrest).
  destruct c as [newProcId|pExitCode]; cbn [runAPC] in Hc.
  - apply APCAutoMuteRoutine_remembers in Hc.
    destruct cs as [|c' cs]; [cbn in IH |- *; congruence|].
    change (last (CallAutoMute newProcId :: c' :: cs)) with (last (c' :: cs)).
    destruct (last (c' :: cs)) as [[|]|] eqn:Hl; try done.
    by apply last_None in Hl.
  - unfold APCThreadExit in Hc. cbv zeta in Hc.
    by destruct (decide (gpSessionMgr st = NULL)).
Qed.

Lemma sleepLoop_returns sleeps : ∀ st a,
  gbEndProgram st = true ∨ Exists (λ x, snd x = true) sleeps →
  is_Some (sleepLoop env sleeps st a).
Proof.
  induction sleeps as [|[cs flag] sleeps IH]; intros st a Hend; cbn [sleepLoop].
  - destruct Hend as [->|Hex]; [done|]. by apply Exists_nil in Hex.
  - destruct (gbEndProgram st) eqn:Hb; [done|].
    destruct (runAPCs env cs st a) as [[[e|] st1] a1]; [done|].
    apply IH. cbn [gbEndProgram].
    destruct Hend as [?|Hex]; [done|].
    apply Exists_cons in Hex as [Hflag|Hex]; [|by right].
    left. cbn [snd] in Hflag. subst flag. apply orb_true_r.
Qed.

Lemma sleepLoop_effect sleeps : ∀ st a r st' a',
  gpSessionMgr st ≠ NULL →
  sleepLoop env sleeps st a = Some (r, st', a') →
  match r with
  | None =>
    gpSessionMgr st' = gpSessionMgr st ∧ gbEndProgram st' = true ∧
    (∀ h, refCount a' h = refCount a h) ∧
    comInitCount a' = comInitCount a
  | Some (ExitThread code) =>
    (∀ h, refCount a' h
          = refCount a h - (if decide (gpSessionMgr st = h) then 1 else 0)) ∧
    comInitCount a' = comInitCount a - 1 ∧
    (gbEndProgram st' = true ∨ gpSessionMgr st' = NULL)
  | Some _ => False
  end.
Proof.
  induction sleeps as [|[cs flag] sleeps IH]; intros st a r st' a' Hm;
    cbn [sleepLoop].
  - destruct (gbEndProgram st) eqn:Hb; [|done]. by intros [= <- <- <-].
  - destruct (gbEndProgram st) eqn:Hb; [by intros [= <- <- <-]|].
    pose proof (runAPCs_effect cs st a Hm) as K.
    destruct (runAPCs env cs st a) as [[[e|] st1] a1]; cbn in K.
    + intros [= <- <- <-]. by destruct e as [code|code|].
    + destruct K as (K1 & K2 & K3 & K4). intros Hrest.
      apply IH in Hrest; [|cbn [gpSessionMgr]; by rewrite K1].
      cbn [gpSessionMgr] in Hrest.
      destruct r as [[code|code|]|]; try done.
      * destruct Hrest as (J1 & J2 & J3). split; [|split; [lia|done]].
        intros h. by rewrite J1, K3, K1.
      * destruct Hrest as (J1 & J2 & J3 & J4).
        split; [congruence|]. split; [done|].
        split; [intros h; by rewrite J3, K3|lia].
Qed.

Lemma DWORD_of_E_FAIL : DWORD_of_HRESULT E_FAIL = 2147500037%N.
Proof. by vm_compute. Qed.

Lemma DWORD_of_E_INVALIDARG : DWORD_of_HRESULT E_INVALIDARG = 2147942487%N.
Proof. by vm_compute. Qed.

(** X15. A run of calls queued to the APC thread, with a session manager
    in place. If none of them ends the thread, the manager and the end
    flag are as before, every reference count and the COM initialisation
    count are as before, and the last call was an APCAutoMuteRoutine
    whose process id is now the remembered one. If one of
    them ends the thread it does so with ExitThread, having released the
    manager once and uninitialised COM once, and having either set the end
    flag or cleared the manager pointer. Nothing is ever called through a
    null manager pointer. *)
Theorem runAPCs_outcome (cs : list APCCall) (st : APCGlobals) (a : Audio) :
  gpSessionMgr st ≠ NULL →
  match runAPCs env cs st a with
  | (None, st', a') =>
    gpSessionMgr st' = gpSessionMgr st ∧
    gbEndProgram st' = gbEndProgram st ∧
    (∀ h, refCount a' h = refCount a h) ∧
    comInitCount a' = comInitCount a ∧
    match last cs with
    | None => gPrevProcessId st' = gPrevProcessId st
    | Some (CallAutoMute newProcId) => gPrevProcessId st' = newProcId
    | Some (CallThreadExit _) => False
    end
  | (Some (ExitThread code), st', a') =>
    (∀ h, refCount a' h
          = refCount a h - (if decide (gpSessionMgr st = h) then 1 else 0)) ∧
    comInitCount a' = comInitCount a - 1 ∧
    (gbEndProgram st' = true ∨ gpSessionMgr st' = NULL)
  | (Some _, _, _) => False
  end.
Proof.
  intros Hm. pose proof (runAPCs_effect cs st a Hm) as K.
  pose proof (runAPCs_last cs st a) as L.
  destruct (runAPCs env cs st a) as [[[e|] st'] a']; cbn in K; [exact K|].
  destruct K as (K1 & K2 & K3 & K4).
  split; [done|]. split; [done|]. split; [done|]. split; [done|].
  by apply (L st' a').
Qed.

(** X16. A queued APCAutoMuteRoutine that carries process id zero while
    the remembered id is another one, or carries another id while the
    remembered one is zero, ends the thread: the end flag is set, the manager is released, COM is
    uninitialised and the thread exits with the code of E_INVALIDARG,
    2147942487. No mute state is changed, and the id carried has already
    replaced the remembered one. *)
Theorem APCAutoMuteRoutine_zero_id (newProcId : DWORD) (st : APCGlobals)
  (a : Audio) :
  gpSessionMgr st ≠ NULL → newProcId ≠ gPrevProcessId st →
  newProcId = 0%N ∨ gPrevProcessId st = 0%N →
  APCAutoMuteRoutine env newProcId st a
  = (Some (ExitThread 2147942487%N),
     mkAPCGlobals newProcId (gpSessionMgr st) true,
     CoUninitialize (Release (gpSessionMgr st) a)).
Proof.
  intros Hm Hne Hz. unfold APCAutoMuteRoutine, AutoMuteRoutine.
  rewrite decide_False by done. cbv zeta. cbn [gpSessionMgr].
  rewrite decide_True by done.
  rewrite decide_True by done. rewrite decide_False by done.
  by rewrite DWORD_of_E_INVALIDARG.
Qed.

(** X17. The GetIAudioSessionManager2 of the APC file. Handed a null
    address it answers E_POINTER and does nothing. Otherwise it releases
    the interface found behind the address, if there is one, answers with
    the code of the first of CoCreateInstance, GetDefaultAudioEndpoint and
    Activate that does not answer S_OK, else S_OK, and leaves behind the
    address the manager, with one reference on it, when it answers S_OK
    and a null pointer in every other case. *)
Theorem APC_GetIAudioSessionManager2_result (manager : ptr)
  (ppSessionManager : option ptr) (a : Audio) :
  match APC.GetIAudioSessionManager2 env manager ppSessionManager a with
  | (hr, pp', a') =>
    match ppSessionManager with
    | None => hr = E_POINTER ∧ pp' = None ∧ a' = a
    | Some p =>
      hr = managerCode env ∧
      pp' = Some (if decide (hr = S_OK) then manager else NULL) ∧
      (∀ h, refCount a' h
            = refCount a h
              - (if decide (p ≠ NULL ∧ p = h) then 1 else 0)
              + (if decide (hr = S_OK ∧ manager = h) then 1 else 0)) ∧
      muted a' = muted a ∧ comInitCount a' = comInitCount a
    end
  end.
Proof.
  unfold APC.GetIAudioSessionManager2, managerCode.
  destruct ppSessionManager as [p|]; [|done]. cbv zeta.
  assert (Hrel : ∀ h,
    refCount (if decide (p ≠ NULL) then Release p a else a) h
    = refCount a h - (if decide (p ≠ NULL ∧ p = h) then 1 else 0)).
  { intros h. destruct (decide (p ≠ NULL)) as [Hp|Hp].
    - rewrite refCount_Release. destruct (decide (p = h)).
      + by rewrite decide_True.
      + by rewrite decide_False by (by intros [_ ?]).
    - rewrite decide_False by (by intros [? _]). lia. }
  assert (Hoth : muted (if decide (p ≠ NULL) then Release p a else a) = muted a
                 ∧ comInitCount (if decide (p ≠ NULL) then Release p a else a)
                   = comInitCount a)
    by (by destruct (decide (p ≠ NULL))).
  destruct Hoth as [Hmu Hco].
  destruct (decide (hrCoCreateInstance env ≠ S_OK)) as [Hc|Hc].
  { split; [done|]. rewrite decide_False by done. split; [done|].
    split; [|done]. intros h. rewrite Hrel.
    rewrite (decide_False (P := _ ∧ manager = h)) by (by intros [? _]). lia. }
  destruct (decide (hrGetDefaultAudioEndpoint env ≠ S_OK)) as [Hd|Hd].
  { split; [done|]. rewrite decide_False by done. split; [done|].
    split; [|done]. intros h. rewrite Hrel.
    rewrite (decide_False (P := _ ∧ manager = h)) by (by intros [? _]). lia. }
  destruct (decide (hrActivate env = S_OK)) as [Ha|Ha].
  - split; [done|]. rewrite decide_True by done. split; [done|].
    split; [|done]. intros h. rewrite refCount_AddRef, Hrel.
    destruct (decide (manager = h)).
    + by rewrite (decide_True (P := _ ∧ manager = h)).
    + by rewrite (decide_False (P := _ ∧ manager = h)) by (by intros [_ ?]).
  - split; [done|]. rewrite decide_False by done. split; [done|].
    split; [|done]. intros h. rewrite Hrel.
    rewrite (decide_False (P := _ ∧ manager = h)) by (by intros [? _]). lia.
Qed.

Lemma APCThreadRoutine_startup_cases manager st a :
  gpSessionMgr st = NULL →
  APCThreadRoutine_startup env manager st a
  = if decide (hrCoInitializeEx env ≠ S_OK)
    then (Some 2147500037%N, st, CoUninitialize (snd (CoInitializeEx env a)))
    else if decide (managerCode env ≠ S_OK)
         then (Some (DWORD_of_HRESULT (managerCode env)),
               mkAPCGlobals (gPrevProcessId st) NULL (gbEndProgram st),
               snd (CoInitializeEx env a))
         else (None,
               mkAPCGlobals (gPrevProcessId st) manager (gbEndProgram st),
               AddRef manager (snd (CoInitializeEx env a))).
Proof.
  intros Hn.
  unfold APCThreadRoutine_startup, CoInitializeEx, APC.GetIAudioSessionManager2,
    managerCode.
  cbv beta iota zeta. rewrite Hn. cbn [snd].
  destruct (decide (hrCoInitializeEx env ≠ S_OK)) as [Hi|Hi].
  { rewrite (decide_True (P := S_FALSE ≠ 0)) by done.
    by rewrite DWORD_of_E_FAIL. }
  rewrite (decide_False (P := NULL ≠ NULL)) by (by intros ?).
  destruct (decide (hrCoCreateInstance env ≠ S_OK)) as [Hc|Hc].
  { by rewrite !(decide_True (P := hrCoCreateInstance env ≠ S_OK)) by done. }
  destruct (decide (hrGetDefaultAudioEndpoint env ≠ S_OK)) as [Hd|Hd].
  { by rewrite !(decide_True (P := hrGetDefaultAudioEndpoint env ≠ S_OK))
      by done. }
  destruct (decide (hrActivate env = S_OK)) as [Ha|Ha].
  - by rewrite !(decide_False (P := hrActivate env ≠ S_OK)) by (by intros ?).
  - by rewrite !(decide_True (P := hrActivate env ≠ S_OK)) by done.
Qed.

Lemma CoInitializeEx_effect a :
  (∀ h, refCount (snd (CoInitializeEx env a)) h = refCount a h) ∧
  comInitCount (snd (CoInitializeEx env a))
  = comInitCount a
    + (if decide (hrCoInitializeEx env = S_OK ∨ hrCoInitializeEx env = S_FALSE)
       then 1 else 0).
Proof.
  unfold CoInitializeEx. cbv zeta. cbn [snd].
  destruct (decide (_ ∨ _)); cbn; split; (done || lia).
Qed.

(** X18. APCThreadRoutine, started with no session manager stored. It ends
    whenever CoInitializeEx or the manager acquisition does not answer
    S_OK, or the end flag is set at the start or by the hook during one of
    the sleeps. However it ends, every reference count is what it was at
    the start. When CoInitializeEx does not answer S_OK the routine
    returns the code of E_FAIL, 2147500037, after calling CoUninitialize,
    which leaves the COM initialisation count as it was for S_FALSE and one
    lower for every other answer. When the manager acquisition fails it
    returns that code with COM still initialised. Otherwise COM is
    uninitialised again and the manager pointer is never called while
    null; a return from the routine then has code 1, with the end flag
    set and the manager pointer cleared. *)
Theorem APCThreadRoutine_outcome (manager : ptr)
  (sleeps : list (list APCCall * bool)) (st : APCGlobals) (a : Audio) :
  manager ≠ NULL → gpSessionMgr st = NULL →
  (hrCoInitializeEx env ≠ S_OK ∨ managerCode env ≠ S_OK ∨
   gbEndProgram st = true ∨ Exists (λ x, snd x = true) sleeps →
   is_Some (APCThreadRoutine env manager sleeps st a)) ∧
  ∀ e st' a',
    APCThreadRoutine env manager sleeps st a = Some (e, st', a') →
    (∀ h, refCount a' h = refCount a h) ∧
    if decide (hrCoInitializeEx env ≠ S_OK) then
      e = Returned 2147500037%N ∧
      comInitCount a'
      = comInitCount a
        - (if decide (hrCoInitializeEx env = S_FALSE) then 0 else 1)
    else if decide (managerCode env ≠ S_OK) then
      e = Returned (DWORD_of_HRESULT (managerCode env)) ∧
      comInitCount a' = comInitCount a + 1 ∧
      gpSessionMgr st' = NULL
    else
      comInitCount a' = comInitCount a ∧
      match e with
      | Returned code =>
        code = 1%N ∧ gbEndProgram st' = true ∧ gpSessionMgr st' = NULL
      | ExitThread _ => gbEndProgram st' = true ∨ gpSessionMgr st' = NULL
      | NullCall => False
      end.
Proof.
  intros Hm Hn. unfold APCThreadRoutine.
  rewrite (APCThreadRoutine_startup_cases manager st a Hn).
  destruct (CoInitializeEx_effect a) as [I1 I2].
  set (a0 := snd (CoInitializeEx env a)) in *.
  destruct (decide (hrCoInitializeEx env ≠ S_OK)) as [Hi|Hi].
  { split; [done|]. intros e st' a' [= <- <- <-].
    split; [intros h; by rewrite refCount_CoUninitialize|].
    split; [done|]. rewrite comInitCount_CoUninitialize, I2.
    destruct (decide (hrCoInitializeEx env = S_FALSE)) as [Hf|Hf].
    - rewrite decide_True by (by right). lia.
    - rewrite decide_False by (by intros [?|?]). lia. }
  apply dec_stable in Hi.
  rewrite decide_True in I2 by (by left).
  destruct (decide (managerCode env ≠ S_OK)) as [Hc|Hc].
  { split; [done|]. by intros e st' a' [= <- <- <-]. }
  set (st1 := mkAPCGlobals (gPrevProcessId st) manager (gbEndProgram st)).
  assert (Hm1 : gpSessionMgr st1 ≠ NULL) by done.
  assert (R1 : ∀ h, refCount (AddRef manager a0) h
                    = refCount a h + (if decide (manager = h) then 1 else 0)).
  { intros h. by rewrite refCount_AddRef, I1. }
  split.
  - intros [?|[?|Hend]]; [done|done|].
    destruct (sleepLoop_returns sleeps st1 (AddRef manager a0) Hend)
      as [[[r st2] a2] Hs].
    rewrite Hs. destruct r as [e|]; [done|].
    by destruct (decide (gpSessionMgr st2 = NULL)).
  - intros e st' a'.
    pose proof (sleepLoop_effect sleeps st1 (AddRef manager a0)) as K.
    destruct (sleepLoop env sleeps st1 (AddRef manager a0))
      as [[[r st2] a2]|]; [|done].
    specialize (K r st2 a2 Hm1 eq_refl).
    destruct r as [e2|].
    + intros [= <- <- <-]. destruct e2 as [code|code|]; [done| |done].
      destruct K as (K1 & K2 & K3). cbn [gpSessionMgr st1] in K1.
      split; [intros h; rewrite K1, R1; lia|].
      split; [rewrite K2, comInitCount_AddRef; lia|done].
    + destruct K as (K1 & K2 & K3 & K4). cbn [gpSessionMgr st1] in K1.
      rewrite decide_False by (by rewrite K1).
      intros [= <- <- <-].
      split.
      { intros h. rewrite refCount_CoUninitialize, refCount_Release, K3, R1, K1.
        lia. }
      split.
      { rewrite comInitCount_CoUninitialize, comInitCount_Release, K4,
          comInitCount_AddRef. lia. }
      by rewrite K2.
Qed.

End APCThread.

Lemma runAPCs_outcome_witness :
  let st := mkAPCGlobals 20%N demoManager false in
  let cs := [CallAutoMute 30%N; CallAutoMute 30%N; CallAutoMute 20%N] in
  gpSessionMgr st ≠ NULL ∧
  ∃ st' a',
    runAPCs (demoEnv 8) cs st demoAudio = (None, st', a') ∧
    gPrevProcessId st' = 20%N ∧ gbEndProgram st' = false ∧
    refCount a' 6%N = 1 ∧ comInitCount a' = 0.
Proof.
  intros st cs.
  assert (Hm : gpSessionMgr st ≠ NULL) by done.
  split; [exact Hm|].
  pose proof (runAPCs_outcome (demoEnv 8) cs st demoAudio Hm) as K.
  assert (Hr : fst (fst (runAPCs (demoEnv 8) cs st demoAudio)) = None)
    by (by vm_compute).
  destruct (runAPCs (demoEnv 8) cs st demoAudio) as [[r st'] a'].
  cbn [fst] in Hr. subst r.
  destruct K as (_ & K2 & K3 & K4 & K5).
  exists st', a'. split; [done|]. split; [exact K5|]. split; [exact K2|].
  split; [by rewrite K3|exact K4].
Defined.

Lemma APCAutoMuteRoutine_zero_id_witness :
  let st := mkAPCGlobals 20%N demoManager false in
  gpSessionMgr st ≠ NULL ∧ 0%N ≠ gPrevProcessId st ∧
  (0%N = 0%N ∨ gPrevProcessId st = 0%N) ∧
  APCAutoMuteRoutine (demoEnv 8) 0%N st demoAudio
  = (Some (ExitThread 2147942487%N),
     mkAPCGlobals 0%N demoManager true,
     CoUninitialize (Release demoManager demoAudio)).
Proof.
  intros st.
  assert (Hm : gpSessionMgr st ≠ NULL) by done.
  assert (Hne : 0%N ≠ gPrevProcessId st) by done.
  assert (Hz : 0%N = 0%N ∨ gPrevProcessId st = 0%N) by (by left).
  split; [exact Hm|]. split; [exact Hne|]. split; [exact Hz|].
  exact (APCAutoMuteRoutine_zero_id (demoEnv 8) 0%N st demoAudio Hm Hne Hz).
Defined.

Lemma APCThreadRoutine_outcome_witness :
  let st := mkAPCGlobals 30%N NULL false in
  let sleeps := [([CallAutoMute 20%N], false); ([], true)] in
  demoManager ≠ NULL ∧ gpSessionMgr st = NULL ∧
  ∃ st' a',
    APCThreadRoutine (demoEnv 8) demoManager sleeps st demoAudio
    = Some (Returned 1%N, st', a') ∧
    muted a' 7%N = true ∧ refCount a' demoManager = 1 ∧
    comInitCount a' = 0.
Proof.
  intros st sleeps.
  assert (Hm : demoManager ≠ NULL) by done.
  split; [exact Hm|]. split; [done|].
  destruct (APCThreadRoutine_outcome (demoEnv 8) demoManager sleeps st
              demoAudio Hm eq_refl) as [Hret Hend].
  destruct Hret as [[[e st'] a'] Heq].
  { right. right. right. apply Exists_cons. right. apply Exists_cons.
    by left. }
  destruct (Hend e st' a' Heq) as [Hrc Hrest].
  assert (He : Some (e, muted a' 7%N, comInitCount a')
               = Some (Returned 1%N, true, 0)).
  { replace (Some (e, muted a' 7%N, comInitCount a')) with
      ((fun x => (fst (fst x), muted (snd x) 7%N, comInitCount (snd x)))
         <$> APCThreadRoutine (demoEnv 8) demoManager sleeps st demoAudio)
      by (by rewrite Heq).
    by vm_compute. }
  injection He as -> Hmu Hco.
  exists st', a'. split; [exact Heq|]. split; [exact Hmu|].
  split; [by rewrite Hrc|exact Hco].
Defined.
